(** * Puppy-photo synchronisation: a shallow embedding of the sync scripts

    The development embeds the manifest-based photo sync script
    (readManifest, listFilesInFolder, downloadFile, safeFilename, syncBreed,
    main) and the per-row image download of the availability export
    (downloadDriveImageToRepo and the photo step of buildAvailability) as Rocq
    functions, and proves the properties the design document states about
    them.

    Conventions of the model.
    - A JavaScript string is a [string]; its characters stand for code units
      below 256.
    - A time value is a [Z] number of milliseconds since the epoch; an invalid
      date (NaN) is [None].  Divisions on time values are exact: for the
      integers below 2^53 that time values are, the floor of the floating
      point quotient is the floor of the exact quotient.
    - An object used as a dictionary is a finite map of its own properties;
      keys that name members of Object.prototype are outside the model.
    - The local disk is a finite map from paths to file contents; directories
      are not represented, and writing a file always succeeds.
    - The remote store is a value of type [Drive]; the requests sent to it
      are logged in the state.
    - A thrown exception is the [Throw] result of the [M] monad; the state
      reached before the throw is kept. *)

From Stdlib Require Import ZArith Lia String Ascii List Bool.
From stdpp Require Import base option gmap strings list sorting pretty.

Local Open Scope string_scope.
Local Open Scope Z_scope.

(** ** JavaScript strings *)

Module JS.

(** ToBoolean on a string: only the empty string is falsy. *)
Definition truthy (s : string) : bool :=
  match s with EmptyString => false | String _ _ => true end.

(** ToBoolean on a possibly undefined string ([x.p] when [p] may be absent). *)
Definition truthy_opt (o : option string) : bool :=
  match o with Some s => truthy s | None => false end.

(** [o || d] for a possibly undefined string [o]. *)
Definition or_else (o : option string) (d : string) : string :=
  match o with
  | Some s => if truthy s then s else d
  | None => d
  end.

Definition code (c : ascii) : Z := Z.of_nat (nat_of_ascii c).

Definition chars (s : string) : list ascii := list_ascii_of_string s.
Definition of_chars (l : list ascii) : string := string_of_list_ascii l.

(** The class \s restricted to code units below 256. *)
Definition is_space (c : ascii) : bool :=
  let n := code c in
  ((9 <=? n) && (n <=? 13)) || (n =? 32) || (n =? 160).

Definition is_upper (c : ascii) : bool :=
  let n := code c in (65 <=? n) && (n <=? 90).
Definition is_lower (c : ascii) : bool :=
  let n := code c in (97 <=? n) && (n <=? 122).
Definition is_digit (c : ascii) : bool :=
  let n := code c in (48 <=? n) && (n <=? 57).

(** The class [a-zA-Z0-9._-]. *)
Definition is_safe_char (c : ascii) : bool :=
  is_lower c || is_upper c || is_digit c
  || (code c =? 46) || (code c =? 95) || (code c =? 45).

(** String.prototype.toLowerCase on code units below 256. *)
Definition lower_char (c : ascii) : ascii :=
  let n := code c in
  if is_upper c then ascii_of_nat (Z.to_nat (n + 32))
  else if (192 <=? n) && (n <=? 222) && negb (n =? 215)
       then ascii_of_nat (Z.to_nat (n + 32))
       else c.

Definition toLowerCase (s : string) : string :=
  of_chars (map lower_char (chars s)).

(** String.prototype.trim. *)
Fixpoint drop_spaces (l : list ascii) : list ascii :=
  match l with
  | c :: l' => if is_space c then drop_spaces l' else l
  | [] => []
  end.

Definition trim (s : string) : string :=
  of_chars (rev (drop_spaces (rev (drop_spaces (chars s))))).

(** String.prototype.startsWith. *)
Definition startsWith (s p : string) : bool := String.prefix p s.

(** [s.endsWith(p)]. *)
Definition endsWith (s p : string) : bool :=
  String.prefix (of_chars (rev (chars p))) (of_chars (rev (chars s))).

(** [s.slice(0, n)]. *)
Definition slice0 (n : nat) (s : string) : string := String.substring 0 n s.

(** [s.replace(/\s+/g, "_")]: every maximal run of white space becomes one
    underscore. *)
Fixpoint replace_spaces (in_run : bool) (l : list ascii) : list ascii :=
  match l with
  | [] => []
  | c :: l' =>
      if is_space c
      then (if in_run then replace_spaces true l'
            else "_"%char :: replace_spaces true l')
      else c :: replace_spaces false l'
  end.

(** [s.replace(/\\/g, "/")]. *)
Definition slash_char (c : ascii) : ascii :=
  if code c =? 92 then "/"%char else c.

(** [a > b] for a number [a] that may be NaN. *)
Definition gt (a : option Z) (b : Z) : bool :=
  match a with Some x => b <? x | None => false end.

(** The suffix of [s] of at most [n] characters. *)
Definition suffix (n : nat) (s : string) : string :=
  of_chars (rev (take n (rev (chars s)))).

(** [s.replace(/[^a-zA-Z0-9._-]/g, "")]. *)
Definition strip_unsafe (l : list ascii) : list ascii :=
  List.filter is_safe_char l.

End JS.

(** ** Dates

    [new Date(iso).getTime()] and [new Date(ms).toISOString()], for the
    format toISOString writes: YYYY-MM-DDTHH:mm:ss.sssZ.  A string in another
    format is an invalid date. *)

Module Date.

Definition MS_PER_DAY : Z := 1000 * 60 * 60 * 24.

(** Days since the epoch of a civil date, and back (proleptic Gregorian
    calendar). *)
Definition days_from_civil (y m d : Z) : Z :=
  let y' := if m <=? 2 then y - 1 else y in
  let era := y' / 400 in
  let yoe := y' - era * 400 in
  let doy := (153 * (if 2 <? m then m - 3 else m + 9) + 2) / 5 + d - 1 in
  let doe := yoe * 365 + yoe / 4 - yoe / 100 + doy in
  era * 146097 + doe - 719468.

Definition civil_from_days (z : Z) : Z * Z * Z :=
  let z' := z + 719468 in
  let era := z' / 146097 in
  let doe := z' - era * 146097 in
  let yoe := (doe - doe / 1460 + doe / 36524 - doe / 146096) / 365 in
  let doy := doe - (365 * yoe + yoe / 4 - yoe / 100) in
  let mp := (5 * doy + 2) / 153 in
  let d := doy - (153 * mp + 2) / 5 + 1 in
  let m := if mp <? 10 then mp + 3 else mp - 9 in
  (yoe + era * 400 + (if m <=? 2 then 1 else 0), m, d).

Definition is_leap (y : Z) : bool :=
  ((y mod 4 =? 0) && negb (y mod 100 =? 0)) || (y mod 400 =? 0).

Definition days_in_month (y m : Z) : Z :=
  if m =? 2 then (if is_leap y then 29 else 28)
  else if (m =? 4) || (m =? 6) || (m =? 9) || (m =? 11) then 30 else 31.

Fixpoint digits (acc : Z) (l : list ascii) : option Z :=
  match l with
  | [] => Some acc
  | c :: l' =>
      if JS.is_digit c then digits (10 * acc + (JS.code c - 48)) l' else None
  end.

Definition is_char (c : ascii) (n : Z) : bool := JS.code c =? n.

(** [new Date(s).getTime()]; [None] is NaN. *)
Definition getTime (s : string) : option Z :=
  match JS.chars s with
  | [y1; y2; y3; y4; c1; m1; m2; c2; d1; d2; cT; h1; h2; c3; n1; n2; c4;
     s1; s2; c5; f1; f2; f3; cZ] =>
      if is_char c1 45 && is_char c2 45 && is_char cT 84 && is_char c3 58
         && is_char c4 58 && is_char c5 46 && is_char cZ 90
      then
        y ← digits 0 [y1; y2; y3; y4];
        m ← digits 0 [m1; m2];
        d ← digits 0 [d1; d2];
        h ← digits 0 [h1; h2];
        n ← digits 0 [n1; n2];
        sec ← digits 0 [s1; s2];
        ms ← digits 0 [f1; f2; f3];
        if (1 <=? m) && (m <=? 12) && (1 <=? d) && (d <=? days_in_month y m)
           && (h <=? 23) && (n <=? 59) && (sec <=? 59)
        then Some (days_from_civil y m d * MS_PER_DAY
                   + h * 3600000 + n * 60000 + sec * 1000 + ms)
        else None
      else None
  | _ => None
  end.

Definition digit_char (d : Z) : ascii := ascii_of_nat (Z.to_nat (48 + d)).

(** The last [k] decimal digits of [n], zero padded. *)
Fixpoint pad (k : nat) (n : Z) : string :=
  match k with
  | O => ""
  | S k' => pad k' (n / 10) +:+ String (digit_char (n mod 10)) ""
  end.

Definition year_string (y : Z) : string :=
  if (0 <=? y) && (y <=? 9999) then pad 4 y
  else if y <? 0 then "-" +:+ pad 6 (- y) else "+" +:+ pad 6 y.

(** [new Date(t).toISOString()]. *)
Definition toISOString (t : Z) : string :=
  let r := t mod MS_PER_DAY in
  let '(y, m, d) := civil_from_days (t / MS_PER_DAY) in
  year_string y +:+ "-" +:+ pad 2 m +:+ "-" +:+ pad 2 d +:+ "T"
  +:+ pad 2 (r / 3600000) +:+ ":" +:+ pad 2 (r / 60000 mod 60) +:+ ":"
  +:+ pad 2 (r / 1000 mod 60) +:+ "." +:+ pad 3 (r mod 1000) +:+ "Z".

End Date.

(** ** Paths (POSIX flavour of the [path] module) *)

Module Path.

Definition is_slash (c : ascii) : bool := JS.code c =? 47.
Definition is_dot (c : ascii) : bool := JS.code c =? 46.

(** [path.join(a, b)] for a normalised [a] and a file name [b] without
    separators. *)
Definition join (a b : string) : string := a +:+ "/" +:+ b.

(** The characters after the last separator, the list being reversed. *)
Fixpoint rev_base (l : list ascii) : list ascii :=
  match l with
  | [] => []
  | c :: l' => if is_slash c then [] else c :: rev_base l'
  end.

Fixpoint drop_slashes (l : list ascii) : list ascii :=
  match l with
  | c :: l' => if is_slash c then drop_slashes l' else l
  | [] => []
  end.

(** [path.parse(p).base]: the last component, trailing separators dropped. *)
Definition base (p : string) : list ascii :=
  rev (rev_base (drop_slashes (rev (JS.chars p)))).

(** Splits a reversed component at its last dot: the reversed extension
    (without the dot) and the reversed stem. *)
Fixpoint split_last_dot (l : list ascii) : option (list ascii * list ascii) :=
  match l with
  | [] => None
  | c :: l' =>
      if is_dot c then Some ([], l')
      else match split_last_dot l' with
           | Some (e, stem) => Some (c :: e, stem)
           | None => None
           end
  end.

(** [path.parse(p).name]: the base without its extension.  A base that has
    no dot, starts with its only dot, or is ".." has no extension. *)
Definition parse_name (p : string) : string :=
  let b := base p in
  match split_last_dot (rev b) with
  | None => JS.of_chars b
  | Some (_, []) => JS.of_chars b
  | Some (_, (_ :: _) as stem) =>
      if forallb is_dot b && (length b =? 2)%nat then JS.of_chars b
      else JS.of_chars (rev stem)
  end.

(** [path.extname(p)], with its leading dot; empty when there is none. *)
Definition extname (p : string) : string :=
  let b := base p in
  match split_last_dot (rev b) with
  | None => ""
  | Some (_, []) => ""
  | Some (e, _ :: _) =>
      if forallb is_dot b && (length b =? 2)%nat then ""
      else JS.of_chars ("."%char :: rev e)
  end.

End Path.

(** ** SHA-1 ([crypto.createHash("sha1").update(s).digest("hex")]) *)

Module Sha1.

Definition w32 (x : Z) : Z := x mod 2 ^ 32.

Definition rotl (n x : Z) : Z :=
  w32 (Z.lor (Z.shiftl x n) (Z.shiftr x (32 - n))).

(** UTF-8 bytes of a string of code units below 256. *)
Definition utf8 (s : string) : list Z :=
  flat_map (fun c => let n := JS.code c in
                     if n <? 128 then [n]
                     else [192 + n / 64; 128 + n mod 64])
           (JS.chars s).

(** Big-endian bytes of [x], [k] of them. *)
Fixpoint be_bytes (k : nat) (x : Z) : list Z :=
  match k with
  | O => []
  | S k' => be_bytes k' (x / 256) ++ [x mod 256]
  end.

(** The message followed by 0x80, zeros up to 56 modulo 64, and the bit
    length on 8 bytes. *)
Definition padded (msg : list Z) : list Z :=
  let len := Z.of_nat (length msg) in
  let zeros := Z.to_nat ((55 - len) mod 64) in
  msg ++ [128] ++ repeat 0 zeros ++ be_bytes 8 (8 * len).

Fixpoint words (bs : list Z) : list Z :=
  match bs with
  | b1 :: b2 :: b3 :: b4 :: rest =>
      (((b1 * 256 + b2) * 256 + b3) * 256 + b4) :: words rest
  | _ => []
  end.

Definition f_round (t b c d : Z) : Z :=
  if t <? 20 then Z.lor (Z.land b c) (Z.land (Z.lxor b (2 ^ 32 - 1)) d)
  else if t <? 40 then Z.lxor (Z.lxor b c) d
  else if t <? 60 then Z.lor (Z.lor (Z.land b c) (Z.land b d)) (Z.land c d)
  else Z.lxor (Z.lxor b c) d.

Definition k_round (t : Z) : Z :=
  if t <? 20 then 0x5A827999
  else if t <? 40 then 0x6ED9EBA1
  else if t <? 60 then 0x8F1BBCDC
  else 0xCA62C1D6.

Definition state : Type := Z * Z * Z * Z * Z.

(** Rounds [t], [t+1], ... on the window of the sixteen schedule words
    starting at [t]. *)
Fixpoint rounds (n : nat) (t : Z) (st : state) (win : list Z) : state :=
  match n with
  | O => st
  | S n' =>
      let '(a, b, c, d, e) := st in
      let w := nth 0 win 0 in
      let next := rotl 1 (Z.lxor (Z.lxor (Z.lxor (nth 13 win 0) (nth 8 win 0))
                                         (nth 2 win 0)) w) in
      let tmp := w32 (rotl 5 a + f_round t b c d + e + k_round t + w) in
      rounds n' (t + 1) (tmp, a, rotl 30 b, c, d) (tl win ++ [next])
  end.

Definition compress (h : state) (block : list Z) : state :=
  let '(h0, h1, h2, h3, h4) := h in
  let '(a, b, c, d, e) := rounds 80 0 h block in
  (w32 (h0 + a), w32 (h1 + b), w32 (h2 + c), w32 (h3 + d), w32 (h4 + e)).

Fixpoint blocks (fuel : nat) (h : state) (ws : list Z) : state :=
  match fuel, ws with
  | S fuel', _ :: _ => blocks fuel' (compress h (take 16 ws)) (drop 16 ws)
  | _, _ => h
  end.

Definition init : state :=
  (0x67452301, 0xEFCDAB89, 0x98BADCFE, 0x10325476, 0xC3D2E1F0).

Definition hex_digit (d : Z) : ascii :=
  ascii_of_nat (Z.to_nat (if d <? 10 then 48 + d else 87 + d)).

Fixpoint hex (k : nat) (x : Z) : string :=
  match k with
  | O => ""
  | S k' => hex k' (x / 16) +:+ String (hex_digit (x mod 16)) ""
  end.

Definition digest (msg : list Z) : state :=
  let ws := words (padded msg) in
  blocks (length ws) init ws.

Definition sha1 (s : string) : string :=
  let '(h0, h1, h2, h3, h4) := digest (utf8 s) in
  hex 8 h0 +:+ hex 8 h1 +:+ hex 8 h2 +:+ hex 8 h3 +:+ hex 8 h4.

End Sha1.

(** ** Data model *)

(** One entry of a Drive listing.  [name], [mimeType] and the two times may
    be missing from a response. *)
Record DriveFile := {
  f_id : string;
  f_name : option string;
  f_mimeType : option string;
  f_createdTime : option string;
  f_modifiedTime : option string
}.

(** The manifest object: [{ version, firstSeen: { breedKey: { fileId: iso } } }]. *)
Record Manifest := {
  version : Z;
  firstSeen : gmap string (gmap string string)
}.

(** One element of [current] in the summary a sync writes. *)
Record Item := {
  filename : string;
  url : string;
  driveName : option string;
  item_firstSeen : string;
  ageDays : option Z
}.

(** The object [out] that syncBreed writes for a breed. *)
Record Summary := {
  breed : string;
  generatedAt : string;
  keepDays : Z;
  current : list Item;
  archiveCount : Z
}.

(** A JSON document, by the value JSON.parse gives for it.  [DOther] is a
    document that has no [firstSeen] property (null, a number, a string, an
    array, an object of another shape). *)
Inductive JsonDoc :=
  | DManifest (m : Manifest)
  | DSummary (s : Summary)
  | DOther.

(** The content of a file.  A file that holds JSON text is represented by
    its document: JSON.stringify writes [Json d] and JSON.parse reads [d]
    back.  [Bytes] is any other content (an image, a truncated or garbled
    file); JSON.parse rejects it. *)
Inductive FileData :=
  | Bytes (b : string)
  | Json (d : JsonDoc).

(** An entry of the disk: a regular file, or something that exists at the
    path but cannot be read as a file (a directory, a file without read
    permission). *)
Inductive Node :=
  | File (c : FileData)
  | Unreadable.

(** What the remote store answers to the successive [files.list] requests of
    one listing: an error, a page without [nextPageToken], or a page with a
    [nextPageToken] and the answers to the requests that follow. *)
Inductive Listing :=
  | ListFails (e : string)
  | LastPage (files : option (list DriveFile))
  | MorePages (files : option (list DriveFile)) (nextPageToken : string)
              (rest : Listing).

(** What the remote store answers to a [files.get] with [alt: "media"]: the
    whole content, or a transfer that breaks after some bytes. *)
Inductive Media :=
  | MediaOk (bytes : string)
  | MediaBroken (partial : string).

(** The remote store the Drive client reaches.  A folder or file that is not
    in the maps makes the request fail. *)
Record Drive := {
  folders : gmap string Listing;
  media : gmap string Media;
  metadata : gmap string (option string * option string)
}.

(** The requests sent to the remote store. *)
Inductive Call :=
  | CallList (folderId : string) (pageToken : option string)
  | CallMedia (fileId : string)
  | CallMeta (fileId : string).

(** The state a script runs in: the disk, the manifest object that [main]
    holds and passes by reference to syncBreed, the requests sent so far, the
    console, and the clock (its successive readings). *)
Record World := {
  fs : gmap string Node;
  manifestObj : JsonDoc;
  calls : list Call;
  console : list string;
  clock : nat → Z;
  reads : nat
}.

(** The environment variables the sync script reads. *)
Record Env := {
  GDRIVE_SERVICE_ACCOUNT_JSON : option string;
  GDRIVE_BOUVIERS_FOLDER_ID : option string;
  GDRIVE_LOWCHEN_FOLDER_ID : option string
}.

(** ** The effect monad: state and exceptions *)

Inductive Result (A : Type) :=
  | Ok (a : A)
  | Throw (e : string).
Arguments Ok {A} a.
Arguments Throw {A} e.

Definition M (A : Type) : Type := World → Result A * World.

Definition ret {A} (a : A) : M A := fun w => (Ok a, w).

Definition bind {A B} (c : M A) (k : A → M B) : M B :=
  fun w => match c w with
           | (Ok a, w') => k a w'
           | (Throw e, w') => (Throw e, w')
           end.

Definition throw {A} (e : string) : M A := fun w => (Throw e, w).

(** [try { c } catch (err) { h(err) }]. *)
Definition try_catch {A} (c : M A) (h : string → M A) : M A :=
  fun w => match c w with
           | (Ok a, w') => (Ok a, w')
           | (Throw e, w') => h e w'
           end.

Notation "x <~ c1 ;; c2" := (bind c1 (fun x => c2))
  (at level 100, c1 at next level, right associativity).
Notation "c1 ;; c2" := (bind c1 (fun _ => c2))
  (at level 100, right associativity).

(** [for (const x of l) body], the loop's local variables being [s]. *)
Fixpoint forOf {A S} (body : S → A → M S) (s : S) (l : list A) : M S :=
  match l with
  | [] => ret s
  | x :: l' => s' <~ body s x ;; forOf body s' l'
  end.

(** *** Primitive effects *)

Definition fs_existsSync (p : string) : M bool :=
  fun w => (Ok (bool_decide (is_Some (fs w !! p))), w).

Definition fs_readFileSync (p : string) : M FileData :=
  fun w => match fs w !! p with
           | Some (File c) => (Ok c, w)
           | Some Unreadable => (Throw "EISDIR or EACCES", w)
           | None => (Throw "ENOENT", w)
           end.

Definition set_fs (f : gmap string Node) (w : World) : World :=
  {| fs := f; manifestObj := manifestObj w; calls := calls w;
     console := console w; clock := clock w; reads := reads w |}.

Definition fs_writeFileSync (p : string) (c : FileData) : M unit :=
  fun w => (Ok tt, set_fs (<[p := File c]> (fs w)) w).

(** [fs.statSync(p).size], for a path that exists.  The size of a JSON text
    and of a directory is only known to be positive. *)
Definition size_of (n : Node) : Z :=
  match n with
  | File (Bytes b) => Z.of_nat (String.length b)
  | File (Json _) => 2
  | Unreadable => 4096
  end.

(** [fs.mkdirSync(p, { recursive: true })]: no regular file changes. *)
Definition ensureDir (p : string) : M unit := ret tt.

Definition JSON_parse (c : FileData) : M JsonDoc :=
  match c with
  | Json d => ret d
  | Bytes _ => throw "SyntaxError"
  end.

Definition log_call (c : Call) : M unit :=
  fun w => (Ok tt,
            {| fs := fs w; manifestObj := manifestObj w;
               calls := (calls w ++ [c])%list;
               console := console w; clock := clock w; reads := reads w |}).

Definition console_log (s : string) : M unit :=
  fun w => (Ok tt,
            {| fs := fs w; manifestObj := manifestObj w; calls := calls w;
               console := (console w ++ [s])%list;
               clock := clock w; reads := reads w |}).

(** [Date.now()]: the next reading of the clock. *)
Definition Date_now : M Z :=
  fun w => (Ok (clock w (reads w)),
            {| fs := fs w; manifestObj := manifestObj w; calls := calls w;
               console := console w; clock := clock w;
               reads := S (reads w) |}).

Definition get_manifestObj : M JsonDoc := fun w => (Ok (manifestObj w), w).

Definition set_manifestObj (d : JsonDoc) : M unit :=
  fun w => (Ok tt,
            {| fs := fs w; manifestObj := d; calls := calls w;
               console := console w; clock := clock w; reads := reads w |}).

(** ** The manifest-based photo sync *)

Definition DAYS_TO_KEEP_CURRENT : Z := 90.

Definition MANIFEST_PATH : string := Path.join "data" "puppy-photo-manifest.json".

Definition sha1 (s : string) : string := Sha1.sha1 s.

Definition nowIso : M string :=
  t <~ Date_now ;; ret (Date.toISOString t).

Definition daysBetweenIso (olderIso newerIso : string) : option Z :=
  newer ← Date.getTime newerIso;
  older ← Date.getTime olderIso;
  Some ((newer - older) / (1000 * 60 * 60 * 24)).

Definition empty_manifest : Manifest := {| version := 1; firstSeen := ∅ |}.

Definition readManifest : M JsonDoc :=
  try_catch
    (ex <~ fs_existsSync MANIFEST_PATH ;;
     if negb ex then ret (DManifest empty_manifest)
     else (txt <~ fs_readFileSync MANIFEST_PATH ;; JSON_parse txt))
    (fun _ => ret (DManifest empty_manifest)).

Definition writeManifest (manifest : JsonDoc) : M unit :=
  ensureDir "data" ;;
  fs_writeFileSync MANIFEST_PATH (Json manifest).

(** The client for the remote store [remote]; the credentials document is
    taken to be well formed when present. *)
Definition getDriveClient (env : Env) (remote : Drive) : M Drive :=
  if negb (JS.truthy_opt (GDRIVE_SERVICE_ACCOUNT_JSON env))
  then throw "Missing GDRIVE_SERVICE_ACCOUNT_JSON secret"
  else ret remote.

(** [name.match(/\.(jpe?g|png|webp)$/i)]: the matched text, if any. *)
Definition image_ext_match (name : string) : option string :=
  let s5 := JS.suffix 5 name in
  let s4 := JS.suffix 4 name in
  if String.eqb (JS.toLowerCase s5) ".jpeg"
     || String.eqb (JS.toLowerCase s5) ".webp" then Some s5
  else if String.eqb (JS.toLowerCase s4) ".jpg"
          || String.eqb (JS.toLowerCase s4) ".png" then Some s4
  else None.

(** The test of the listing loop: a file without MIME type is skipped; one
    with a MIME type is kept when the type is an image type or the name has
    an image extension. *)
Definition isImage (f : DriveFile) : bool :=
  match f_mimeType f with
  | None => false
  | Some mimeType =>
      if negb (JS.truthy mimeType) then false
      else JS.startsWith mimeType "image/"
           || bool_decide (is_Some (image_ext_match (JS.or_else (f_name f) "")))
  end.

(** [new Date(f.modifiedTime || f.createdTime)] as a time value. *)
Definition fileTime (f : DriveFile) : option Z :=
  let t := if JS.truthy_opt (f_modifiedTime f) then f_modifiedTime f
           else f_createdTime f in
  t ≫= Date.getTime.

(** The comparator of the sort: positive when [b] is newer than [a]. *)
Definition compareFiles (a b : DriveFile) : option Z :=
  tb ← fileTime b; ta ← fileTime a; Some (tb - ta).

(** [a] stays before [b]: the comparator is not positive (NaN counts as 0). *)
Definition stays_before (a b : DriveFile) : bool :=
  negb (JS.gt (compareFiles a b) 0).

(** Array.prototype.sort, which is stable, as a stable insertion sort. *)
Fixpoint insert_file (x : DriveFile) (l : list DriveFile) : list DriveFile :=
  match l with
  | [] => [x]
  | y :: l' => if stays_before x y then x :: l else y :: insert_file x l'
  end.

Definition sortFiles (l : list DriveFile) : list DriveFile :=
  foldr insert_file [] l.

(** The paging loop of listFilesInFolder. *)
Fixpoint listPages (folderId : string) (pageToken : option string)
    (answers : Listing) (files : list DriveFile) : M (list DriveFile) :=
  log_call (CallList folderId pageToken) ;;
  match answers with
  | ListFails e => throw e
  | LastPage fs => ret (files ++ List.filter isImage (default [] fs))%list
  | MorePages fs tok rest =>
      let files' := (files ++ List.filter isImage (default [] fs))%list in
      if JS.truthy tok then listPages folderId (Some tok) rest files'
      else ret files'
  end.

Definition listFilesInFolder (drive : Drive) (folderId : string)
  : M (list DriveFile) :=
  files <~ listPages folderId None
             (default (ListFails "File not found") (folders drive !! folderId))
             [] ;;
  ret (sortFiles files).

Definition downloadFile (drive : Drive) (fileId outPath : string) : M unit :=
  log_call (CallMedia fileId) ;;
  match media drive !! fileId with
  | Some (MediaOk bytes) => fs_writeFileSync outPath (Bytes bytes)
  | _ => throw "download failed"
  end.

(** The three string operations of safeFilename: white space to underscores,
    characters outside the allow-list removed, trim. *)
Definition sanitize (name : string) : string :=
  JS.trim (JS.of_chars
             (JS.strip_unsafe (JS.replace_spaces false (JS.chars name)))).

Definition safeFilename (name : string) : M string :=
  let base := sanitize name in
  if JS.truthy base then ret base
  else (now <~ Date_now ;; ret ("photo_" +:+ pretty now +:+ ".jpg")).

(** *** The manifest operations of syncBreed *)

(** [manifest.firstSeen[breedKey][id]]. *)
Definition lookup2 (m : Manifest) (breedKey id : string) : option string :=
  firstSeen m !! breedKey ≫= (fun inner => inner !! id).

(** [manifest.firstSeen[breedKey][id] = v]. *)
Definition store2 (m : Manifest) (breedKey id v : string) : Manifest :=
  {| version := version m;
     firstSeen := <[breedKey := <[id := v]> (default ∅ (firstSeen m !! breedKey))]>
                    (firstSeen m) |}.

(** [manifest.firstSeen[breedKey] = manifest.firstSeen[breedKey] || {}]. *)
Definition ensureBreed (m : Manifest) (breedKey : string) : Manifest :=
  {| version := version m;
     firstSeen := <[breedKey := default ∅ (firstSeen m !! breedKey)]>
                    (firstSeen m) |}.

(** The first statements of the loop body: write [runNowIso] when the entry
    is missing (or falsy), then read the entry. *)
Definition recordFirstSeen (m : Manifest) (breedKey id runNowIso : string)
  : Manifest * string :=
  let m1 := if negb (JS.truthy_opt (lookup2 m breedKey id))
            then store2 m breedKey id runNowIso else m in
  (m1, default "" (lookup2 m1 breedKey id)).

(** The manifest's touch operation: what a sync does to the manifest for one
    asset of a collection. *)
Definition touch (m : Manifest) (collectionKey assetId now : string)
  : Manifest * string :=
  recordFirstSeen (ensureBreed m collectionKey) collectionKey assetId now.

(** The classifier: the age in days and whether it is beyond the threshold. *)
Definition classify (firstSeenIso runNowIso : string) (thresholdDays : Z)
  : option Z * bool :=
  let ageDays := daysBetweenIso firstSeenIso runNowIso in
  (ageDays, JS.gt ageDays thresholdDays).

(** The same operations on the manifest object [main] holds.  Reading
    [firstSeen] of a value that has none is a TypeError. *)
Definition ensureBreedM (breedKey : string) : M unit :=
  d <~ get_manifestObj ;;
  match d with
  | DManifest m => set_manifestObj (DManifest (ensureBreed m breedKey))
  | _ => throw "TypeError"
  end.

Definition recordFirstSeenM (breedKey id runNowIso : string) : M string :=
  d <~ get_manifestObj ;;
  match d with
  | DManifest m =>
      match firstSeen m !! breedKey with
      | Some _ =>
          let '(m1, firstSeenIso) := recordFirstSeen m breedKey id runNowIso in
          set_manifestObj (DManifest m1) ;; ret firstSeenIso
      | None => throw "TypeError"
      end
  | _ => throw "TypeError"
  end.

(** *** Naming and fetching *)

(** The extension and the stable name syncBreed computes for a file. *)
Definition extOf (name : option string) : string :=
  match image_ext_match (JS.or_else name "") with
  | Some m => JS.toLowerCase m
  | None => ".jpg"
  end.

(** [sha1(id).slice(0, 10)]. *)
Definition fingerprint (id : string) : string := JS.slice0 10 (sha1 id).

Definition stableName (name : option string) (id : string) : M string :=
  base <~ safeFilename (Path.parse_name (JS.or_else name "photo")) ;;
  ret (base +:+ "_" +:+ fingerprint id +:+ extOf name).

(** [if (!fs.existsSync(destPath)) await downloadFile(drive, id, destPath)]. *)
Definition ensureMaterialized (drive : Drive) (assetId destinationPath : string)
  : M unit :=
  ex <~ fs_existsSync destinationPath ;;
  if negb ex then downloadFile drive assetId destinationPath else ret tt.

(** *** syncBreed *)

Definition loopBody (drive : Drive)
    (breedKey runNowIso currentDir archiveDir : string)
    (st : list Item * Z) (f : DriveFile) : M (list Item * Z) :=
  let '(current, archiveCount) := st in
  firstSeenIso <~ recordFirstSeenM breedKey (f_id f) runNowIso ;;
  let '(ageDays, isArchive) :=
    classify firstSeenIso runNowIso DAYS_TO_KEEP_CURRENT in
  stableName <~ stableName (f_name f) (f_id f) ;;
  let destDir := if isArchive then archiveDir else currentDir in
  let destPath := Path.join destDir stableName in
  ensureMaterialized drive (f_id f) destPath ;;
  let relUrl :=
    "./" +:+ JS.of_chars (map JS.slash_char (JS.chars destPath)) in
  if isArchive then ret (current, archiveCount + 1)
  else ret ((current ++ [{| filename := stableName; url := relUrl;
                            driveName := f_name f;
                            item_firstSeen := firstSeenIso;
                            ageDays := ageDays |}])%list,
            archiveCount).

Definition summaryPath (breedKey : string) : string :=
  Path.join "data" ("puppy-photos-" +:+ breedKey +:+ ".json").

Definition syncBreed (drive : Drive) (breedKey folderId runNowIso : string)
  : M unit :=
  let baseDir := Path.join (Path.join "images" "puppies") breedKey in
  let currentDir := Path.join baseDir "current" in
  let archiveDir := Path.join baseDir "archive" in
  let dataDir := "data" in
  ensureDir currentDir ;;
  ensureDir archiveDir ;;
  ensureDir dataDir ;;
  files <~ listFilesInFolder drive folderId ;;
  ensureBreedM breedKey ;;
  st <~ forOf (loopBody drive breedKey runNowIso currentDir archiveDir)
          ([], 0) files ;;
  let '(current, archiveCount) := st in
  let out := {| breed := breedKey; generatedAt := runNowIso;
                keepDays := DAYS_TO_KEEP_CURRENT;
                current := current; archiveCount := archiveCount |} in
  fs_writeFileSync (summaryPath breedKey) (Json (DSummary out)) ;;
  console_log ("Synced " +:+ breedKey +:+ ": current="
               +:+ pretty (length current) +:+ ", archived="
               +:+ pretty archiveCount).

Definition main (env : Env) (remote : Drive) : M unit :=
  drive <~ getDriveClient env remote ;;
  let bouviersId := GDRIVE_BOUVIERS_FOLDER_ID env in
  let lowchenId := GDRIVE_LOWCHEN_FOLDER_ID env in
  if negb (JS.truthy_opt bouviersId) || negb (JS.truthy_opt lowchenId)
  then throw "Missing folder id secret(s)"
  else
    runNowIso <~ nowIso ;;
    manifest <~ readManifest ;;
    set_manifestObj manifest ;;
    syncBreed drive "bouviers" (default "" bouviersId) runNowIso ;;
    syncBreed drive "lowchen" (default "" lowchenId) runNowIso ;;
    manifest' <~ get_manifestObj ;;
    writeManifest manifest'.

(** [main().catch(err => { console.error(err); process.exit(1); })]: the exit
    status and the final state. *)
Definition run (env : Env) (remote : Drive) (w : World) : Z * World :=
  match main env remote w with
  | (Ok _, w') => (0, w')
  | (Throw e, w') => (1, snd (console_log e w'))
  end.

(** The files of the pages the paging loop reads, and whether every request
    of the loop is answered. *)
Fixpoint listed (answers : Listing) : list DriveFile :=
  match answers with
  | ListFails _ => []
  | LastPage fs => default [] fs
  | MorePages fs tok rest =>
      (default [] fs ++ (if JS.truthy tok then listed rest else []))%list
  end.

Fixpoint answered (answers : Listing) : bool :=
  match answers with
  | ListFails _ => false
  | LastPage _ => true
  | MorePages _ tok rest => if JS.truthy tok then answered rest else true
  end.

(** ** The per-row image download of the availability export *)

Definition extFromMime (mimeType : string) : string :=
  let mt := JS.toLowerCase mimeType in
  if String.eqb mt "image/jpeg" then "jpg"
  else if String.eqb mt "image/png" then "png"
  else if String.eqb mt "image/webp" then "webp"
  else if String.eqb mt "image/gif" then "gif"
  else if String.eqb mt "image/heic" || String.eqb mt "image/heif" then "heic"
  else "".

(** [s.replace(".", "")]: the first dot is removed. *)
Fixpoint remove_first_dot (l : list ascii) : list ascii :=
  match l with
  | [] => []
  | c :: l' => if Path.is_dot c then l' else c :: remove_first_dot l'
  end.

Definition extFromName (name : string) : string :=
  let base := JS.trim name in
  JS.toLowerCase
    (JS.of_chars (remove_first_dot (JS.chars (Path.extname base)))).

Record Download := {
  outPath : string;
  outName : string;
  ext : string
}.

Definition fs_statSync_size (p : string) : M Z :=
  fun w => match fs w !! p with
           | Some n => (Ok (size_of n), w)
           | None => (Throw "ENOENT", w)
           end.

(** The file name and path the download uses for [fileId], from the name and
    MIME type of its metadata. *)
Definition outNameFor (fileId : string) (meta : option string * option string)
  : string * string :=
  let name := JS.or_else (fst meta) fileId in
  let mimeType := JS.or_else (snd meta) "" in
  let ext :=
    if JS.truthy (extFromName name) then extFromName name
    else if JS.truthy (extFromMime mimeType) then extFromMime mimeType
    else "jpg" in
  let ext := if negb (JS.truthy ext) then "jpg" else ext in
  (fileId +:+ "." +:+ ext, ext).

Definition downloadDriveImageToRepo (drive : Drive) (fileId destDir : string)
  : M Download :=
  ensureDir destDir ;;
  log_call (CallMeta fileId) ;;
  match metadata drive !! fileId with
  | None => throw "metadata request failed"
  | Some meta =>
      let '(outName, ext) := outNameFor fileId meta in
      let outPath := Path.join destDir outName in
      let result := {| outPath := outPath; outName := outName; ext := ext |} in
      ex <~ fs_existsSync outPath ;;
      sz <~ (if ex then fs_statSync_size outPath else ret 0) ;;
      if ex && (0 <? sz) then ret result
      else
        log_call (CallMedia fileId) ;;
        match media drive !! fileId with
        | None => throw "download failed"
        | Some (MediaOk bytes) =>
            fs_writeFileSync outPath (Bytes bytes) ;; ret result
        | Some (MediaBroken partial) =>
            fs_writeFileSync outPath (Bytes partial) ;; throw "stream error"
        end
  end.

Definition repoImageDir : string := Path.join "assets" "available-photos".

(** The photo of one available row in buildAvailability: with a PhotoId the
    image is downloaded and the repository path is used; a failed download is
    logged and the value of the Photo column is kept. *)
Definition rowPhoto (drive : Drive) (photoId photo : string) : M string :=
  if JS.truthy photoId then
    try_catch
      (dl <~ downloadDriveImageToRepo drive photoId repoImageDir ;;
       ret ("assets/available-photos/" +:+ outName dl))
      (fun err =>
         console_log ("Photo download failed for PhotoId=" +:+ photoId
                      +:+ ": " +:+ err) ;;
         ret photo)
  else ret photo.

(** The photos of the available rows, in order. *)
Definition rowPhotos (drive : Drive) (rows : list (string * string))
  : M (list string) :=
  forOf (fun acc row =>
           photo <~ rowPhoto drive (fst row) (snd row) ;;
           ret (acc ++ [photo])%list)
        [] rows.

(** ** The rows of the availability export *)

Module Avail.

(** A row of the sheet as [spreadsheets.values.get] returns it with the
    default rendering: the formatted strings of its cells.  [r !! i] is
    [r[i]], undefined past the end of the row. *)
Definition Row := list string.

(** On a formatted string the test [v === true] never holds. *)
Definition truthyCheckbox (v : option string) : bool :=
  let s := JS.toLowerCase (JS.trim (JS.or_else v "")) in
  String.eqb s "true" || String.eqb s "yes" || String.eqb s "y"
  || String.eqb s "1".

Definition normalizeHeader (h : option string) : string :=
  JS.trim (JS.or_else h "").

(** [l.indexOf(x)], counted from [i]. *)
Fixpoint indexOf (l : list string) (x : string) (i : Z) : Z :=
  match l with
  | [] => -1
  | y :: l' => if String.eqb y x then i else indexOf l' x (i + 1)
  end.

(** The loop of findHeaderIndex over the candidates. *)
Fixpoint firstCandidate (lower candidates : list string) : Z :=
  match candidates with
  | [] => -1
  | c :: cs =>
      let idx := indexOf lower (JS.toLowerCase c) 0 in
      if negb (idx =? -1) then idx else firstCandidate lower cs
  end.

Definition findHeaderIndex (headers candidates : list string) : Z :=
  firstCandidate (map JS.toLowerCase headers) candidates.

(** [l] without its prefix [p], when it starts with [p]. *)
Fixpoint strip_prefix (p l : list ascii) : option (list ascii) :=
  match p, l with
  | [], _ => Some l
  | a :: p', b :: l' => if Ascii.eqb a b then strip_prefix p' l' else None
  | _ :: _, [] => None
  end.

(** The longest prefix of [l] without a character of the class [stop]. *)
Fixpoint run_until (stop : ascii → bool) (l : list ascii) : list ascii :=
  match l with
  | [] => []
  | c :: l' => if stop c then [] else c :: run_until stop l'
  end.

(** The group of a pattern [lit([^x]+)] at the start of [l]: the literal
    part is recognised by [lit], and the group is not empty. *)
Definition group_here (lit : list ascii → option (list ascii))
    (stop : ascii → bool) (l : list ascii) : option (list ascii) :=
  match lit l with
  | Some rest =>
      match run_until stop rest with
      | [] => None
      | g => Some g
      end
  | None => None
  end.

(** [s.match(/lit([^x]+)/)[1]]: the group of the leftmost match. *)
Fixpoint first_group (lit : list ascii → option (list ascii))
    (stop : ascii → bool) (l : list ascii) : option (list ascii) :=
  match group_here lit stop l with
  | Some g => Some g
  | None =>
      match l with
      | [] => None
      | _ :: l' => first_group lit stop l'
      end
  end.

(** The literal part of [/[?&]id=([^&]+)/]. *)
Definition id_param (l : list ascii) : option (list ascii) :=
  match l with
  | c :: l' =>
      if Ascii.eqb c "?" || Ascii.eqb c "&"
      then strip_prefix (JS.chars "id=") l'
      else None
  | [] => None
  end.

Definition is_amp (c : ascii) : bool := Ascii.eqb c "&".

Definition sanitizeDriveId (raw : option string) : string :=
  let v := JS.trim (JS.or_else raw "") in
  if negb (JS.truthy v) then ""
  else
    match first_group (strip_prefix (JS.chars "/file/d/")) Path.is_slash
            (JS.chars v) with
    | Some g => JS.of_chars g
    | None =>
        match first_group id_param is_amp (JS.chars v) with
        | Some g => JS.of_chars g
        | None => v
        end
    end.

(** An entry of [available]. *)
Record Puppy := {
  litter : string;
  dob : string;
  collarColor : string;
  sex : string;
  coatColor : string;
  photoId : string;
  photo : string
}.

(** The object buildAvailability returns. *)
Record Output := {
  breed : string;
  generatedAt : string;
  availableCount : Z;
  available : list Puppy
}.

(** [idx >= 0 ? (r[idx] || "") : ""]. *)
Definition field (r : Row) (idx : Z) : string :=
  if 0 <=? idx then JS.or_else (r !! Z.to_nat idx) "" else "".

(** [idxAvail >= 0 ? truthyCheckbox(r[idxAvail]) : false]. *)
Definition isAvail (idxAvail : Z) (r : Row) : bool :=
  if 0 <=? idxAvail then truthyCheckbox (r !! Z.to_nat idxAvail) else false.

Definition idxAvailOf (headers : list string) : Z :=
  findHeaderIndex headers ["Available?"; "Available"; "Available ?"].
Definition idxLitterOf (headers : list string) : Z :=
  findHeaderIndex headers ["Litter"].
Definition idxDobOf (headers : list string) : Z :=
  findHeaderIndex headers ["DOB"; "Date of Birth"].
Definition idxCollarOf (headers : list string) : Z :=
  findHeaderIndex headers ["Collar color"; "Collar Color"; "Collar"].
Definition idxSexOf (headers : list string) : Z :=
  findHeaderIndex headers ["Sex"].
Definition idxCoatOf (headers : list string) : Z :=
  findHeaderIndex headers ["Coat Color"; "Coat colour"; "Coat"].
Definition idxPhotoIdOf (headers : list string) : Z :=
  findHeaderIndex headers
    ["PhotoId"; "Photo ID"; "Photo Id"; "DriveId"; "Drive ID"].
Definition idxPhotoOf (headers : list string) : Z :=
  findHeaderIndex headers ["Photo"; "Photo URL"; "Image"; "Image URL"].

(** [idxPhotoId >= 0 ? sanitizeDriveId(r[idxPhotoId]) : ""]. *)
Definition photoIdOf (headers : list string) (r : Row) : string :=
  if 0 <=? idxPhotoIdOf headers
  then sanitizeDriveId (r !! Z.to_nat (idxPhotoIdOf headers)) else "".

(** [idxPhoto >= 0 ? String(r[idxPhoto] || "").trim() : ""]. *)
Definition photoOf (headers : list string) (r : Row) : string :=
  if 0 <=? idxPhotoOf headers
  then JS.trim (JS.or_else (r !! Z.to_nat (idxPhotoOf headers)) "") else "".

(** The body of the loop over the rows. *)
Definition rowStep (drive : Drive) (headers : list string)
    (available : list Puppy) (r : Row) : M (list Puppy) :=
  if negb (isAvail (idxAvailOf headers) r) then ret available
  else
    let photoId := photoIdOf headers r in
    photo <~ rowPhoto drive photoId (photoOf headers r) ;;
    ret (available ++
         [ {| litter := field r (idxLitterOf headers);
              dob := field r (idxDobOf headers);
              collarColor := field r (idxCollarOf headers);
              sex := field r (idxSexOf headers);
              coatColor := field r (idxCoatOf headers);
              photoId := photoId;
              photo := photo |} ])%list.

Definition buildAvailability (drive : Drive) (headers : list string)
    (rows : list Row) (breedKey : string) : M Output :=
  available <~ forOf (rowStep drive headers) [] rows ;;
  now <~ nowIso ;;
  ret {| breed := breedKey; generatedAt := now;
         availableCount := Z.of_nat (length available);
         available := available |}.

(** The entry [p] is the entry of the row [r] on the disk [disk]: it carries
    the cells of the row and its photo id, and its photo is the value of the
    Photo column or the repository path of a file that is on the disk. *)
Definition entry_of (headers : list string) (disk : gmap string Node)
    (p : Puppy) (r : Row) : Prop :=
  litter p = field r (idxLitterOf headers) ∧
  dob p = field r (idxDobOf headers) ∧
  collarColor p = field r (idxCollarOf headers) ∧
  sex p = field r (idxSexOf headers) ∧
  coatColor p = field r (idxCoatOf headers) ∧
  photoId p = photoIdOf headers r ∧
  (photo p = photoOf headers r ∨
   ∃ e, JS.truthy e = true ∧
        photo p = "assets/available-photos/" +:+ photoId p +:+ "." +:+ e ∧
        is_Some (disk !! photo p)).

End Avail.

(** ** The sync by Drive time (scripts/sync_puppy_photos.js)

    The script without a manifest: the age of a photo is counted from its
    Drive time.  sha1, getDriveClient, downloadFile and safeFilename, the
    filter of the listing and the computation of the stable name and of the
    destination are the same text as in the manifest-based script, and their
    definitions above are used. *)

Module ByDriveTime.

(** [f.modifiedTime || f.createdTime]. *)
Definition driveTime (f : DriveFile) : option string :=
  if JS.truthy_opt (f_modifiedTime f) then f_modifiedTime f
  else f_createdTime f.

(** [new Date(d).toISOString()] throws a RangeError on an invalid date. *)
Definition isoDate (d : option string) : M string :=
  match d ≫= Date.getTime with
  | Some t => ret (Date.toISOString t)
  | None => throw "RangeError: Invalid time value"
  end.

(** The age in days at the time of the call; [None] is NaN. *)
Definition daysAgo (d : option string) : M (option Z) :=
  now <~ Date_now ;;
  ret (t ← d ≫= Date.getTime; Some ((now - t) / (1000 * 60 * 60 * 24))).

(** [new Date(f.modifiedTime)] as a time value. *)
Definition modTime (f : DriveFile) : option Z :=
  f_modifiedTime f ≫= Date.getTime.

(** The comparator of the sort, on [modifiedTime] alone. *)
Definition compareFiles (a b : DriveFile) : option Z :=
  tb ← modTime b; ta ← modTime a; Some (tb - ta).

Definition stays_before (a b : DriveFile) : bool :=
  negb (JS.gt (compareFiles a b) 0).

Fixpoint insert_file (x : DriveFile) (l : list DriveFile) : list DriveFile :=
  match l with
  | [] => [x]
  | y :: l' => if stays_before x y then x :: l else y :: insert_file x l'
  end.

Definition sortFiles (l : list DriveFile) : list DriveFile :=
  foldr insert_file [] l.

Definition listFilesInFolder (drive : Drive) (folderId : string)
  : M (list DriveFile) :=
  files <~ listPages folderId None
             (default (ListFails "File not found") (folders drive !! folderId))
             [] ;;
  ret (sortFiles files).

(** One element of [current]. *)
Record Item := {
  filename : string;
  url : string;
  driveName : option string;
  modifiedTime : string;
  ageDays : option Z
}.

(** The object [out]. *)
Record Summary := {
  breed : string;
  generatedAt : string;
  keepDays : Z;
  current : list Item;
  archiveCount : Z
}.

(** The body of the loop over the listed files.  The item is built, and the
    Drive time formatted, before the bucket is looked at. *)
Definition loopBody (drive : Drive) (currentDir archiveDir : string)
    (st : list Item * Z) (f : DriveFile) : M (list Item * Z) :=
  let '(current, archiveCount) := st in
  ageDays <~ daysAgo (driveTime f) ;;
  let isArchive := JS.gt ageDays DAYS_TO_KEEP_CURRENT in
  stableName <~ stableName (f_name f) (f_id f) ;;
  let destDir := if isArchive then archiveDir else currentDir in
  let destPath := Path.join destDir stableName in
  ensureMaterialized drive (f_id f) destPath ;;
  let relUrl :=
    "./" +:+ JS.of_chars (map JS.slash_char (JS.chars destPath)) in
  modifiedTime <~ isoDate (driveTime f) ;;
  let item := {| filename := stableName; url := relUrl;
                 driveName := f_name f; modifiedTime := modifiedTime;
                 ageDays := ageDays |} in
  if isArchive then ret (current, archiveCount + 1)
  else ret ((current ++ [item])%list, archiveCount).

(** syncBreed up to the object [out]. *)
Definition buildSummary (drive : Drive) (breedKey folderId : string)
  : M Summary :=
  let baseDir := Path.join (Path.join "images" "puppies") breedKey in
  let currentDir := Path.join baseDir "current" in
  let archiveDir := Path.join baseDir "archive" in
  let dataDir := "data" in
  ensureDir currentDir ;;
  ensureDir archiveDir ;;
  ensureDir dataDir ;;
  files <~ listFilesInFolder drive folderId ;;
  st <~ forOf (loopBody drive currentDir archiveDir) ([], 0) files ;;
  now <~ nowIso ;;
  ret {| breed := breedKey; generatedAt := now;
         keepDays := DAYS_TO_KEEP_CURRENT;
         current := fst st; archiveCount := snd st |}.

(** The summary of this script has items of another shape than [DSummary];
    as a document on the disk it is [DOther]. *)
Definition syncBreed (drive : Drive) (breedKey folderId : string) : M unit :=
  out <~ buildSummary drive breedKey folderId ;;
  fs_writeFileSync (summaryPath breedKey) (Json DOther) ;;
  console_log ("Synced " +:+ breedKey +:+ ": current="
               +:+ pretty (length (current out)) +:+ ", archived="
               +:+ pretty (archiveCount out)).

Definition main (env : Env) (remote : Drive) : M unit :=
  drive <~ getDriveClient env remote ;;
  let bouviersId := GDRIVE_BOUVIERS_FOLDER_ID env in
  let lowchenId := GDRIVE_LOWCHEN_FOLDER_ID env in
  if negb (JS.truthy_opt bouviersId) || negb (JS.truthy_opt lowchenId)
  then throw "Missing folder id secret(s)"
  else
    syncBreed drive "bouviers" (default "" bouviersId) ;;
    syncBreed drive "lowchen" (default "" lowchenId).

(** The item [it] is the item of the file [f]: it carries its Drive name
    and its Drive time, and an age that is not above the threshold. *)
Definition item_of (it : Item) (f : DriveFile) : Prop :=
  driveName it = f_name f ∧
  (∃ t, fileTime f = Some t ∧ modifiedTime it = Date.toISOString t) ∧
  ∃ a, ageDays it = Some a ∧ a ≤ DAYS_TO_KEEP_CURRENT.

End ByDriveTime.

(** ** Vocabulary of the statements *)

(** [it] is the summary item of the listed file [f]: it carries the file's
    Drive name, and its file name ends with the fingerprint of the file's id
    and the extension of the file. *)
Definition item_of (it : Item) (f : DriveFile) : Prop :=
  driveName it = f_name f ∧
  ∃ base, filename it
          = base +:+ "_" +:+ fingerprint (f_id f) +:+ extOf (f_name f).

(** [m'] has every entry of [m]: the same collections, the same assets, and
    the same first-seen value wherever [m] holds a timestamp (a non-empty
    string). *)
Definition grows (m m' : Manifest) : Prop :=
  (∀ ck, is_Some (firstSeen m !! ck) → is_Some (firstSeen m' !! ck)) ∧
  (∀ ck id, is_Some (lookup2 m ck id) → is_Some (lookup2 m' ck id)) ∧
  (∀ ck id v, lookup2 m ck id = Some v → JS.truthy v = true →
              lookup2 m' ck id = Some v).

(** [name] has an image extension: in lower case it ends with .jpg, .jpeg,
    .png or .webp. *)
Definition hasImageExtension (name : string) : Prop :=
  ∃ e, e ∈ [".jpg"; ".jpeg"; ".png"; ".webp"] ∧
       JS.endsWith (JS.toLowerCase name) e = true.

(** [a] is listed before [b] by the sort: both have a valid time and [a] is
    not older than [b]. *)
Definition newer_or_same (a b : DriveFile) : Prop :=
  ∃ ta tb, fileTime a = Some ta ∧ fileTime b = Some tb ∧ tb ≤ ta.

(** The summary syncBreed writes for the items [items] of the files [kept]
    out of the listed [files]. *)
Definition summary_of (breedKey runNowIso : string) (files kept : list DriveFile)
    (items : list Item) : Summary :=
  {| breed := breedKey; generatedAt := runNowIso;
     keepDays := DAYS_TO_KEEP_CURRENT; current := items;
     archiveCount := Z.of_nat (length files) - Z.of_nat (length kept) |}.

(** The state apart from the log of requests. *)
Definition same_but_calls (w w' : World) : Prop :=
  fs w' = fs w ∧ manifestObj w' = manifestObj w ∧ console w' = console w ∧
  clock w' = clock w ∧ reads w' = reads w.

(** The items [a], [b] are in the order of their first-seen times. *)
Definition firstSeen_le (a b : Item) : Prop :=
  ∃ ta tb, Date.getTime (item_firstSeen a) = Some ta ∧
           Date.getTime (item_firstSeen b) = Some tb ∧ ta ≤ tb.

(** The files whose time is [t]. *)
Definition at_time (t : Z) (f : DriveFile) : bool :=
  bool_decide (fileTime f = Some t).

(** Unfolds the operations of the monad. *)
Ltac run_monad :=
  unfold bind, ret, throw, try_catch, log_call, fs_writeFileSync, ensureDir,
    console_log, get_manifestObj, set_manifestObj, set_fs; simpl.

(** The item syncBreed builds for a file named [stableName] whose first-seen
    value is [firstSeenIso], and the loop variables after the step of that
    file. *)
Definition item_for (f : DriveFile) (stableName destPath firstSeenIso : string)
    (ageDays : option Z) : Item :=
  {| filename := stableName;
     url := "./" +:+ JS.of_chars (map JS.slash_char (JS.chars destPath));
     driveName := f_name f;
     item_firstSeen := firstSeenIso;
     ageDays := ageDays |}.

Definition after_step (cur : list Item) (n : Z) (f : DriveFile)
    (stableName destPath firstSeenIso runNowIso : string) : list Item * Z :=
  if snd (classify firstSeenIso runNowIso DAYS_TO_KEEP_CURRENT)
  then (cur, n + 1)
  else ((cur ++ [item_for f stableName destPath firstSeenIso
                   (fst (classify firstSeenIso runNowIso
                           DAYS_TO_KEEP_CURRENT))])%list, n).

(** What holds of a current item [it] of the file [f] once the sync of the
    collection has ended in the state with disk [disk] and manifest [m']. *)
Definition item_settled (breedKey runNowIso currentDir : string)
    (disk : gmap string Node) (m' : Manifest) (it : Item) (f : DriveFile)
  : Prop :=
  item_of it f ∧
  ageDays it = daysBetweenIso (item_firstSeen it) runNowIso ∧
  JS.gt (ageDays it) DAYS_TO_KEEP_CURRENT = false ∧
  is_Some (disk !! Path.join currentDir (filename it)) ∧
  (JS.truthy runNowIso = true →
   lookup2 m' breedKey (f_id f) = Some (item_firstSeen it)).

Definition currentDirOf (breedKey : string) : string :=
  Path.join (Path.join (Path.join "images" "puppies") breedKey) "current".

Definition archiveDirOf (breedKey : string) : string :=
  Path.join (Path.join (Path.join "images" "puppies") breedKey) "archive".

(** The state after the last two statements of syncBreed. *)
Definition after_summary (breedKey runNowIso : string) (st : list Item * Z)
    (w : World) : World :=
  snd (console_log ("Synced " +:+ breedKey +:+ ": current="
                    +:+ pretty (length (fst st)) +:+ ", archived="
                    +:+ pretty (snd st))
         (snd (fs_writeFileSync (summaryPath breedKey)
                 (Json (DSummary
                          {| breed := breedKey; generatedAt := runNowIso;
                             keepDays := DAYS_TO_KEEP_CURRENT;
                             current := fst st; archiveCount := snd st |}))
                 w))).

(** The display name of [f] keeps at least one character in safeFilename. *)
Definition has_base (f : DriveFile) : Prop :=
  JS.truthy (sanitize (Path.parse_name (JS.or_else (f_name f) "photo"))) = true.

(** The file ids of the content requests of a log, in order. *)
Definition mediaCalls (log : list Call) : list string :=
  omap (fun c => match c with CallMedia fileId => Some fileId | _ => None end)
       log.

(** The file [f] is settled in a state with disk [disk] and manifest [m]:
    the manifest holds a timestamp for it, and its file is stored in the
    directory of the bucket that timestamp gives at [runNowIso]. *)
Definition file_done (breedKey runNowIso currentDir archiveDir : string)
    (disk : gmap string Node) (m : Manifest) (f : DriveFile) : Prop :=
  ∃ v, lookup2 m breedKey (f_id f) = Some v ∧ JS.truthy v = true ∧
       is_Some (disk !! Path.join
                  (if snd (classify v runNowIso DAYS_TO_KEEP_CURRENT)
                   then archiveDir else currentDir)
                  (sanitize (Path.parse_name (JS.or_else (f_name f) "photo"))
                   +:+ "_" +:+ fingerprint (f_id f) +:+ extOf (f_name f))).

(** * Sample scenarios *)

Module Sample.

Definition file (fid name mimeType modifiedTime : string) : DriveFile :=
  {| f_id := fid; f_name := Some name; f_mimeType := Some mimeType;
     f_createdTime := Some "2024-01-01T00:00:00.000Z";
     f_modifiedTime := Some modifiedTime |}.

(** The state a script starts in: a disk, no manifest object yet, and a
    clock whose first reading is 2024-11-02T10:34:15.123Z. *)
Definition world (disk : gmap string Node) : World :=
  {| fs := disk; manifestObj := DOther; calls := []; console := [];
     clock := fun n => Z.of_nat n + 1730543655123; reads := 0 |}.

Definition env : Env :=
  {| GDRIVE_SERVICE_ACCOUNT_JSON := Some "{}";
     GDRIVE_BOUVIERS_FOLDER_ID := Some "F1";
     GDRIVE_LOWCHEN_FOLDER_ID := Some "F2" |}.

(** The state in which [main] calls syncBreed when the manifest is [m]. *)
Definition ready (m : Manifest) (disk : gmap string Node) : World :=
  {| fs := disk; manifestObj := DManifest m; calls := []; console := [];
     clock := fun n => Z.of_nat n + 1730543655123; reads := 1 |}.

Definition runNow : string := "2024-11-02T10:34:15.123Z".

(** Four photos of one folder.  Listed newest change first they are W, X, Y,
    Z; the manifest has seen Y first, then X, then Z, and W long ago; it also
    remembers a photo that is no longer in the folder. *)
Definition pW : DriveFile :=
  file "idW" "w.jpg" "image/jpeg" "2024-06-01T00:00:00.000Z".
Definition pX : DriveFile :=
  file "idX" "x.jpg" "image/jpeg" "2024-05-01T00:00:00.000Z".
Definition pY : DriveFile :=
  file "idY" "y.jpg" "image/jpeg" "2024-04-01T00:00:00.000Z".
Definition pZ : DriveFile :=
  file "idZ" "z.jpg" "image/jpeg" "2024-03-01T00:00:00.000Z".

Definition manifest3 : Manifest :=
  {| version := 1;
     firstSeen :=
       {[ "bouviers" :=
            {[ "idW" := "2024-01-01T00:00:00.000Z";
               "idX" := "2024-10-02T00:00:00.000Z";
               "idY" := "2024-10-01T00:00:00.000Z";
               "idZ" := "2024-10-03T00:00:00.000Z";
               "idGone" := "2024-02-02T00:00:00.000Z" ]} ]} |}.

Definition drive3 : Drive :=
  {| folders := {[ "F1" := LastPage (Some [pZ; pW; pX; pY]);
                   "F2" := LastPage None ]};
     media := {[ "idW" := MediaOk "WWWW"; "idX" := MediaOk "XXXX";
                 "idY" := MediaOk "YYYY"; "idZ" := MediaOk "ZZZZ" ]};
     metadata := ∅ |}.

(** A folder of three photos, the content of the second of which cannot be
    fetched, and a second folder with one photo. *)
Definition pA : DriveFile :=
  file "idA" "a.jpg" "image/jpeg" "2024-05-01T00:00:00.000Z".
Definition pB : DriveFile :=
  file "idB" "b.jpg" "image/jpeg" "2024-06-01T00:00:00.000Z".
Definition pC : DriveFile :=
  file "idC" "c.jpg" "image/jpeg" "2024-04-01T00:00:00.000Z".
Definition pD : DriveFile :=
  file "idD" "d.jpg" "image/jpeg" "2024-04-01T00:00:00.000Z".

Definition drive4 : Drive :=
  {| folders := {[ "F1" := LastPage (Some [pA; pB; pC]);
                   "F2" := LastPage (Some [pD]) ]};
     media := {[ "idB" := MediaOk "BBBB"; "idC" := MediaOk "CCCC";
                 "idD" := MediaOk "DDDD" ]};
     metadata := {[ "idB" := (Some "b.jpg", Some "image/jpeg") ]} |}.

(** A disk on which the photo x of the third sample is already stored, next
    to a file that does not belong to the sync. *)
Definition disk3 : gmap string Node :=
  {[ "images/puppies/bouviers/current/x_61fb51113d.jpg" := File (Bytes "old");
     "README.md" := File (Bytes "hello") ]}.

(** A remote store whose first folder cannot be listed to the end. *)
Definition drive5 : Drive :=
  {| folders := {[ "F1" := MorePages (Some [pA]) "t1" (ListFails "HTTP 500") ]};
     media := {[ "idA" := MediaOk "AAAA" ]};
     metadata := ∅ |}.

(** The same, one day later. *)
Definition later (disk : gmap string Node) : World :=
  {| fs := disk; manifestObj := DOther; calls := []; console := [];
     clock := fun n => Z.of_nat n + 1730630055123; reads := 0 |}.

(** Two file identifiers whose SHA-1 digests start with the same ten
    hexadecimal digits, 4ab44ab424. *)
Definition idX : string := "1UX8lACUsT9ZOTFQmBgr12SWVpwJ7Wbct".
Definition idY : string := "1_eE0Ff4HPvWBQv5CD-r3J_G1GVpwbbzs".

(** A photo whose listing entry has no MIME type, and a folder that holds
    it next to a text file and a photo with a generic MIME type. *)
Definition untyped : DriveFile :=
  {| f_id := "idD"; f_name := Some "x.jpg"; f_mimeType := None;
     f_createdTime := Some "2024-01-01T00:00:00.000Z";
     f_modifiedTime := Some "2024-05-01T00:00:00.000Z" |}.

Definition generic : DriveFile :=
  file "idB" "puppy.PNG" "application/octet-stream" "2024-04-01T00:00:00.000Z".

Definition notes : DriveFile :=
  file "idC" "notes.txt" "text/plain" "2024-05-02T00:00:00.000Z".

Definition drive2 : Drive :=
  {| folders := {[ "F1" := MorePages (Some [untyped; notes]) "t1"
                             (LastPage (Some [generic])) ]};
     media := ∅; metadata := ∅ |}.

(** A remote store with one photo whose content can be fetched. *)
Definition photoA : DriveFile :=
  file "idA" "Buddy One.JPG" "image/jpeg" "2024-03-01T00:00:00.000Z".

Definition drive1 : Drive :=
  {| folders := {[ "F1" := LastPage (Some [photoA]); "F2" := LastPage None ]};
     media := {[ "idA" := MediaOk "AAAA" ]};
     metadata := {[ "idA" := (Some "Buddy One.JPG", Some "image/jpeg") ]} |}.

Definition pathA : string :=
  "images/puppies/bouviers/current/Buddy_One_0448678023.jpg".

Definition repoPathA : string := "assets/available-photos/idA.jpg".

(** A folder with two photos changed within the last 90 days before the
    clock's first reading and one changed long before. *)
Definition pR1 : DriveFile :=
  file "idR1" "r1.jpg" "image/jpeg" "2024-09-01T00:00:00.000Z".
Definition pR2 : DriveFile :=
  file "idR2" "r2.jpg" "image/jpeg" "2024-10-20T00:00:00.000Z".

Definition drive6 : Drive :=
  {| folders := {[ "F1" := LastPage (Some [pR1; pZ; pR2]) ]};
     media := {[ "idR1" := MediaOk "R1R1"; "idR2" := MediaOk "R2R2";
                 "idZ" := MediaOk "ZZZZ" ]};
     metadata := ∅ |}.

(** A photo whose listing entry carries no time. *)
Definition undated : DriveFile :=
  {| f_id := "idU"; f_name := Some "u.jpg"; f_mimeType := Some "image/jpeg";
     f_createdTime := None; f_modifiedTime := None |}.

Definition drive7 : Drive :=
  {| folders := {[ "F1" := LastPage (Some [pR1; undated]) ]};
     media := {[ "idR1" := MediaOk "R1R1"; "idU" := MediaOk "UUUU" ]};
     metadata := ∅ |}.

End Sample.

(** * Properties *)

(** ** The manifest *)

Lemma manifest_eq (m1 m2 : Manifest) :
  version m1 = version m2 → firstSeen m1 = firstSeen m2 → m1 = m2.
Proof. destruct m1, m2; simpl; intros; subst; reflexivity. Qed.

Lemma lookup2_store2_eq (m : Manifest) (k i v : string) :
  lookup2 (store2 m k i v) k i = Some v.
Proof.
  unfold lookup2, store2; simpl.
  rewrite lookup_insert_eq; simpl. apply lookup_insert_eq.
Qed.

Lemma lookup2_store2_ne (m : Manifest) (k i v k' i' : string) :
  (k, i) ≠ (k', i') →
  lookup2 (store2 m k i v) k' i' = lookup2 m k' i'.
Proof.
  intros Hne. unfold lookup2, store2; simpl.
  destruct (decide (k = k')) as [->|Hk].
  - rewrite lookup_insert_eq; simpl.
    rewrite lookup_insert_ne by congruence.
    destruct (firstSeen m !! k'); reflexivity.
  - rewrite lookup_insert_ne by assumption. reflexivity.
Qed.

Lemma lookup2_ensureBreed (m : Manifest) (k k' i : string) :
  lookup2 (ensureBreed m k) k' i = lookup2 m k' i.
Proof.
  unfold lookup2, ensureBreed; simpl.
  destruct (decide (k = k')) as [->|Hk].
  - rewrite lookup_insert_eq; simpl.
    destruct (firstSeen m !! k'); reflexivity.
  - rewrite lookup_insert_ne by assumption. reflexivity.
Qed.

Lemma ensureBreed_present (m : Manifest) (k : string) :
  is_Some (firstSeen m !! k) → ensureBreed m k = m.
Proof.
  intros [inner H]. apply manifest_eq; simpl; [reflexivity|].
  rewrite H; simpl. apply insert_id, H.
Qed.

Lemma ensureBreed_is_Some (m : Manifest) (k : string) :
  is_Some (firstSeen (ensureBreed m k) !! k).
Proof. unfold ensureBreed; simpl. rewrite lookup_insert_eq. eauto. Qed.

Lemma store2_is_Some (m : Manifest) (k i v k' : string) :
  is_Some (firstSeen m !! k') → is_Some (firstSeen (store2 m k i v) !! k').
Proof.
  intros H. unfold store2; simpl.
  destruct (decide (k = k')) as [->|Hk].
  - rewrite lookup_insert_eq. eauto.
  - rewrite lookup_insert_ne by assumption. exact H.
Qed.

(** What recordFirstSeen returns is the stored entry, and the entry is the
    old one when that was truthy, [runNowIso] otherwise. *)
Lemma recordFirstSeen_spec (m : Manifest) (k i now : string) :
  let '(m1, r) := recordFirstSeen m k i now in
  lookup2 m1 k i = Some r ∧
  (∀ v, lookup2 m k i = Some v → JS.truthy v = true → m1 = m ∧ r = v) ∧
  (JS.truthy_opt (lookup2 m k i) = false → m1 = store2 m k i now ∧ r = now).
Proof.
  unfold recordFirstSeen.
  destruct (JS.truthy_opt (lookup2 m k i)) eqn:Ht; simpl.
  - destruct (lookup2 m k i) as [v|] eqn:Hl; simpl in *; [|discriminate].
    split; [reflexivity|]. split; [|discriminate].
    intros v' Hv _. split; congruence.
  - rewrite lookup2_store2_eq; simpl.
    split; [reflexivity|]. split; [|intros _; split; reflexivity].
    intros v Hv Htv. rewrite Hv in Ht. simpl in Ht. congruence.
Qed.

Lemma grows_refl (m : Manifest) : grows m m.
Proof. repeat split; auto. Qed.

Lemma grows_trans (m1 m2 m3 : Manifest) :
  grows m1 m2 → grows m2 m3 → grows m1 m3.
Proof.
  intros (A1 & B1 & C1) (A2 & B2 & C2). repeat split; auto.
Qed.

Lemma store2_lookup_is_Some (m : Manifest) (k i v ck id : string) :
  is_Some (lookup2 m ck id) → is_Some (lookup2 (store2 m k i v) ck id).
Proof.
  intros H. destruct (decide ((k, i) = (ck, id))) as [Heq|Hne].
  - injection Heq as -> ->. rewrite lookup2_store2_eq. eauto.
  - rewrite lookup2_store2_ne by assumption. exact H.
Qed.

Lemma ensureBreed_grows (m : Manifest) (k : string) : grows m (ensureBreed m k).
Proof.
  split; [|split].
  - intros ck H. unfold ensureBreed; simpl.
    destruct (decide (k = ck)) as [->|Hne].
    + rewrite lookup_insert_eq. eauto.
    + rewrite lookup_insert_ne by assumption. exact H.
  - intros ck id. now rewrite lookup2_ensureBreed.
  - intros ck id v. now rewrite lookup2_ensureBreed.
Qed.

(** A step of the loop never removes an entry and never changes an entry
    that holds a timestamp. *)
Lemma recordFirstSeen_grows (m : Manifest) (k i now : string) :
  grows m (fst (recordFirstSeen m k i now)).
Proof.
  unfold recordFirstSeen.
  destruct (JS.truthy_opt (lookup2 m k i)) eqn:Ht; simpl;
    [apply grows_refl|].
  split; [|split].
  - intros ck. apply store2_is_Some.
  - intros ck id. apply store2_lookup_is_Some.
  - intros ck id v Hv Htv.
    destruct (decide ((k, i) = (ck, id))) as [Heq|Hne].
    + injection Heq as -> ->. rewrite Hv in Ht. simpl in Ht. congruence.
    + rewrite lookup2_store2_ne by assumption. exact Hv.
Qed.

Lemma recordFirstSeen_is_Some (m : Manifest) (k i now : string) :
  is_Some (firstSeen m !! k) →
  is_Some (firstSeen (fst (recordFirstSeen m k i now)) !! k).
Proof. apply recordFirstSeen_grows. Qed.

(** Every touch makes the manifest grow. *)
Lemma touch_grows (m : Manifest) (collectionKey assetId now : string) :
  grows m (fst (touch m collectionKey assetId now)).
Proof.
  unfold touch. eapply grows_trans;
    [apply ensureBreed_grows | apply recordFirstSeen_grows].
Qed.

(** C1. touch is write-once: on a manifest where the pair is absent, touch
    with a timestamp [now1] (a non-empty string) stores [now1] and returns
    it; any later touch of the pair, with any [now2] and after any number of
    touches (on any manifest [m'] grown from the first result), returns
    [now1] and leaves the manifest as it is, so that the age computed from
    its result is the age since [now1]. *)
Theorem touch_write_once (m : Manifest)
    (collectionKey assetId now1 now2 : string) :
  JS.truthy now1 = true →
  lookup2 m collectionKey assetId = None →
  let '(m1, r1) := touch m collectionKey assetId now1 in
  r1 = now1 ∧ lookup2 m1 collectionKey assetId = Some now1 ∧
  ∀ m', grows m1 m' →
    touch m' collectionKey assetId now2 = (m', now1) ∧
    fst (classify (snd (touch m' collectionKey assetId now2)) now2
           DAYS_TO_KEEP_CURRENT)
    = daysBetweenIso now1 now2.
Proof.
  intros Hnow Habs. unfold touch at 1.
  pose proof (recordFirstSeen_spec (ensureBreed m collectionKey)
                collectionKey assetId now1) as H1.
  destruct (recordFirstSeen (ensureBreed m collectionKey)
              collectionKey assetId now1) as [m1 r1].
  destruct H1 as (Hl1 & _ & Hnew).
  rewrite lookup2_ensureBreed, Habs in Hnew.
  destruct (Hnew eq_refl) as [Hm1 ->]. clear Hnew.
  split; [reflexivity|]. split; [exact Hl1|].
  intros m' (Hcoll & _ & Hkeep).
  assert (Hs : is_Some (firstSeen m' !! collectionKey)).
  { apply Hcoll. rewrite Hm1. apply store2_is_Some, ensureBreed_is_Some. }
  assert (Ht : touch m' collectionKey assetId now2 = (m', now1)).
  { unfold touch. rewrite (ensureBreed_present m' collectionKey Hs).
    pose proof (recordFirstSeen_spec m' collectionKey assetId now2) as H2.
    destruct (recordFirstSeen m' collectionKey assetId now2) as [m2 r2].
    destruct H2 as (_ & Hold & _).
    destruct (Hold now1 (Hkeep _ _ _ Hl1 Hnow) Hnow) as [-> ->].
    reflexivity. }
  rewrite Ht. split; reflexivity.
Qed.

Lemma touch_write_once_witness :
  let '(m1, r1) := touch empty_manifest "bouviers" "idA"
                     "2024-01-01T00:00:00.000Z" in
  r1 = "2024-01-01T00:00:00.000Z" ∧
  lookup2 m1 "bouviers" "idA" = Some "2024-01-01T00:00:00.000Z" ∧
  ∀ m', grows m1 m' →
    touch m' "bouviers" "idA" "2024-06-01T00:00:00.000Z"
    = (m', "2024-01-01T00:00:00.000Z") ∧
    fst (classify (snd (touch m' "bouviers" "idA" "2024-06-01T00:00:00.000Z"))
           "2024-06-01T00:00:00.000Z" DAYS_TO_KEEP_CURRENT)
    = daysBetweenIso "2024-01-01T00:00:00.000Z" "2024-06-01T00:00:00.000Z".
Proof.
  apply (touch_write_once empty_manifest "bouviers" "idA"
           "2024-01-01T00:00:00.000Z" "2024-06-01T00:00:00.000Z");
    reflexivity.
Defined.

(** The second touch of the same run and a touch five months later, after
    another asset was recorded, both return the first timestamp. *)
Example touch_twice :
  let m1 := fst (touch empty_manifest "bouviers" "idA"
                   "2024-01-01T00:00:00.000Z") in
  let m2 := fst (touch m1 "bouviers" "idB" "2024-03-01T00:00:00.000Z") in
  snd (touch m1 "bouviers" "idA" "2024-01-02T00:00:00.000Z")
  = "2024-01-01T00:00:00.000Z" ∧
  snd (touch m2 "bouviers" "idA" "2024-06-01T00:00:00.000Z")
  = "2024-01-01T00:00:00.000Z" ∧
  snd (classify (snd (touch m2 "bouviers" "idA" "2024-06-01T00:00:00.000Z"))
         "2024-06-01T00:00:00.000Z" DAYS_TO_KEEP_CURRENT) = true.
Proof. cbv zeta. repeat split; vm_compute; reflexivity. Qed.

(** ** The classifier *)

(** C2. For timestamps [firstSeenAt <= now], classify returns the whole
    number of days in [now - firstSeenAt] (the floor of the quotient by the
    milliseconds of a day) and the archive flag is set exactly when that
    number is greater than the threshold: an age equal to the threshold is
    current, an age of the threshold plus one is archived. *)
Theorem classify_threshold (firstSeenAt now : string) (t0 t1 thresholdDays : Z) :
  Date.getTime firstSeenAt = Some t0 →
  Date.getTime now = Some t1 →
  t0 ≤ t1 →
  ∃ ageInDays : Z,
    classify firstSeenAt now thresholdDays
    = (Some ageInDays, bool_decide (thresholdDays < ageInDays)) ∧
    0 ≤ ageInDays ∧
    ageInDays * Date.MS_PER_DAY ≤ t1 - t0 < (ageInDays + 1) * Date.MS_PER_DAY ∧
    (ageInDays = thresholdDays →
     snd (classify firstSeenAt now thresholdDays) = false) ∧
    (ageInDays = thresholdDays + 1 →
     snd (classify firstSeenAt now thresholdDays) = true).
Proof.
  intros H0 H1 Hle.
  exists ((t1 - t0) / Date.MS_PER_DAY).
  assert (Hc : classify firstSeenAt now thresholdDays
               = (Some ((t1 - t0) / Date.MS_PER_DAY),
                  bool_decide (thresholdDays < (t1 - t0) / Date.MS_PER_DAY))).
  { unfold classify, daysBetweenIso. rewrite H0, H1. simpl.
    f_equal. unfold Date.MS_PER_DAY.
    destruct (Z.ltb_spec thresholdDays ((t1 - t0) / (1000 * 60 * 60 * 24)));
      [rewrite bool_decide_eq_true_2 | rewrite bool_decide_eq_false_2];
      auto; lia. }
  rewrite Hc. simpl.
  assert (Hpos : 0 < Date.MS_PER_DAY) by (unfold Date.MS_PER_DAY; lia).
  pose proof (Z.div_mod (t1 - t0) Date.MS_PER_DAY ltac:(lia)) as Hdm.
  pose proof (Z.mod_pos_bound (t1 - t0) Date.MS_PER_DAY Hpos) as Hmb.
  split; [reflexivity|].
  split; [apply Z.div_pos; lia|].
  split; [lia|].
  split; intros Heq.
  - apply bool_decide_eq_false_2. lia.
  - apply bool_decide_eq_true_2. lia.
Qed.

Lemma classify_threshold_witness :
  ∃ ageInDays : Z,
    classify "2024-01-01T00:00:00.000Z" "2024-04-01T12:00:00.000Z" 90
    = (Some ageInDays, bool_decide (90 < ageInDays)) ∧
    0 ≤ ageInDays ∧
    ageInDays * Date.MS_PER_DAY ≤ 1711972800000 - 1704067200000
      < (ageInDays + 1) * Date.MS_PER_DAY ∧
    (ageInDays = 90 →
     snd (classify "2024-01-01T00:00:00.000Z" "2024-04-01T12:00:00.000Z" 90)
     = false) ∧
    (ageInDays = 90 + 1 →
     snd (classify "2024-01-01T00:00:00.000Z" "2024-04-01T12:00:00.000Z" 90)
     = true).
Proof.
  apply (classify_threshold "2024-01-01T00:00:00.000Z"
           "2024-04-01T12:00:00.000Z" 1704067200000 1711972800000 90);
    [reflexivity | reflexivity | lia].
Defined.

(** The two boundary cases, at the threshold of the script. *)
Example at_threshold_is_current :
  classify "2024-01-01T00:00:00.000Z" "2024-03-31T23:59:59.999Z"
    DAYS_TO_KEEP_CURRENT = (Some 90, false).
Proof. reflexivity. Qed.

Example past_threshold_is_archived :
  classify "2024-01-01T00:00:00.000Z" "2024-04-01T00:00:00.000Z"
    DAYS_TO_KEEP_CURRENT = (Some 91, true).
Proof. reflexivity. Qed.

(** ** Loading the manifest *)

Lemma existsSync_eq (p : string) (w : World) :
  fs_existsSync p w
  = (Ok (match fs w !! p with Some _ => true | None => false end), w).
Proof.
  unfold fs_existsSync. destruct (fs w !! p) as [n|].
  - rewrite bool_decide_eq_true_2 by eauto. reflexivity.
  - rewrite bool_decide_eq_false_2 by (intros [? ?]; discriminate).
    reflexivity.
Qed.

(** What readManifest returns, by the state of the manifest file. *)
Lemma readManifest_result (w : World) :
  readManifest w
  = (Ok match fs w !! MANIFEST_PATH with
        | Some (File (Json doc)) => doc
        | _ => DManifest empty_manifest
        end, w).
Proof.
  unfold readManifest, try_catch, bind.
  rewrite existsSync_eq.
  unfold fs_readFileSync, JSON_parse, ret, throw.
  destruct (fs w !! MANIFEST_PATH) as [[[b|doc]|]|] eqn:E; simpl;
    rewrite ?E; reflexivity.
Qed.

(** A JSON document of another shape is not taken for an empty manifest: it
    is returned as it was parsed. *)
Example readManifest_other_document :
  fst (readManifest (Sample.world {[ MANIFEST_PATH := File (Json DOther) ]}))
  = Ok DOther.
Proof. reflexivity. Qed.

(** ** Fetching *)

(** downloadFile sends one content request, and writes the file when the
    request succeeds. *)
Lemma downloadFile_spec (drive : Drive) (fileId outPath : string) (w : World) :
  ∃ r w', downloadFile drive fileId outPath w = (r, w') ∧
    calls w' = (calls w ++ [CallMedia fileId])%list ∧
    manifestObj w' = manifestObj w ∧
    match media drive !! fileId with
    | Some (MediaOk bytes) =>
        r = Ok tt ∧ fs w' = <[outPath := File (Bytes bytes)]> (fs w)
    | _ => (∃ e, r = Throw e) ∧ fs w' = fs w
    end.
Proof.
  unfold downloadFile. run_monad.
  destruct (media drive !! fileId) as [[bytes|partial]|]; simpl;
    eexists; eexists; (split; [reflexivity|]); simpl; eauto 6.
Qed.

(** C4. Skip-if-exists.  In the photo sync, when something exists at
    [destinationPath] the step returns at once: no request is sent and the
    state, the disk included, is unchanged; when nothing exists there, one
    content request is sent and its bytes, if it succeeds, are written at
    [destinationPath].  In the stricter variant of the availability export,
    whose path comes from the file's metadata, a non-empty file at the path
    means that no content request is sent (only the metadata lookup) and the
    disk is unchanged; otherwise the content is requested and written. *)
Theorem skip_if_exists (drive : Drive) (assetId destinationPath : string)
    (w : World) :
  (is_Some (fs w !! destinationPath) →
   ensureMaterialized drive assetId destinationPath w = (Ok tt, w)) ∧
  (fs w !! destinationPath = None →
   ∃ r w', ensureMaterialized drive assetId destinationPath w = (r, w') ∧
     calls w' = (calls w ++ [CallMedia assetId])%list ∧
     match media drive !! assetId with
     | Some (MediaOk bytes) =>
         r = Ok tt ∧ fs w' = <[destinationPath := File (Bytes bytes)]> (fs w)
     | _ => (∃ e, r = Throw e) ∧ fs w' = fs w
     end) ∧
  (∀ destDir meta,
     metadata drive !! assetId = Some meta →
     destinationPath = Path.join destDir (fst (outNameFor assetId meta)) →
     ∃ r w', downloadDriveImageToRepo drive assetId destDir w = (r, w') ∧
       ((∃ n, fs w !! destinationPath = Some n ∧ 0 < size_of n) →
        (∃ d, r = Ok d ∧ outPath d = destinationPath) ∧
        fs w' = fs w ∧
        calls w' = (calls w ++ [CallMeta assetId])%list) ∧
       ((∀ n, fs w !! destinationPath = Some n → size_of n ≤ 0) →
        calls w' = (calls w ++ [CallMeta assetId; CallMedia assetId])%list ∧
        match media drive !! assetId with
        | Some (MediaOk bytes) =>
            (∃ d, r = Ok d ∧ outPath d = destinationPath) ∧
            fs w' = <[destinationPath := File (Bytes bytes)]> (fs w)
        | Some (MediaBroken partial) =>
            (∃ e, r = Throw e) ∧
            fs w' = <[destinationPath := File (Bytes partial)]> (fs w)
        | None => (∃ e, r = Throw e) ∧ fs w' = fs w
        end)).
Proof.
  split; [|split].
  - intros [n Hn]. unfold ensureMaterialized, bind.
    rewrite existsSync_eq, Hn. reflexivity.
  - intros Hn. unfold ensureMaterialized, bind.
    rewrite existsSync_eq, Hn. simpl.
    destruct (downloadFile_spec drive assetId destinationPath w)
      as (r & w' & Hd & Hc & _ & Hm).
    exists r, w'. auto.
  - intros destDir meta Hmeta ->.
    unfold downloadDriveImageToRepo. rewrite Hmeta.
    destruct (outNameFor assetId meta) as [oname oext]. simpl fst.
    set (p := Path.join destDir oname).
    unfold bind at 1 2. unfold ensureDir, ret at 1. unfold log_call at 1.
    unfold bind at 1. rewrite existsSync_eq. simpl fs.
    destruct (fs w !! p) as [n|] eqn:Hp.
    + unfold bind at 1. unfold fs_statSync_size. simpl fs. rewrite Hp.
      destruct (Z.ltb_spec 0 (size_of n)) as [Hpos|Hzero].
      * run_monad. eexists; eexists; split; [reflexivity|]. simpl.
        split.
        -- intros _. eauto.
        -- intros Hall. specialize (Hall n eq_refl). lia.
      * run_monad.
        destruct (media drive !! assetId) as [[bytes|partial]|]; simpl;
          (eexists; eexists; split; [reflexivity|]); simpl;
          (split; [intros (n' & Hn' & Hs); simplify_eq; lia|]);
          intros _; rewrite <- app_assoc; simpl; eauto 8.
    + run_monad.
      destruct (media drive !! assetId) as [[bytes|partial]|]; simpl;
        (eexists; eexists; split; [reflexivity|]); simpl;
        (split; [intros (n' & Hn' & Hs); discriminate|]);
        intros _; rewrite <- app_assoc; simpl; eauto 8.
Qed.

Lemma skip_if_exists_witness :
  let present := Sample.world {[ Sample.pathA := File (Bytes "old") ]} in
  let stored := Sample.world {[ Sample.repoPathA := File (Bytes "old") ]} in
  let empty := Sample.world {[ Sample.repoPathA := File (Bytes "") ]} in
  ensureMaterialized Sample.drive1 "idA" Sample.pathA present = (Ok tt, present)
  ∧ (∃ r w', ensureMaterialized Sample.drive1 "idA" Sample.pathA
               (Sample.world ∅) = (r, w') ∧
             calls w' = [CallMedia "idA"] ∧ r = Ok tt ∧
             fs w' = <[Sample.pathA := File (Bytes "AAAA")]> ∅)
  ∧ (∃ r w', downloadDriveImageToRepo Sample.drive1 "idA" repoImageDir stored
             = (r, w') ∧
             fs w' = fs stored ∧ calls w' = [CallMeta "idA"])
  ∧ (∃ r w', downloadDriveImageToRepo Sample.drive1 "idA" repoImageDir empty
             = (r, w') ∧
             calls w' = [CallMeta "idA"; CallMedia "idA"] ∧
             fs w' = <[Sample.repoPathA := File (Bytes "AAAA")]> (fs empty)).
Proof.
  intros present stored empty.
  split; [|split; [|split]].
  - apply (proj1 (skip_if_exists Sample.drive1 "idA" Sample.pathA present)).
    exists (File (Bytes "old")). reflexivity.
  - destruct (proj1 (proj2 (skip_if_exists Sample.drive1 "idA" Sample.pathA
                              (Sample.world ∅))) (lookup_empty _))
      as (r & w' & Hrun & Hcalls & Hok & Hfs).
    exists r, w'. auto.
  - destruct (proj2 (proj2 (skip_if_exists Sample.drive1 "idA"
                              Sample.repoPathA stored))
                repoImageDir (Some "Buddy One.JPG", Some "image/jpeg")
                eq_refl eq_refl)
      as (r & w' & Hrun & Hskip & _).
    destruct Hskip as (_ & Hfs & Hcalls).
    { exists (File (Bytes "old")). split; [reflexivity | simpl; lia]. }
    exists r, w'. auto.
  - destruct (proj2 (proj2 (skip_if_exists Sample.drive1 "idA"
                              Sample.repoPathA empty))
                repoImageDir (Some "Buddy One.JPG", Some "image/jpeg")
                eq_refl eq_refl)
      as (r & w' & Hrun & _ & Hfetch).
    destruct Hfetch as (Hcalls & _ & Hfs).
    { intros n Hn. vm_compute in Hn. injection Hn as <-. simpl. lia. }
    exists r, w'. auto.
Defined.

(** ** Naming *)

Lemma chars_app (s t : string) :
  JS.chars (s +:+ t) = (JS.chars s ++ JS.chars t)%list.
Proof.
  unfold JS.chars. induction s as [|c s IH]; simpl; [reflexivity|].
  now rewrite IH.
Qed.

Lemma chars_inj (s t : string) : JS.chars s = JS.chars t → s = t.
Proof.
  unfold JS.chars. intros H.
  rewrite <- (string_of_list_ascii_of_string s),
          <- (string_of_list_ascii_of_string t).
  now rewrite H.
Qed.

Lemma length_chars (s : string) : length (JS.chars s) = String.length s.
Proof.
  unfold JS.chars. induction s as [|c s IH]; simpl; [reflexivity|].
  now rewrite IH.
Qed.

Lemma string_length_app (s t : string) :
  String.length (s +:+ t) = (String.length s + String.length t)%nat.
Proof.
  rewrite <- !length_chars, chars_app. apply length_app.
Qed.

Lemma hex_length (k : nat) (x : Z) : String.length (Sha1.hex k x) = k.
Proof.
  revert x. induction k as [|k IH]; intros x; simpl; [reflexivity|].
  rewrite string_length_app, IH. simpl. lia.
Qed.

Lemma sha1_length (s : string) : String.length (sha1 s) = 40%nat.
Proof.
  unfold sha1, Sha1.sha1.
  destruct (Sha1.digest (Sha1.utf8 s)) as [[[[h0 h1] h2] h3] h4].
  rewrite !string_length_app, !hex_length. reflexivity.
Qed.

Lemma substring_length (n : nat) (s : string) :
  (n ≤ String.length s)%nat → String.length (String.substring 0 n s) = n.
Proof.
  revert s. induction n as [|n IH]; intros s Hn.
  - destruct s; reflexivity.
  - destruct s as [|c s]; simpl in *; [lia|].
    rewrite IH; [reflexivity | lia].
Qed.

Lemma fingerprint_length (id : string) :
  String.length (fingerprint id) = 10%nat.
Proof.
  unfold fingerprint, JS.slice0. apply substring_length.
  rewrite sha1_length. lia.
Qed.

(** The name syncBreed builds: a base, an underscore, the fingerprint of the
    id and the extension.  The base is the sanitised display name when that
    is not empty. *)
Lemma stableName_shape (d : option string) (id : string) (w : World) :
  ∃ base : string,
    fst (stableName d id w)
    = Ok (base +:+ "_" +:+ fingerprint id +:+ extOf d) ∧
    (JS.truthy (sanitize (Path.parse_name (JS.or_else d "photo"))) = true →
     base = sanitize (Path.parse_name (JS.or_else d "photo")) ∧
     snd (stableName d id w) = w).
Proof.
  unfold stableName, safeFilename, bind.
  destruct (JS.truthy (sanitize (Path.parse_name (JS.or_else d "photo"))));
    simpl; eexists; (split; [reflexivity|]); intros H;
    [split; reflexivity | discriminate].
Qed.

(** C3, as the code has it.  For a display name whose sanitised base is not
    empty, the name depends on the display name and the id only: any two
    calls, in any two states, give the same name.  And for one display name,
    two ids whose fingerprints (the first ten hexadecimal digits of their
    SHA-1 digests) differ never get the same name. *)
Theorem stableName_deterministic_and_distinct (d : option string)
    (id1 id2 : string) (w1 w2 : World) :
  (JS.truthy (sanitize (Path.parse_name (JS.or_else d "photo"))) = true →
   fst (stableName d id1 w1) = fst (stableName d id1 w2) ∧
   ∃ n, fst (stableName d id1 w1) = Ok n) ∧
  (fingerprint id1 ≠ fingerprint id2 →
   fst (stableName d id1 w1) ≠ fst (stableName d id2 w2)).
Proof.
  split.
  - intros Hbase.
    destruct (stableName_shape d id1 w1) as (b1 & H1 & Hb1).
    destruct (stableName_shape d id1 w2) as (b2 & H2 & Hb2).
    destruct (Hb1 Hbase) as [-> _]. destruct (Hb2 Hbase) as [-> _].
    rewrite H1, H2. eauto.
  - intros Hfp Heq.
    destruct (stableName_shape d id1 w1) as (b1 & H1 & _).
    destruct (stableName_shape d id2 w2) as (b2 & H2 & _).
    rewrite H1, H2 in Heq. injection Heq as Heq.
    apply (f_equal JS.chars) in Heq.
    rewrite !chars_app in Heq.
    rewrite (app_assoc (JS.chars b1)), (app_assoc (JS.chars b2)) in Heq.
    apply app_inj_2 in Heq as [_ Heq].
    + apply app_inv_tail in Heq. apply Hfp, chars_inj, Heq.
    + rewrite !length_app, !length_chars, !fingerprint_length. reflexivity.
Qed.

Lemma stableName_deterministic_and_distinct_witness :
  (fst (stableName (Some "Buddy One.JPG") "id1" (Sample.world ∅))
   = fst (stableName (Some "Buddy One.JPG") "id1" (Sample.later ∅)) ∧
   ∃ n, fst (stableName (Some "Buddy One.JPG") "id1" (Sample.world ∅)) = Ok n)
  ∧ fst (stableName (Some "Buddy One.JPG") "id1" (Sample.world ∅))
    ≠ fst (stableName (Some "Buddy One.JPG") "id2" (Sample.later ∅)).
Proof.
  split.
  - apply (proj1 (stableName_deterministic_and_distinct
                    (Some "Buddy One.JPG") "id1" "id2"
                    (Sample.world ∅) (Sample.later ∅))).
    reflexivity.
  - apply (proj2 (stableName_deterministic_and_distinct
                    (Some "Buddy One.JPG") "id1" "id2"
                    (Sample.world ∅) (Sample.later ∅))).
    vm_compute. discriminate.
Defined.

(** C3 as stated fails twice.  Two different ids with one display name get
    the same file name, because only ten digits of the digest are kept; and a
    display name without any allowed character gets a name made from the
    clock, so the same asset is named differently by a later run. *)
Lemma stableName_not_injective_nor_stable :
  Sample.idX ≠ Sample.idY ∧
  fst (stableName (Some "Buddy.jpg") Sample.idX (Sample.world ∅))
  = Ok "Buddy_4ab44ab424.jpg" ∧
  fst (stableName (Some "Buddy.jpg") Sample.idY (Sample.world ∅))
  = Ok "Buddy_4ab44ab424.jpg" ∧
  fst (stableName (Some "???.png") "idB" (Sample.world ∅))
  = Ok "photo_1730543655123.jpg_5450632543.png" ∧
  fst (stableName (Some "???.png") "idB" (Sample.later ∅))
  = Ok "photo_1730630055123.jpg_5450632543.png".
Proof.
  split; [discriminate|]. repeat split; vm_compute; reflexivity.
Qed.

(** ** Listing *)

(** *** The extension test

    The model of the regular expression /\.(jpe?g|png|webp)$/i agrees with
    its reading: the name, in lower case, ends with one of the four
    extensions. *)

Lemma chars_of_chars (l : list ascii) : JS.chars (JS.of_chars l) = l.
Proof. apply list_ascii_of_string_of_list_ascii. Qed.

Lemma of_chars_chars (s : string) : JS.of_chars (JS.chars s) = s.
Proof. apply string_of_list_ascii_of_string. Qed.

Lemma prefix_of_chars (p q : list ascii) :
  String.prefix (JS.of_chars p) (JS.of_chars q) = true
  ↔ take (length p) q = p.
Proof.
  revert q. induction p as [|a p IH]; intros q; simpl.
  - destruct q; split; reflexivity.
  - destruct q as [|b q]; simpl; [split; discriminate|].
    destruct (ascii_dec a b) as [->|Hne].
    + rewrite IH. split; [intros ->; reflexivity|].
      intros H. now injection H.
    + split; [discriminate|]. intros H. injection H as H _. congruence.
Qed.

Lemma lower_suffix_endsWith (name e : string) :
  String.eqb (JS.toLowerCase (JS.suffix (String.length e) name)) e = true
  ↔ JS.endsWith (JS.toLowerCase name) e = true.
Proof.
  rewrite String.eqb_eq. unfold JS.endsWith.
  rewrite prefix_of_chars, length_rev, length_chars.
  unfold JS.toLowerCase, JS.suffix. rewrite !chars_of_chars.
  rewrite List.map_rev, <- List.firstn_map, <- (List.map_rev _ (JS.chars name)).
  split.
  - intros H. apply (f_equal JS.chars) in H.
    rewrite chars_of_chars in H. rewrite <- H, rev_involutive.
    reflexivity.
  - intros H. rewrite H, rev_involutive. apply of_chars_chars.
Qed.

Lemma image_ext_match_spec (name : string) :
  is_Some (image_ext_match name) ↔ hasImageExtension name.
Proof.
  unfold hasImageExtension.
  pose proof (lower_suffix_endsWith name ".jpeg") as Hjpeg.
  pose proof (lower_suffix_endsWith name ".webp") as Hwebp.
  pose proof (lower_suffix_endsWith name ".jpg") as Hjpg.
  pose proof (lower_suffix_endsWith name ".png") as Hpng.
  simpl String.length in *.
  unfold image_ext_match. split.
  - intros H.
    destruct (String.eqb (JS.toLowerCase (JS.suffix 5 name)) ".jpeg") eqn:E1.
    { exists ".jpeg". split; [repeat constructor | apply Hjpeg; reflexivity]. }
    destruct (String.eqb (JS.toLowerCase (JS.suffix 5 name)) ".webp") eqn:E2.
    { exists ".webp". split; [repeat constructor | apply Hwebp; reflexivity]. }
    destruct (String.eqb (JS.toLowerCase (JS.suffix 4 name)) ".jpg") eqn:E3.
    { exists ".jpg". split; [repeat constructor | apply Hjpg; reflexivity]. }
    destruct (String.eqb (JS.toLowerCase (JS.suffix 4 name)) ".png") eqn:E4.
    { exists ".png". split; [repeat constructor | apply Hpng; reflexivity]. }
    destruct H as [x H]. discriminate.
  - intros (e & He & Hend).
    apply elem_of_cons in He as [->|He].
    { apply Hjpg in Hend. rewrite Hend.
      destruct (_ || _); simpl; eauto. }
    apply elem_of_cons in He as [->|He].
    { apply Hjpeg in Hend. rewrite Hend. simpl. eauto. }
    apply elem_of_cons in He as [->|He].
    { apply Hpng in Hend. rewrite Hend.
      destruct (_ || _); [eauto|]. rewrite orb_true_r. eauto. }
    apply elem_of_cons in He as [->|He].
    { apply Hwebp in Hend. rewrite Hend. rewrite orb_true_r. eauto. }
    apply elem_of_nil in He. destruct He.
Qed.

Lemma same_but_calls_refl (w : World) : same_but_calls w w.
Proof. repeat split. Qed.

Lemma same_but_calls_trans (w1 w2 w3 : World) :
  same_but_calls w1 w2 → same_but_calls w2 w3 → same_but_calls w1 w3.
Proof. unfold same_but_calls. intuition congruence. Qed.

Lemma listPages_spec (folderId : string) (answers : Listing) :
  ∀ (pageToken : option string) (files : list DriveFile) (w : World),
  ∃ r w', listPages folderId pageToken answers files w = (r, w') ∧
    same_but_calls w w' ∧
    if answered answers
    then r = Ok (files ++ List.filter isImage (listed answers))%list
    else ∃ e, r = Throw e.
Proof.
  induction answers as [e|fs|fs tok rest IH]; intros pageToken files w;
    simpl; run_monad.
  - eexists; eexists; split; [reflexivity|]. split; [repeat split|eauto].
  - eexists; eexists; split; [reflexivity|]. split; [repeat split|eauto].
  - destruct (JS.truthy tok).
    + match goal with
      | |- context [listPages _ ?t _ ?fl ?w0] =>
          destruct (IH t fl w0) as (r & w' & Hrun & Hsame & Hres)
      end.
      exists r, w'. split; [exact Hrun|]. split.
      * destruct Hsame as (? & ? & ? & ? & ?). repeat split; assumption.
      * destruct (answered rest); [|exact Hres].
        rewrite Hres, List.filter_app, app_assoc. reflexivity.
    + eexists; eexists; split; [reflexivity|]. split; [repeat split|].
      rewrite app_nil_r. reflexivity.
Qed.

Lemma insert_file_perm (x : DriveFile) (l : list DriveFile) :
  insert_file x l ≡ₚ x :: l.
Proof.
  induction l as [|y l IH]; simpl; [reflexivity|].
  destruct (stays_before x y); [reflexivity|].
  rewrite IH. apply Permutation_swap.
Qed.

Lemma sortFiles_perm (l : list DriveFile) : sortFiles l ≡ₚ l.
Proof.
  induction l as [|x l IH]; simpl; [reflexivity|].
  rewrite insert_file_perm, IH. reflexivity.
Qed.

(** listFilesInFolder returns the image files of the pages, sorted, when
    every request is answered, and throws otherwise; it changes nothing but
    the log of requests. *)
Lemma listFilesInFolder_spec (drive : Drive) (folderId : string) (w : World) :
  ∃ r w', listFilesInFolder drive folderId w = (r, w') ∧
    same_but_calls w w' ∧
    let answers :=
      default (ListFails "File not found") (folders drive !! folderId) in
    if answered answers
    then r = Ok (sortFiles (List.filter isImage (listed answers)))
    else ∃ e, r = Throw e.
Proof.
  unfold listFilesInFolder, bind.
  destruct (listPages_spec folderId
              (default (ListFails "File not found") (folders drive !! folderId))
              None [] w) as (r & w' & Hrun & Hsame & Hres).
  rewrite Hrun. simpl.
  destruct (answered _).
  - rewrite Hres. simpl. eexists; eexists. split; [reflexivity|]. auto.
  - destruct Hres as [e ->]. eexists; eexists. split; [reflexivity|]. eauto.
Qed.

(** C8, as the code has it.  The MIME type decides first: a file whose
    listing entry has no MIME type (or an empty one) is left out whatever its
    name.  A file with a MIME type is kept exactly when the type starts with
    "image/" or, failing that, the name ends in an image extension.  The
    listing returns exactly the files of the pages that pass this test. *)
Theorem lister_filter (drive : Drive) (folderId : string) (answers : Listing)
    (w : World) :
  folders drive !! folderId = Some answers →
  answered answers = true →
  ∃ files w',
    listFilesInFolder drive folderId w = (Ok files, w') ∧
    (∀ f, f ∈ files ↔ f ∈ listed answers ∧ isImage f = true) ∧
    (∀ f, isImage f = true ↔
          ∃ mimeType, f_mimeType f = Some mimeType ∧ mimeType ≠ "" ∧
            (JS.startsWith mimeType "image/" = true ∨
             hasImageExtension (JS.or_else (f_name f) ""))) ∧
    (∀ f, f_mimeType f = None → f ∉ files).
Proof.
  intros Hfolder Hans.
  destruct (listFilesInFolder_spec drive folderId w)
    as (r & w' & Hrun & _ & Hres).
  rewrite Hfolder in Hres. simpl in Hres. rewrite Hans in Hres. subst r.
  assert (Hmem : ∀ f, f ∈ sortFiles (List.filter isImage (listed answers))
                      ↔ f ∈ listed answers ∧ isImage f = true).
  { intros f. rewrite sortFiles_perm.
    rewrite !list_elem_of_In, List.filter_In. reflexivity. }
  assert (Hchar : ∀ f, isImage f = true ↔
          ∃ mimeType, f_mimeType f = Some mimeType ∧ mimeType ≠ "" ∧
            (JS.startsWith mimeType "image/" = true ∨
             hasImageExtension (JS.or_else (f_name f) ""))).
  { intros f. setoid_rewrite <- image_ext_match_spec. unfold isImage.
    destruct (f_mimeType f) as [mt|].
    - destruct mt as [|c mt]; simpl JS.truthy; simpl negb; cbv iota.
      + split; [discriminate|]. intros (m' & Hm & Hne & _). congruence.
      + rewrite orb_true_iff, bool_decide_eq_true.
        split.
        * intros H. exists (String c mt). repeat split; [discriminate|exact H].
        * intros (m' & Hm & _ & H). injection Hm as <-. exact H.
    - split; [discriminate|]. intros (m' & Hm & _). discriminate. }
  eexists; eexists. split; [exact Hrun|]. split; [exact Hmem|].
  split; [exact Hchar|].
  intros f Hnone Hin. apply Hmem in Hin as [_ Himg].
  unfold isImage in Himg. rewrite Hnone in Himg. discriminate.
Qed.

Lemma lister_filter_witness :
  ∃ files w',
    listFilesInFolder Sample.drive2 "F1" (Sample.world ∅) = (Ok files, w') ∧
    (∀ f, f ∈ files ↔
          f ∈ [Sample.untyped; Sample.notes; Sample.generic] ∧
          isImage f = true) ∧
    (∀ f, isImage f = true ↔
          ∃ mimeType, f_mimeType f = Some mimeType ∧ mimeType ≠ "" ∧
            (JS.startsWith mimeType "image/" = true ∨
             hasImageExtension (JS.or_else (f_name f) ""))) ∧
    (∀ f, f_mimeType f = None → f ∉ files).
Proof.
  exact (lister_filter Sample.drive2 "F1"
           (MorePages (Some [Sample.untyped; Sample.notes]) "t1"
              (LastPage (Some [Sample.generic])))
           (Sample.world ∅) eq_refl eq_refl).
Defined.

(** C8 as stated fails: a photo named x.jpg whose listing entry has no MIME
    type is not returned by the listing. *)
Lemma untyped_image_is_skipped :
  f_mimeType Sample.untyped = None ∧
  hasImageExtension (JS.or_else (f_name Sample.untyped) "") ∧
  Sample.untyped ∈ listed (MorePages (Some [Sample.untyped; Sample.notes]) "t1"
                             (LastPage (Some [Sample.generic]))) ∧
  fst (listFilesInFolder Sample.drive2 "F1" (Sample.world ∅))
  = Ok [Sample.generic].
Proof.
  split; [reflexivity|].
  split; [exists ".jpg"; split; [repeat constructor | reflexivity]|].
  split; [left|]. vm_compute. reflexivity.
Qed.

(** ** The loop of syncBreed *)

(** On the manifest object, once the collection has its map, the step of the
    loop is recordFirstSeen and does not throw. *)
Lemma recordFirstSeenM_ok (k i now : string) (w : World) (m : Manifest) :
  manifestObj w = DManifest m →
  is_Some (firstSeen m !! k) →
  ∃ w', recordFirstSeenM k i now w = (Ok (snd (recordFirstSeen m k i now)), w')
        ∧ manifestObj w' = DManifest (fst (recordFirstSeen m k i now))
        ∧ fs w' = fs w ∧ calls w' = calls w.
Proof.
  intros Hm [inner Hin]. unfold recordFirstSeenM. run_monad.
  rewrite Hm, Hin.
  destruct (recordFirstSeen m k i now) as [m1 r]. simpl.
  eexists. split; [reflexivity|]. simpl. auto.
Qed.

(** In the loop of syncBreed, where the collection has its map since line
    116, the step is the touch operation. *)
Lemma loop_step_is_touch (k i now : string) (w : World) (m : Manifest) :
  manifestObj w = DManifest m →
  is_Some (firstSeen m !! k) →
  ∃ w', recordFirstSeenM k i now w = (Ok (snd (touch m k i now)), w')
        ∧ manifestObj w' = DManifest (fst (touch m k i now)).
Proof.
  intros Hm Hk. unfold touch. rewrite (ensureBreed_present m k Hk).
  destruct (recordFirstSeenM_ok k i now w m Hm Hk) as (w' & H & Hm' & _).
  eauto.
Qed.

Lemma stableName_frame (d : option string) (id : string) (w : World) :
  ∃ base w', stableName d id w
             = (Ok (base +:+ "_" +:+ fingerprint id +:+ extOf d), w') ∧
    fs w' = fs w ∧ manifestObj w' = manifestObj w ∧ calls w' = calls w.
Proof.
  unfold stableName, safeFilename, bind.
  destruct (JS.truthy (sanitize (Path.parse_name (JS.or_else d "photo"))));
    simpl; eexists; eexists; (split; [reflexivity|]); simpl; auto.
Qed.

Lemma ensureMaterialized_manifest (drive : Drive) (id p : string) (w : World) :
  ∃ r w', ensureMaterialized drive id p w = (r, w') ∧
          manifestObj w' = manifestObj w.
Proof.
  unfold ensureMaterialized, bind. rewrite existsSync_eq.
  destruct (fs w !! p); simpl.
  - eexists; eexists; split; reflexivity.
  - destruct (downloadFile_spec drive id p w) as (r & w' & Hd & _ & Hm & _).
    eauto.
Qed.

Lemma loopBody_spec (drive : Drive)
    (breedKey runNowIso currentDir archiveDir : string)
    (cur : list Item) (n : Z) (f : DriveFile) (w : World) (m : Manifest) :
  manifestObj w = DManifest m →
  is_Some (firstSeen m !! breedKey) →
  ∃ r w',
    loopBody drive breedKey runNowIso currentDir archiveDir (cur, n) f w
    = (r, w') ∧
    manifestObj w'
    = DManifest (fst (recordFirstSeen m breedKey (f_id f) runNowIso)) ∧
    ∀ cur' n', r = Ok (cur', n') →
      (cur' = cur ∧ n' = n + 1) ∨
      (∃ it, cur' = (cur ++ [it])%list ∧ n' = n ∧ item_of it f).
Proof.
  intros Hm Hk. unfold loopBody.
  destruct (recordFirstSeenM_ok breedKey (f_id f) runNowIso w m Hm Hk)
    as (w1 & H1 & Hm1 & _).
  unfold bind at 1. rewrite H1.
  destruct (classify (snd (recordFirstSeen m breedKey (f_id f) runNowIso))
              runNowIso DAYS_TO_KEEP_CURRENT) as [age isArchive].
  destruct (stableName_frame (f_name f) (f_id f) w1)
    as (base & w2 & H2 & _ & Hm2 & _).
  unfold bind at 1. rewrite H2.
  match goal with
  | |- context [ensureMaterialized drive (f_id f) ?p] =>
      destruct (ensureMaterialized_manifest drive (f_id f) p w2)
        as (r3 & w3 & H3 & Hm3)
  end.
  unfold bind at 1. rewrite H3.
  destruct r3 as [[]|e].
  - destruct isArchive; unfold ret;
      (eexists; eexists; split; [reflexivity|]);
      (split; [congruence|]); intros cur' n' Heq; injection Heq as <- <-.
    + left. auto.
    + right. eexists. split; [reflexivity|]. split; [reflexivity|].
      split; [reflexivity|]. simpl. eauto.
  - eexists; eexists; split; [reflexivity|].
    split; [congruence|]. intros cur' n' Heq. discriminate.
Qed.

(** The loop: when it ends normally, the items appended to [current] are the
    items of a sublist of the files, in the order of the files, and the
    archive counter has grown by the number of the other files. *)
Lemma loop_spec (drive : Drive)
    (breedKey runNowIso currentDir archiveDir : string)
    (files : list DriveFile) :
  ∀ (cur : list Item) (n : Z) (w : World) (m : Manifest),
  manifestObj w = DManifest m →
  is_Some (firstSeen m !! breedKey) →
  ∃ r w' m',
    forOf (loopBody drive breedKey runNowIso currentDir archiveDir)
      (cur, n) files w = (r, w') ∧
    manifestObj w' = DManifest m' ∧ grows m m' ∧
    ∀ cur' n', r = Ok (cur', n') →
      ∃ kept items,
        kept `sublist_of` files ∧ Forall2 item_of items kept ∧
        cur' = (cur ++ items)%list ∧
        n' = n + Z.of_nat (length files) - Z.of_nat (length kept).
Proof.
  induction files as [|f files IH]; intros cur n w m Hm Hk; cbn [forOf].
  - exists (Ok (cur, n)), w, m. split; [reflexivity|].
    split; [exact Hm|]. split; [apply grows_refl|].
    intros cur' n' Heq. injection Heq as <- <-.
    exists [], []. split; [constructor|]. split; [constructor|].
    split; [now rewrite app_nil_r | simpl; lia].
  - destruct (loopBody_spec drive breedKey runNowIso currentDir archiveDir
                cur n f w m Hm Hk) as (r1 & w1 & H1 & Hm1 & Hres1).
    unfold bind. rewrite H1.
    destruct r1 as [[cur1 n1]|e].
    + destruct (IH cur1 n1 w1 _ Hm1
                  (recordFirstSeen_is_Some m breedKey (f_id f) runNowIso Hk))
        as (r & w' & m' & Hrun & Hm' & Hg & Hres).
      exists r, w', m'. split; [exact Hrun|]. split; [exact Hm'|].
      split; [eapply grows_trans; [apply recordFirstSeen_grows|exact Hg]|].
      intros cur' n' Heq.
      destruct (Hres cur' n' Heq) as (kept & items & Hsub & Hfa & -> & ->).
      destruct (Hres1 cur1 n1 eq_refl) as [[-> ->]|(it & -> & -> & Hit)].
      * exists kept, items. split; [now apply sublist_cons|].
        split; [exact Hfa|]. split; [reflexivity|].
        simpl length. lia.
      * exists (f :: kept), (it :: items).
        split; [now apply sublist_skip|].
        split; [now constructor|].
        split; [now rewrite <- app_assoc|]. simpl length. lia.
    + eexists; eexists; eexists. split; [reflexivity|].
      split; [exact Hm1|]. split; [apply recordFirstSeen_grows|].
      intros cur' n' Heq. discriminate.
Qed.

(** ** syncBreed *)

Lemma syncBreed_spec (drive : Drive) (breedKey folderId runNowIso : string)
    (w : World) :
  ∃ r w', syncBreed drive breedKey folderId runNowIso w = (r, w') ∧
    match manifestObj w with
    | DManifest m => ∃ m', manifestObj w' = DManifest m' ∧ grows m m'
    | _ => ∃ e, r = Throw e
    end ∧
    (r = Ok tt →
     ∃ files w1 kept items,
       listFilesInFolder drive folderId w = (Ok files, w1) ∧
       kept `sublist_of` files ∧ Forall2 item_of items kept ∧
       fs w' !! summaryPath breedKey
       = Some (File (Json (DSummary
                 (summary_of breedKey runNowIso files kept items))))).
Proof.
  unfold syncBreed. unfold ensureDir. unfold bind at 1 2 3. unfold ret at 1 2 3.
  destruct (listFilesInFolder_spec drive folderId w)
    as (r1 & w1 & H1 & Hsame & _).
  destruct Hsame as (Hfs1 & Hm1 & _).
  unfold bind at 1. rewrite H1.
  destruct r1 as [files|e].
  2:{ eexists; eexists. split; [reflexivity|].
      split; [|discriminate].
      destruct (manifestObj w) eqn:E; eauto.
      exists m. split; [congruence | apply grows_refl]. }
  unfold bind at 1. unfold ensureBreedM, bind, get_manifestObj.
  rewrite Hm1.
  destruct (manifestObj w) as [m|sm|] eqn:E;
    try (unfold throw; eexists; eexists; split; [reflexivity|];
         split; [eauto | discriminate]).
  unfold set_manifestObj.
  match goal with
  | |- context [forOf ?body ?st files ?w0] =>
      destruct (loop_spec drive breedKey runNowIso
                  (Path.join (Path.join (Path.join "images" "puppies") breedKey)
                     "current")
                  (Path.join (Path.join (Path.join "images" "puppies") breedKey)
                     "archive")
                  files [] 0 w0 (ensureBreed m breedKey) eq_refl
                  (ensureBreed_is_Some m breedKey))
        as (r2 & w2 & m2 & H2 & Hm2 & Hg & Hres)
  end.
  rewrite H2.
  destruct r2 as [[cur n]|e].
  - destruct (Hres cur n eq_refl) as (kept & items & Hsub & Hfa & -> & ->).
    run_monad.
    eexists; eexists. split; [reflexivity|]. simpl.
    split.
    + exists m2. split; [exact Hm2|].
      eapply grows_trans; [apply ensureBreed_grows | exact Hg].
    + intros _. exists files, w1, kept, items.
      split; [reflexivity|]. split; [exact Hsub|]. split; [exact Hfa|].
      rewrite lookup_insert_eq. reflexivity.
  - eexists; eexists. split; [reflexivity|]. split; [|discriminate].
    exists m2. split; [exact Hm2|].
    eapply grows_trans; [apply ensureBreed_grows | exact Hg].
Qed.

(** C9. The summary a sync writes partitions the listed image files: every
    item of [current] is the item of one listed file, in the order of the
    listing, the other files are counted by [archiveCount], and so
    [length current + archiveCount] is the number of listed image files. *)
Theorem summary_partitions_listing (drive : Drive)
    (breedKey folderId runNowIso : string) (w w' : World) :
  syncBreed drive breedKey folderId runNowIso w = (Ok tt, w') →
  ∃ files w1 out kept,
    listFilesInFolder drive folderId w = (Ok files, w1) ∧
    fs w' !! summaryPath breedKey = Some (File (Json (DSummary out))) ∧
    kept `sublist_of` files ∧ Forall2 item_of (current out) kept ∧
    archiveCount out = Z.of_nat (length files) - Z.of_nat (length kept) ∧
    Z.of_nat (length (current out)) + archiveCount out
    = Z.of_nat (length files).
Proof.
  intros Hrun.
  destruct (syncBreed_spec drive breedKey folderId runNowIso w)
    as (r & w0 & Hrun' & _ & Hok).
  rewrite Hrun in Hrun'. injection Hrun' as <- <-.
  destruct (Hok eq_refl) as (files & w1 & kept & items & Hl & Hsub & Hfa & Hfs).
  exists files, w1, (summary_of breedKey runNowIso files kept items), kept.
  split; [exact Hl|]. split; [exact Hfs|]. split; [exact Hsub|].
  split; [exact Hfa|]. split; [reflexivity|]. simpl.
  rewrite (Forall2_length _ _ _ Hfa). lia.
Qed.

Lemma pair_fst_snd {A B : Type} (p : A * B) (a : A) :
  fst p = a → p = (a, snd p).
Proof. destruct p; simpl; intros ->; reflexivity. Qed.

Lemma summary_partitions_listing_witness :
  ∃ files w1 out kept,
    listFilesInFolder Sample.drive3 "F1" (Sample.ready Sample.manifest3 ∅)
    = (Ok files, w1) ∧
    fs (snd (syncBreed Sample.drive3 "bouviers" "F1" Sample.runNow
               (Sample.ready Sample.manifest3 ∅)))
      !! summaryPath "bouviers" = Some (File (Json (DSummary out))) ∧
    kept `sublist_of` files ∧ Forall2 item_of (current out) kept ∧
    archiveCount out = Z.of_nat (length files) - Z.of_nat (length kept) ∧
    Z.of_nat (length (current out)) + archiveCount out
    = Z.of_nat (length files).
Proof.
  apply (summary_partitions_listing Sample.drive3 "bouviers" "F1"
           Sample.runNow (Sample.ready Sample.manifest3 ∅)).
  apply pair_fst_snd. vm_compute. reflexivity.
Defined.

Example summary_of_sample :
  ∃ out,
    fs (snd (syncBreed Sample.drive3 "bouviers" "F1" Sample.runNow
               (Sample.ready Sample.manifest3 ∅)))
      !! summaryPath "bouviers" = Some (File (Json (DSummary out))) ∧
    map driveName (current out) = [Some "x.jpg"; Some "y.jpg"; Some "z.jpg"] ∧
    archiveCount out = 1.
Proof. eexists. split; [vm_compute; reflexivity|]. split; reflexivity. Qed.

(** ** The order of the listing and of the summary *)

Lemma stays_before_iff (a b : DriveFile) (ta tb : Z) :
  fileTime a = Some ta → fileTime b = Some tb →
  (stays_before a b = true ↔ tb ≤ ta).
Proof.
  intros Ha Hb. unfold stays_before, compareFiles. rewrite Ha, Hb. simpl.
  rewrite negb_true_iff, Z.ltb_ge. lia.
Qed.

Lemma newer_or_same_trans (a b c : DriveFile) :
  newer_or_same a b → newer_or_same b c → newer_or_same a c.
Proof.
  intros (ta & tb & Ha & Hb & Hab) (tb' & tc & Hb' & Hc & Hbc).
  exists ta, tc. repeat split; try assumption.
  rewrite Hb in Hb'. injection Hb' as <-. lia.
Qed.

Lemma insert_file_sorted (x : DriveFile) (l : list DriveFile) :
  is_Some (fileTime x) →
  Forall (fun f => is_Some (fileTime f)) l →
  StronglySorted newer_or_same l →
  StronglySorted newer_or_same (insert_file x l).
Proof.
  intros [tx Hx] Hvalid Hsorted.
  induction l as [|y l IH]; simpl.
  - repeat constructor.
  - apply Forall_cons in Hvalid as [[ty Hy] Hvalid].
    apply StronglySorted_inv in Hsorted as [Hsl Hyl].
    destruct (stays_before x y) eqn:Hxy.
    + assert (Rxy : newer_or_same x y).
      { exists tx, ty. repeat split; try assumption.
        now apply (stays_before_iff x y tx ty Hx Hy). }
      constructor; [constructor; assumption|].
      constructor; [exact Rxy|].
      eapply Forall_impl; [exact Hyl|].
      intros z Hz. eapply newer_or_same_trans; eassumption.
    + assert (Ryx : newer_or_same y x).
      { exists ty, tx. repeat split; try assumption.
        destruct (Z.le_gt_cases ty tx) as [Hle|Hgt]; [|lia].
        apply (stays_before_iff x y tx ty Hx Hy) in Hle. congruence. }
      constructor; [now apply IH|].
      rewrite insert_file_perm. constructor; assumption.
Qed.

(** With valid times the listing is sorted, newest first. *)
Lemma sortFiles_sorted (l : list DriveFile) :
  Forall (fun f => is_Some (fileTime f)) l →
  StronglySorted newer_or_same (sortFiles l).
Proof.
  induction l as [|x l IH]; intros Hvalid; simpl; [constructor|].
  apply Forall_cons in Hvalid as [Hx Hvalid].
  apply insert_file_sorted; [exact Hx| |now apply IH].
  now rewrite sortFiles_perm.
Qed.

Lemma insert_file_filter (P : DriveFile → bool) (x : DriveFile)
    (l : list DriveFile) :
  (∀ y, P x = true → P y = true → stays_before x y = true) →
  List.filter P (insert_file x l)
  = if P x then x :: List.filter P l else List.filter P l.
Proof.
  intros HP. induction l as [|y l IH]; simpl; [reflexivity|].
  destruct (stays_before x y) eqn:Hxy; simpl; [reflexivity|].
  rewrite IH.
  destruct (P x) eqn:Px, (P y) eqn:Py; try reflexivity.
  rewrite (HP y eq_refl Py) in Hxy. discriminate.
Qed.

(** The sort is stable: files that have the same time stay in the order of
    the pages. *)
Lemma sortFiles_stable (t : Z) (l : list DriveFile) :
  List.filter (at_time t) (sortFiles l) = List.filter (at_time t) l.
Proof.
  induction l as [|x l IH]; simpl; [reflexivity|].
  rewrite insert_file_filter, IH; [reflexivity|].
  intros y Hx Hy. unfold at_time in *.
  apply bool_decide_eq_true in Hx, Hy.
  apply (stays_before_iff x y t t Hx Hy). lia.
Qed.

Lemma StronglySorted_sublist {A} (R : A → A → Prop) (k l : list A) :
  k `sublist_of` l → StronglySorted R l → StronglySorted R k.
Proof.
  induction 1 as [|x k l Hsub IH|x k l Hsub IH]; intros Hs.
  - constructor.
  - apply StronglySorted_inv in Hs as [Hs Hx].
    constructor; [now apply IH|].
    rewrite Forall_forall in *. intros y Hy. apply Hx.
    eapply elem_of_sublist; eassumption.
  - apply StronglySorted_inv in Hs as [Hs _]. now apply IH.
Qed.

(** C7, as the code has it.  The items of [current] follow the order of the
    listing, and the listing is sorted by the Drive time of the file
    ([modifiedTime], else [createdTime]), newest first, by a stable sort:
    files with the same time stay in the order of the pages.  First-seen
    times and asset ids play no part in the order. *)
Theorem current_order (drive : Drive) (breedKey folderId runNowIso : string)
    (answers : Listing) (w w' : World) :
  folders drive !! folderId = Some answers →
  Forall (fun f => is_Some (fileTime f)) (List.filter isImage (listed answers)) →
  syncBreed drive breedKey folderId runNowIso w = (Ok tt, w') →
  ∃ out kept,
    fs w' !! summaryPath breedKey = Some (File (Json (DSummary out))) ∧
    Forall2 item_of (current out) kept ∧
    kept `sublist_of` sortFiles (List.filter isImage (listed answers)) ∧
    StronglySorted newer_or_same kept ∧
    ∀ t, List.filter (at_time t)
           (sortFiles (List.filter isImage (listed answers)))
         = List.filter (at_time t) (List.filter isImage (listed answers)).
Proof.
  intros Hfolder Hvalid Hrun.
  destruct (syncBreed_spec drive breedKey folderId runNowIso w)
    as (r0 & w0 & Hrun' & _ & Hok).
  rewrite Hrun in Hrun'. injection Hrun' as <- <-.
  destruct (Hok eq_refl) as (files & w1 & kept & items & Hl & Hsub & Hfa & Hfs).
  set (out := summary_of breedKey runNowIso files kept items) in Hfs.
  change items with (current out) in Hfa.
  destruct (listFilesInFolder_spec drive folderId w)
    as (r & w2 & Hl' & _ & Hres).
  rewrite Hl in Hl'. injection Hl' as <- <-.
  rewrite Hfolder in Hres. simpl in Hres.
  destruct (answered answers); [|destruct Hres; discriminate].
  injection Hres as ->.
  exists out, kept. split; [exact Hfs|]. split; [exact Hfa|].
  split; [exact Hsub|]. split.
  - eapply StronglySorted_sublist; [exact Hsub|].
    now apply sortFiles_sorted.
  - intros t. apply sortFiles_stable.
Qed.

Lemma current_order_witness :
  ∃ out kept,
    fs (snd (syncBreed Sample.drive3 "bouviers" "F1" Sample.runNow
               (Sample.ready Sample.manifest3 ∅)))
      !! summaryPath "bouviers" = Some (File (Json (DSummary out))) ∧
    Forall2 item_of (current out) kept ∧
    kept `sublist_of`
      sortFiles (List.filter isImage
                   [Sample.pZ; Sample.pW; Sample.pX; Sample.pY]) ∧
    StronglySorted newer_or_same kept ∧
    ∀ t, List.filter (at_time t)
           (sortFiles (List.filter isImage
                         [Sample.pZ; Sample.pW; Sample.pX; Sample.pY]))
         = List.filter (at_time t)
             (List.filter isImage
                [Sample.pZ; Sample.pW; Sample.pX; Sample.pY]).
Proof.
  apply (current_order Sample.drive3 "bouviers" "F1" Sample.runNow
           (LastPage (Some [Sample.pZ; Sample.pW; Sample.pX; Sample.pY]))
           (Sample.ready Sample.manifest3 ∅)).
  - reflexivity.
  - repeat (constructor; [eexists; reflexivity|]). constructor.
  - apply pair_fst_snd. vm_compute. reflexivity.
Defined.

(** C7 as stated fails: the three current items of the sample are written in
    the order x, y, z of the Drive times of their files, and their first-seen
    times, 2 October, 1 October and 3 October, are in neither ascending nor
    descending order. *)
Lemma current_not_sorted_by_first_seen :
  ∃ out,
    fs (snd (syncBreed Sample.drive3 "bouviers" "F1" Sample.runNow
               (Sample.ready Sample.manifest3 ∅)))
      !! summaryPath "bouviers" = Some (File (Json (DSummary out))) ∧
    map driveName (current out) = [Some "x.jpg"; Some "y.jpg"; Some "z.jpg"] ∧
    map item_firstSeen (current out)
    = ["2024-10-02T00:00:00.000Z"; "2024-10-01T00:00:00.000Z";
       "2024-10-03T00:00:00.000Z"] ∧
    ¬ Sorted firstSeen_le (current out) ∧
    ¬ Sorted (flip firstSeen_le) (current out).
Proof.
  eexists. split; [vm_compute; reflexivity|].
  split; [reflexivity|]. split; [reflexivity|]. simpl current.
  split; intros Hs.
  - apply Sorted_inv in Hs as [_ Hhd]. apply HdRel_inv in Hhd.
    destruct Hhd as (ta & tb & Ha & Hb & Hle).
    vm_compute in Ha, Hb. injection Ha as <-. injection Hb as <-. lia.
  - apply Sorted_inv in Hs as [Hs _].
    apply Sorted_inv in Hs as [_ Hhd]. apply HdRel_inv in Hhd.
    destruct Hhd as (ta & tb & Ha & Hb & Hle).
    vm_compute in Ha, Hb. injection Ha as <-. injection Hb as <-. lia.
Qed.

(** ** A whole run *)

Lemma nowIso_spec (w : World) :
  ∃ w', nowIso w = (Ok (Date.toISOString (clock w (reads w))), w') ∧
        fs w' = fs w.
Proof. unfold nowIso, Date_now, bind, ret. simpl. eauto. Qed.

Lemma readManifest_same_fs (w1 w2 : World) :
  fs w1 = fs w2 → fst (readManifest w1) = fst (readManifest w2).
Proof.
  intros Hfs. rewrite !readManifest_result, Hfs. reflexivity.
Qed.

(** C10. The manifest only grows.  When a run ends normally, the manifest it
    writes has every collection and every (collection, asset) entry of the
    manifest it loaded, whether or not the asset is still listed, and every
    entry that held a timestamp (a non-empty string) holds the same value. *)
Theorem manifest_only_grows (env : Env) (remote : Drive) (w w' : World) :
  main env remote w = (Ok tt, w') →
  ∃ loaded persisted : Manifest,
    fst (readManifest w) = Ok (DManifest loaded) ∧
    fs w' !! MANIFEST_PATH = Some (File (Json (DManifest persisted))) ∧
    (∀ collectionKey,
       is_Some (firstSeen loaded !! collectionKey) →
       is_Some (firstSeen persisted !! collectionKey)) ∧
    (∀ collectionKey assetId,
       is_Some (lookup2 loaded collectionKey assetId) →
       is_Some (lookup2 persisted collectionKey assetId)) ∧
    (∀ collectionKey assetId v,
       lookup2 loaded collectionKey assetId = Some v →
       JS.truthy v = true →
       lookup2 persisted collectionKey assetId = Some v).
Proof.
  unfold main, getDriveClient. intros Hrun.
  destruct (negb (JS.truthy_opt (GDRIVE_SERVICE_ACCOUNT_JSON env)));
    [discriminate|].
  unfold bind at 1 in Hrun. unfold ret at 1 in Hrun. cbv beta iota in Hrun.
  destruct (negb (JS.truthy_opt (GDRIVE_BOUVIERS_FOLDER_ID env))
            || negb (JS.truthy_opt (GDRIVE_LOWCHEN_FOLDER_ID env)));
    [discriminate|].
  destruct (nowIso_spec w) as (w1 & Hnow & Hfs1).
  unfold bind at 1 in Hrun. rewrite Hnow in Hrun.
  pose proof (readManifest_result w1) as Hread.
  set (d := match fs w1 !! MANIFEST_PATH with
            | Some (File (Json doc)) => doc
            | _ => DManifest empty_manifest
            end) in Hread.
  clearbody d.
  pose proof (readManifest_same_fs w1 w Hfs1) as Hsame.
  rewrite Hread in Hsame. simpl in Hsame.
  unfold bind at 1 in Hrun. rewrite Hread in Hrun.
  unfold bind at 1 in Hrun. unfold set_manifestObj at 1 in Hrun.
  cbv beta iota in Hrun.
  unfold bind at 1 in Hrun.
  match type of Hrun with
  | context [syncBreed remote "bouviers" ?fid ?now ?w0] =>
      destruct (syncBreed_spec remote "bouviers" fid now w0)
        as (r2 & w2 & H2 & Hm2 & _)
  end.
  rewrite H2 in Hrun. simpl manifestObj in Hm2.
  destruct d as [loaded| |];
    try (destruct Hm2 as [e ->]; discriminate).
  destruct Hm2 as (m2 & Hm2 & Hg2).
  destruct r2 as [[]|e]; [|discriminate].
  unfold bind at 1 in Hrun.
  match type of Hrun with
  | context [syncBreed remote "lowchen" ?fid ?now ?w0] =>
      destruct (syncBreed_spec remote "lowchen" fid now w0)
        as (r3 & w3 & H3 & Hm3 & _)
  end.
  rewrite H3 in Hrun. rewrite Hm2 in Hm3.
  destruct Hm3 as (m3 & Hm3 & Hg3).
  destruct r3 as [[]|e]; [|discriminate].
  unfold bind, get_manifestObj, writeManifest, ensureDir, bind, ret,
    fs_writeFileSync in Hrun.
  rewrite Hm3 in Hrun. injection Hrun as <-.
  exists loaded, m3. split; [symmetry; exact Hsame|].
  split; [simpl; apply lookup_insert_eq|].
  destruct (grows_trans _ _ _ Hg2 Hg3) as (A & B & C). auto.
Qed.

Lemma manifest_only_grows_witness :
  let w := Sample.world
             {[ MANIFEST_PATH := File (Json (DManifest Sample.manifest3)) ]} in
  ∃ loaded persisted : Manifest,
    fst (readManifest w) = Ok (DManifest loaded) ∧
    fs (snd (main Sample.env Sample.drive3 w)) !! MANIFEST_PATH
    = Some (File (Json (DManifest persisted))) ∧
    (∀ collectionKey,
       is_Some (firstSeen loaded !! collectionKey) →
       is_Some (firstSeen persisted !! collectionKey)) ∧
    (∀ collectionKey assetId,
       is_Some (lookup2 loaded collectionKey assetId) →
       is_Some (lookup2 persisted collectionKey assetId)) ∧
    (∀ collectionKey assetId v,
       lookup2 loaded collectionKey assetId = Some v →
       JS.truthy v = true →
       lookup2 persisted collectionKey assetId = Some v).
Proof.
  intros w.
  apply (manifest_only_grows Sample.env Sample.drive3 w).
  apply pair_fst_snd. vm_compute. reflexivity.
Defined.

(** The entry of a photo that has left the folder is still in the manifest
    the run writes, and a collection seen for the first time is added. *)
Example gone_asset_is_kept :
  ∃ persisted,
    fs (snd (main Sample.env Sample.drive3
               (Sample.world
                  {[ MANIFEST_PATH
                     := File (Json (DManifest Sample.manifest3)) ]})))
      !! MANIFEST_PATH = Some (File (Json (DManifest persisted))) ∧
    lookup2 persisted "bouviers" "idGone" = Some "2024-02-02T00:00:00.000Z" ∧
    lookup2 persisted "bouviers" "idW" = Some "2024-01-01T00:00:00.000Z" ∧
    firstSeen persisted !! "lowchen" = Some ∅.
Proof.
  eexists. split; [vm_compute; reflexivity|].
  repeat split; vm_compute; reflexivity.
Qed.

(** ** A failed download *)

(** C5 (failing input).  The folder of the first collection lists b, a and c,
    newest first, and the content of a cannot be fetched.  syncBreed throws at
    a: c is never requested and no summary is written for the collection; the
    run ends with status 1 without listing the second collection and without
    writing the manifest. *)
Theorem download_failure_aborts_sync :
  fst (syncBreed Sample.drive4 "bouviers" "F1" Sample.runNow
         (Sample.ready empty_manifest ∅)) = Throw "download failed" ∧
  let r := run Sample.env Sample.drive4 (Sample.world ∅) in
  fst r = 1 ∧
  calls (snd r) = [CallList "F1" None; CallMedia "idB"; CallMedia "idA"] ∧
  map_to_list (fs (snd r))
  = [("images/puppies/bouviers/current/b_5450632543.jpg",
      File (Bytes "BBBB"))] ∧
  fs (snd r) !! summaryPath "bouviers" = None ∧
  fs (snd r) !! summaryPath "lowchen" = None ∧
  fs (snd r) !! MANIFEST_PATH = None ∧
  console (snd r) = ["download failed"].
Proof.
  split; [vm_compute; reflexivity|]. cbv zeta.
  split; [vm_compute; reflexivity|].
  split; [vm_compute; reflexivity|].
  split; [vm_compute; reflexivity|].
  split; [vm_compute; reflexivity|].
  split; [vm_compute; reflexivity|].
  split; vm_compute; reflexivity.
Qed.

(** The availability export handles the same failure for each row: the error
    is caught and logged, and the loop goes on to the next row. *)
Lemma rowPhoto_never_throws (drive : Drive) (photoId photo : string)
    (w : World) :
  ∃ p w', rowPhoto drive photoId photo w = (Ok p, w').
Proof.
  unfold rowPhoto. destruct (JS.truthy photoId); [|unfold ret; eauto].
  unfold try_catch, bind.
  destruct (downloadDriveImageToRepo drive photoId repoImageDir w)
    as [[dl|e] w1]; unfold ret, console_log; simpl; eauto.
Qed.

Lemma rowPhotos_all_rows (drive : Drive) (rows : list (string * string)) :
  ∀ (acc : list string) (w : World),
  ∃ photos w',
    forOf (fun acc row =>
             photo <~ rowPhoto drive (fst row) (snd row) ;;
             ret (acc ++ [photo])%list) acc rows w = (Ok photos, w') ∧
    length photos = (length acc + length rows)%nat.
Proof.
  induction rows as [|row rows IH]; intros acc w; cbn [forOf].
  - exists acc, w. split; [reflexivity | simpl; lia].
  - destruct (rowPhoto_never_throws drive (fst row) (snd row) w)
      as (p & w1 & Hp).
    unfold bind at 1 2. rewrite Hp. unfold ret at 1.
    destruct (IH (acc ++ [p])%list w1) as (photos & w' & Hrun & Hlen).
    exists photos, w'. split; [exact Hrun|].
    rewrite Hlen, length_app. simpl. lia.
Qed.

Example rowPhotos_after_failure :
  let r := rowPhotos Sample.drive4 [("idA", "fallback.jpg"); ("idB", "")]
             (Sample.world ∅) in
  fst r = Ok ["fallback.jpg"; "assets/available-photos/idB.jpg"] ∧
  console (snd r)
  = ["Photo download failed for PhotoId=idA: metadata request failed"] ∧
  fs (snd r) !! "assets/available-photos/idB.jpg" = Some (File (Bytes "BBBB")).
Proof.
  cbv zeta. split; [vm_compute; reflexivity|].
  split; vm_compute; reflexivity.
Qed.

(** * Further properties of the photo sync *)

(** ** One step of the loop, exactly *)

Lemma stableName_result (d : option string) (id : string) (w : World) :
  ∃ base w', stableName d id w
             = (Ok (base +:+ "_" +:+ fingerprint id +:+ extOf d), w') ∧
    fs w' = fs w ∧ manifestObj w' = manifestObj w ∧ calls w' = calls w ∧
    (JS.truthy (sanitize (Path.parse_name (JS.or_else d "photo"))) = true →
     base = sanitize (Path.parse_name (JS.or_else d "photo"))) ∧
    (JS.truthy (sanitize (Path.parse_name (JS.or_else d "photo"))) = false →
     base = "photo_" +:+ pretty (clock w (reads w)) +:+ ".jpg").
Proof.
  unfold stableName, safeFilename, bind, Date_now, ret.
  destruct (JS.truthy (sanitize (Path.parse_name (JS.or_else d "photo"))));
    simpl; eexists; eexists; (split; [reflexivity|]); simpl;
    repeat split; intros; congruence.
Qed.

(** The step of the loop for the file [f]: the manifest is touched, and the
    file is fetched unless its destination exists; a failed fetch throws and
    leaves the disk as it was. *)
Lemma loopBody_step (drive : Drive)
    (breedKey runNowIso currentDir archiveDir : string)
    (cur : list Item) (n : Z) (f : DriveFile) (w : World) (m : Manifest) :
  manifestObj w = DManifest m →
  is_Some (firstSeen m !! breedKey) →
  ∃ base r w',
    loopBody drive breedKey runNowIso currentDir archiveDir (cur, n) f w
    = (r, w') ∧
    (JS.truthy (sanitize (Path.parse_name (JS.or_else (f_name f) "photo")))
     = true →
     base = sanitize (Path.parse_name (JS.or_else (f_name f) "photo"))) ∧
    let m1 := fst (recordFirstSeen m breedKey (f_id f) runNowIso) in
    let v := snd (recordFirstSeen m breedKey (f_id f) runNowIso) in
    let name := base +:+ "_" +:+ fingerprint (f_id f) +:+ extOf (f_name f) in
    let p := Path.join
               (if snd (classify v runNowIso DAYS_TO_KEEP_CURRENT)
                then archiveDir else currentDir) name in
    manifestObj w' = DManifest m1 ∧
    match fs w !! p with
    | Some _ =>
        r = Ok (after_step cur n f name p v runNowIso) ∧
        fs w' = fs w ∧ calls w' = calls w
    | None =>
        calls w' = (calls w ++ [CallMedia (f_id f)])%list ∧
        match media drive !! f_id f with
        | Some (MediaOk b) =>
            r = Ok (after_step cur n f name p v runNowIso) ∧
            fs w' = <[p := File (Bytes b)]> (fs w)
        | _ => r = Throw "download failed" ∧ fs w' = fs w
        end
    end.
Proof.
  intros Hm Hk. cbn zeta. unfold loopBody.
  destruct (recordFirstSeenM_ok breedKey (f_id f) runNowIso w m Hm Hk)
    as (w1 & H1 & Hm1 & Hfs1 & Hc1).
  unfold bind at 1. rewrite H1.
  unfold after_step.
  destruct (classify (snd (recordFirstSeen m breedKey (f_id f) runNowIso))
              runNowIso DAYS_TO_KEEP_CURRENT) as [age isArchive] eqn:Hcl.
  destruct (stableName_result (f_name f) (f_id f) w1)
    as (base & w2 & H2 & Hfs2 & Hm2 & Hc2 & Hbase & _).
  unfold bind at 1. rewrite H2. cbn [fst snd].
  set (p := Path.join (if isArchive then archiveDir else currentDir)
              (base +:+ "_" +:+ fingerprint (f_id f) +:+ extOf (f_name f))).
  assert (Hret : ∀ (x y : list Item * Z) (w0 : World),
            (if isArchive then ret x else ret y) w0
            = (Ok (if isArchive then x else y), w0))
    by (intros; destruct isArchive; reflexivity).
  unfold ensureMaterialized. unfold bind at 1 2. rewrite existsSync_eq.
  assert (Hfs : fs w2 = fs w) by congruence.
  assert (Hc : calls w2 = calls w) by congruence.
  assert (Hmm : manifestObj w2
                = DManifest (fst (recordFirstSeen m breedKey (f_id f)
                                    runNowIso))) by congruence.
  rewrite Hfs.
  exists base.
  destruct (fs w !! p) as [nd|] eqn:Hp; cbn [negb].
  - unfold ret at 1. rewrite Hret.
    eexists; eexists; split; [reflexivity|].
    split; [exact Hbase|]. fold p. rewrite Hp.
    split; [exact Hmm|]. split; [reflexivity|]. split; assumption.
  - destruct (downloadFile_spec drive (f_id f) p w2)
      as (r3 & w3 & H3 & Hc3 & Hm3 & Hmedia).
    rewrite H3.
    assert (Hthrow : (∃ e, r3 = Throw e) → r3 = Throw "download failed").
    { intros [e ->].
      unfold downloadFile, bind, log_call, fs_writeFileSync, throw in H3.
      destruct (media drive !! f_id f) as [[b|partial]|];
        simpl in H3; congruence. }
    destruct (media drive !! f_id f) as [[b|partial]|] eqn:Hmd.
    + destruct Hmedia as [-> Hfs3]. rewrite Hret.
      eexists; eexists; split; [reflexivity|].
      split; [exact Hbase|]. fold p. rewrite Hp.
      split; [congruence|]. split; [congruence|].
      split; [reflexivity|]. congruence.
    + destruct Hmedia as [He Hfs3]. rewrite (Hthrow He).
      eexists; eexists; split; [reflexivity|].
      split; [exact Hbase|]. fold p. rewrite Hp.
      split; [congruence|]. split; [congruence|]. split; congruence.
    + destruct Hmedia as [He Hfs3]. rewrite (Hthrow He).
      eexists; eexists; split; [reflexivity|].
      split; [exact Hbase|]. fold p. rewrite Hp.
      split; [congruence|]. split; [congruence|]. split; congruence.
Qed.

(** ** syncBreed, by cases *)

Lemma syncBreed_cases (drive : Drive) (breedKey folderId runNowIso : string)
    (w : World) :
  syncBreed drive breedKey folderId runNowIso w
  = match listFilesInFolder drive folderId w with
    | (Throw e, w1) => (Throw e, w1)
    | (Ok files, w1) =>
        match manifestObj w1 with
        | DManifest m =>
            match forOf (loopBody drive breedKey runNowIso
                           (currentDirOf breedKey) (archiveDirOf breedKey))
                    ([], 0) files
                    (snd (set_manifestObj
                            (DManifest (ensureBreed m breedKey)) w1)) with
            | (Ok st, w2) => (Ok tt, after_summary breedKey runNowIso st w2)
            | (Throw e, w2) => (Throw e, w2)
            end
        | _ => (Throw "TypeError", w1)
        end
    end.
Proof.
  unfold syncBreed, ensureDir. unfold bind at 1 2 3. unfold ret at 1 2 3.
  unfold bind at 1.
  destruct (listFilesInFolder drive folderId w) as [[files|e] w1];
    [|reflexivity].
  unfold bind at 1. unfold ensureBreedM, bind at 1, get_manifestObj.
  destruct (manifestObj w1) as [m|sm|]; try reflexivity.
  unfold set_manifestObj at 1. cbn [snd].
  unfold bind at 1. fold (currentDirOf breedKey) (archiveDirOf breedKey).
  unfold set_manifestObj.
  destruct (forOf _ _ files _) as [[[cur n]|e] w2]; reflexivity.
Qed.

(** ** The loop, with the disk *)

Lemma recordFirstSeen_truthy (m : Manifest) (k i now : string) :
  JS.truthy now = true →
  JS.truthy (snd (recordFirstSeen m k i now)) = true.
Proof.
  intros Hnow.
  pose proof (recordFirstSeen_spec m k i now) as H.
  destruct (recordFirstSeen m k i now) as [m1 r]. simpl.
  destruct H as (_ & Hold & Hnew).
  destruct (lookup2 m k i) as [v|] eqn:Hl.
  - destruct (JS.truthy v) eqn:Hv.
    + destruct (Hold v eq_refl Hv) as [_ ->]. exact Hv.
    + destruct (Hnew Hv) as [_ ->]. exact Hnow.
  - destruct (Hnew eq_refl) as [_ ->]. exact Hnow.
Qed.

Lemma recordFirstSeen_lookup (m : Manifest) (k i now : string) :
  lookup2 (fst (recordFirstSeen m k i now)) k i
  = Some (snd (recordFirstSeen m k i now)).
Proof.
  pose proof (recordFirstSeen_spec m k i now) as H.
  destruct (recordFirstSeen m k i now) as [m1 r]. apply H.
Qed.

(** The loop of syncBreed never overwrites or removes a file, writes only
    inside its two directories, and settles every item it appends. *)
Lemma loop_settled (drive : Drive)
    (breedKey runNowIso currentDir archiveDir : string)
    (files : list DriveFile) :
  ∀ (cur : list Item) (n : Z) (w : World) (m : Manifest),
  manifestObj w = DManifest m →
  is_Some (firstSeen m !! breedKey) →
  ∃ r w' m',
    forOf (loopBody drive breedKey runNowIso currentDir archiveDir)
      (cur, n) files w = (r, w') ∧
    manifestObj w' = DManifest m' ∧ grows m m' ∧
    (∀ q nd, fs w !! q = Some nd → fs w' !! q = Some nd) ∧
    (∀ q, (∀ name, q ≠ Path.join currentDir name) →
          (∀ name, q ≠ Path.join archiveDir name) →
          fs w' !! q = fs w !! q) ∧
    ∀ cur' n', r = Ok (cur', n') →
      ∃ kept items,
        kept `sublist_of` files ∧
        Forall2 (item_settled breedKey runNowIso currentDir (fs w') m')
          items kept ∧
        cur' = (cur ++ items)%list ∧
        n' = n + Z.of_nat (length files) - Z.of_nat (length kept).
Proof.
  induction files as [|f files IH]; intros cur n w m Hm Hk; cbn [forOf].
  - exists (Ok (cur, n)), w, m. split; [reflexivity|].
    split; [exact Hm|]. split; [apply grows_refl|].
    split; [auto|]. split; [auto|].
    intros cur' n' Heq. injection Heq as <- <-.
    exists [], []. split; [constructor|]. split; [constructor|].
    split; [now rewrite app_nil_r | simpl; lia].
  - destruct (loopBody_step drive breedKey runNowIso currentDir archiveDir
                cur n f w m Hm Hk)
      as (base & r1 & w1 & H1 & _ & Hm1 & Hstep).
    set (v := snd (recordFirstSeen m breedKey (f_id f) runNowIso)) in *.
    set (m1 := fst (recordFirstSeen m breedKey (f_id f) runNowIso)) in *.
    set (name := base +:+ "_" +:+ fingerprint (f_id f) +:+ extOf (f_name f))
      in *.
    set (arch := snd (classify v runNowIso DAYS_TO_KEEP_CURRENT)) in *.
    set (p := Path.join (if arch then archiveDir else currentDir) name) in *.
    assert (Hkeep1 : ∀ q nd, fs w !! q = Some nd → fs w1 !! q = Some nd).
    { intros q nd Hq. destruct (fs w !! p) as [x|] eqn:Hp.
      - destruct Hstep as (_ & -> & _). exact Hq.
      - destruct Hstep as (_ & Hmd).
        destruct (media drive !! f_id f) as [[b|?]|];
          destruct Hmd as [_ ->]; try exact Hq.
        rewrite lookup_insert_ne; [exact Hq|]. congruence. }
    assert (Hframe1 : ∀ q, q ≠ p → fs w1 !! q = fs w !! q).
    { intros q Hq. destruct (fs w !! p) as [x|] eqn:Hp.
      - destruct Hstep as (_ & -> & _). reflexivity.
      - destruct Hstep as (_ & Hmd).
        destruct (media drive !! f_id f) as [[b|?]|];
          destruct Hmd as [_ ->]; try reflexivity.
        now rewrite lookup_insert_ne. }
    assert (Hok1 : ∀ st, r1 = Ok st →
              st = after_step cur n f name p v runNowIso ∧
              is_Some (fs w1 !! p)).
    { intros st ->. destruct (fs w !! p) as [x|] eqn:Hp.
      - destruct Hstep as (Hr & Hfs & _). injection Hr as ->.
        split; [reflexivity|]. rewrite Hfs, Hp. eauto.
      - destruct Hstep as (_ & Hmd).
        destruct (media drive !! f_id f) as [[b|?]|];
          destruct Hmd as [Hr Hfs]; try discriminate.
        injection Hr as ->. split; [reflexivity|].
        rewrite Hfs, lookup_insert_eq. eauto. }
    unfold bind. rewrite H1.
    destruct r1 as [[cur1 n1]|e].
    + destruct (IH cur1 n1 w1 m1 Hm1
                  (recordFirstSeen_is_Some m breedKey (f_id f) runNowIso Hk))
        as (r & w' & m' & Hrun & Hm' & Hg & Hkeep & Hframe & Hres).
      exists r, w', m'. split; [exact Hrun|]. split; [exact Hm'|].
      split; [eapply grows_trans; [apply recordFirstSeen_grows|exact Hg]|].
      split; [intros q nd Hq; apply Hkeep, Hkeep1, Hq|].
      split.
      { intros q Hc Ha. rewrite Hframe by assumption. apply Hframe1.
        unfold p. destruct arch; [apply Ha | apply Hc]. }
      intros cur' n' Heq.
      destruct (Hres cur' n' Heq) as (kept & items & Hsub & Hfa & -> & ->).
      destruct (Hok1 _ eq_refl) as [Hst [nd Hnd]].
      unfold after_step in Hst. fold arch in Hst.
      destruct arch eqn:Harch; injection Hst as -> ->.
      * exists kept, items. split; [now apply sublist_cons|].
        split; [exact Hfa|]. split; [reflexivity|]. simpl length. lia.
      * eexists (f :: kept), (_ :: items).
        split; [now apply sublist_skip|].
        split; [|split; [now rewrite <- app_assoc | simpl length; lia]].
        constructor; [|exact Hfa].
        split; [split; [reflexivity | exists base; reflexivity]|].
        split; [reflexivity|].
        split; [exact Harch|].
        split; [exists nd; apply Hkeep, Hnd|].
        intros Hnow. simpl item_firstSeen.
        destruct Hg as (_ & _ & Hval). apply Hval.
        -- apply recordFirstSeen_lookup.
        -- now apply recordFirstSeen_truthy.
    + eexists; eexists; eexists. split; [reflexivity|].
      split; [exact Hm1|]. split; [apply recordFirstSeen_grows|].
      split; [exact Hkeep1|].
      split.
      { intros q Hc Ha. apply Hframe1.
        unfold p. destruct arch; [apply Ha | apply Hc]. }
      intros cur' n' Heq. discriminate.
Qed.

(** ** syncBreed and the disk *)

Lemma images_prefix_current (breedKey name : string) :
  String.prefix "images/" (Path.join (currentDirOf breedKey) name) = true.
Proof. reflexivity. Qed.

Lemma images_prefix_archive (breedKey name : string) :
  String.prefix "images/" (Path.join (archiveDirOf breedKey) name) = true.
Proof. reflexivity. Qed.

Lemma summaryPath_not_images (breedKey : string) :
  String.prefix "images/" (summaryPath breedKey) = false.
Proof. reflexivity. Qed.

Lemma item_settled_disk (breedKey runNowIso dir : string)
    (d1 d2 : gmap string Node) (m' : Manifest) (it : Item) (f : DriveFile) :
  (∀ q, is_Some (d1 !! q) → is_Some (d2 !! q)) →
  item_settled breedKey runNowIso dir d1 m' it f →
  item_settled breedKey runNowIso dir d2 m' it f.
Proof.
  intros Hd (A & B & C & D & E). repeat split; auto; apply A.
Qed.

(** Everything the later statements use about one call of syncBreed. *)
Lemma syncBreed_full (drive : Drive) (breedKey folderId runNowIso : string)
    (w : World) :
  ∃ r w', syncBreed drive breedKey folderId runNowIso w = (r, w') ∧
    (∀ q nd, fs w !! q = Some nd → q ≠ summaryPath breedKey →
             fs w' !! q = Some nd) ∧
    (∀ q, q ≠ summaryPath breedKey → String.prefix "images/" q = false →
          fs w' !! q = fs w !! q) ∧
    ((∃ e, r = Throw e) →
     fs w' !! summaryPath breedKey = fs w !! summaryPath breedKey) ∧
    (r = Ok tt →
     ∃ m m' files w1 kept items,
       manifestObj w = DManifest m ∧ manifestObj w' = DManifest m' ∧
       grows m m' ∧
       listFilesInFolder drive folderId w = (Ok files, w1) ∧
       kept `sublist_of` files ∧
       Forall2 (item_settled breedKey runNowIso (currentDirOf breedKey)
                  (fs w') m') items kept ∧
       fs w' !! summaryPath breedKey
       = Some (File (Json (DSummary
                 (summary_of breedKey runNowIso files kept items))))).
Proof.
  rewrite syncBreed_cases.
  destruct (listFilesInFolder_spec drive folderId w)
    as (r1 & w1 & H1 & (Hfs1 & Hm1 & _) & _).
  rewrite H1.
  destruct r1 as [files|e].
  2:{ eexists; eexists. split; [reflexivity|]. rewrite Hfs1.
      repeat split; auto. discriminate. }
  destruct (manifestObj w1) as [m|sm|] eqn:Hmw1;
    try (eexists; eexists; split; [reflexivity|]; rewrite Hfs1;
         repeat split; auto; discriminate).
  destruct (loop_settled drive breedKey runNowIso
              (currentDirOf breedKey) (archiveDirOf breedKey) files [] 0
              (snd (set_manifestObj (DManifest (ensureBreed m breedKey)) w1))
              (ensureBreed m breedKey) eq_refl
              (ensureBreed_is_Some m breedKey))
    as (r2 & w2 & m2 & H2 & Hm2 & Hg & Hkeep & Hframe & Hres).
  rewrite H2. simpl fs in Hkeep, Hframe. rewrite Hfs1 in Hkeep, Hframe.
  assert (Hconf : ∀ q, String.prefix "images/" q = false →
                       fs w2 !! q = fs w !! q).
  { intros q Hq. apply Hframe; intros name ->.
    - rewrite images_prefix_current in Hq. discriminate.
    - rewrite images_prefix_archive in Hq. discriminate. }
  destruct r2 as [[cur n]|e].
  - destruct (Hres cur n eq_refl) as (kept & items & Hsub & Hfa & -> & ->).
    eexists; eexists. split; [reflexivity|].
    unfold after_summary, console_log, fs_writeFileSync, set_fs.
    cbn [snd fst fs manifestObj].
    split.
    { intros q nd Hq Hne. rewrite lookup_insert_ne by congruence.
      now apply Hkeep. }
    split.
    { intros q Hne Hq. rewrite lookup_insert_ne by congruence.
      now apply Hconf. }
    split; [intros [e He]; discriminate|].
    intros _. exists m, m2, files, w1, kept, items.
    split; [congruence|]. split; [exact Hm2|].
    split; [eapply grows_trans; [apply ensureBreed_grows | exact Hg]|].
    split; [reflexivity|]. split; [exact Hsub|].
    split.
    + eapply Forall2_impl; [exact Hfa|].
      intros it f. apply item_settled_disk.
      intros q [nd Hq].
      destruct (decide (summaryPath breedKey = q)) as [<-|Hne].
      * rewrite lookup_insert_eq. eauto.
      * rewrite lookup_insert_ne by assumption. eauto.
    + rewrite lookup_insert_eq. reflexivity.
  - eexists; eexists. split; [reflexivity|].
    split; [intros q nd Hq _; now apply Hkeep|].
    split; [intros q _ Hq; now apply Hconf|].
    split; [|discriminate].
    intros _. apply Hconf, summaryPath_not_images.
Qed.

Lemma Forall2_Forall_left {A B} (R : A → B → Prop) (Q : A → Prop)
    (l : list A) (k : list B) :
  Forall2 R l k → (∀ x y, R x y → Q x) → Forall Q l.
Proof. induction 1; intros HQ; constructor; eauto. Qed.

(** X1. For the two collections main syncs, syncBreed never removes or
    overwrites a file that exists, apart from the summary of its collection:
    whatever the outcome, every other file of the disk holds afterwards what
    it held before. *)
Theorem syncBreed_keeps_existing_files (drive : Drive)
    (breedKey folderId runNowIso : string) (w : World) (q : string)
    (nd : Node) :
  breedKey = "bouviers" ∨ breedKey = "lowchen" →
  fs w !! q = Some nd →
  q ≠ summaryPath breedKey →
  fs (snd (syncBreed drive breedKey folderId runNowIso w)) !! q = Some nd.
Proof.
  intros _ Hq Hne.
  destruct (syncBreed_full drive breedKey folderId runNowIso w)
    as (r & w' & Hrun & Hkeep & _).
  rewrite Hrun. simpl. now apply Hkeep.
Qed.

Lemma syncBreed_keeps_existing_files_witness :
  let w := Sample.ready Sample.manifest3 Sample.disk3 in
  fs (snd (syncBreed Sample.drive3 "bouviers" "F1" Sample.runNow w))
    !! "images/puppies/bouviers/current/x_61fb51113d.jpg"
  = Some (File (Bytes "old")).
Proof.
  intros w.
  apply (syncBreed_keeps_existing_files Sample.drive3 "bouviers" "F1"
           Sample.runNow w).
  - left. reflexivity.
  - reflexivity.
  - discriminate.
Defined.

(** X2. For the two collections main syncs, syncBreed writes no file but the
    summary of its collection and files under images/: at every other path
    a regular file is there afterwards exactly when it was there before, and
    with the same content, whatever the outcome.  (The directories that
    mkdirSync creates are not regular files.) *)
Theorem syncBreed_writes_confined (drive : Drive)
    (breedKey folderId runNowIso : string) (w : World) (q : string)
    (c : FileData) :
  breedKey = "bouviers" ∨ breedKey = "lowchen" →
  q ≠ summaryPath breedKey →
  String.prefix "images/" q = false →
  fs (snd (syncBreed drive breedKey folderId runNowIso w)) !! q
  = Some (File c)
  ↔ fs w !! q = Some (File c).
Proof.
  intros _ Hne Hq.
  destruct (syncBreed_full drive breedKey folderId runNowIso w)
    as (r & w' & Hrun & _ & Hconf & _).
  rewrite Hrun. cbn [snd]. now rewrite (Hconf q Hne Hq).
Qed.

Lemma syncBreed_writes_confined_witness :
  let w := Sample.ready Sample.manifest3 Sample.disk3 in
  fs (snd (syncBreed Sample.drive3 "bouviers" "F1" Sample.runNow w))
    !! "README.md" = Some (File (Bytes "hello")).
Proof.
  intros w.
  apply (syncBreed_writes_confined Sample.drive3 "bouviers" "F1"
           Sample.runNow w "README.md" (Bytes "hello")).
  - left. reflexivity.
  - discriminate.
  - reflexivity.
  - reflexivity.
Defined.

(** X3. A sync that fails, at the listing or at a download, leaves the
    summary of the collection as it was: the previous summary stays in place
    and none is created. *)
Theorem failed_sync_keeps_summary (drive : Drive)
    (breedKey folderId runNowIso : string) (w : World) (e : string) :
  fst (syncBreed drive breedKey folderId runNowIso w) = Throw e →
  fs (snd (syncBreed drive breedKey folderId runNowIso w))
    !! summaryPath breedKey
  = fs w !! summaryPath breedKey.
Proof.
  intros Hthrow.
  destruct (syncBreed_full drive breedKey folderId runNowIso w)
    as (r & w' & Hrun & _ & _ & Hstale & _).
  rewrite Hrun in *. simpl in *. apply Hstale. eauto.
Qed.

Lemma failed_sync_keeps_summary_witness :
  let w := Sample.ready empty_manifest
             {[ summaryPath "bouviers" := File (Bytes "previous") ]} in
  fs (snd (syncBreed Sample.drive4 "bouviers" "F1" Sample.runNow w))
    !! summaryPath "bouviers" = Some (File (Bytes "previous")).
Proof.
  intros w.
  rewrite (failed_sync_keeps_summary Sample.drive4 "bouviers" "F1"
             Sample.runNow w "download failed").
  - reflexivity.
  - vm_compute. reflexivity.
Defined.

Lemma listPages_no_media (folderId : string) (answers : Listing) :
  ∀ (pageToken : option string) (files : list DriveFile) (w : World)
    (fileId : string),
  CallMedia fileId ∈ calls (snd (listPages folderId pageToken answers files w))
  → CallMedia fileId ∈ calls w.
Proof.
  assert (Hstep : ∀ (c : list Call) (fid : string) (tok : option string)
                    (fileId : string),
            CallMedia fileId ∈ (c ++ [CallList fid tok])%list
            → CallMedia fileId ∈ c).
  { intros c fid tok fileId Hin.
    apply elem_of_app in Hin as [Hin|Hin]; [exact Hin|].
    apply list_elem_of_singleton in Hin. discriminate. }
  induction answers as [e|fl|fl tok rest IH]; intros pageToken files w fileId;
    simpl; run_monad.
  - apply Hstep.
  - apply Hstep.
  - destruct (JS.truthy tok); simpl; [|apply Hstep].
    intros Hin. apply IH in Hin. simpl in Hin. eapply Hstep, Hin.
Qed.

(** X4. When a request of the listing fails, syncBreed throws before it
    writes any file: every regular file of the disk is as it was and none
    is added, the manifest object and the console are as they were, and no
    content is requested.  (Only the directories of the collection may have
    been created by then.) *)
Theorem listing_failure_changes_nothing (drive : Drive)
    (breedKey folderId runNowIso : string) (w : World) :
  answered (default (ListFails "File not found") (folders drive !! folderId))
  = false →
  ∃ e w',
    syncBreed drive breedKey folderId runNowIso w = (Throw e, w') ∧
    (∀ q c, fs w' !! q = Some (File c) ↔ fs w !! q = Some (File c)) ∧
    manifestObj w' = manifestObj w ∧
    console w' = console w ∧
    ∀ fileId, CallMedia fileId ∈ calls w' → CallMedia fileId ∈ calls w.
Proof.
  intros Hans. rewrite syncBreed_cases.
  unfold listFilesInFolder, bind.
  pose proof (listPages_no_media folderId
                (default (ListFails "File not found")
                   (folders drive !! folderId)) None [] w) as Hcalls.
  destruct (listPages_spec folderId
              (default (ListFails "File not found") (folders drive !! folderId))
              None [] w) as (r & w' & Hrun & Hsame & Hres).
  rewrite Hans in Hres. destruct Hres as [e ->].
  rewrite Hrun in *. simpl in Hcalls.
  exists e, w'. split; [reflexivity|].
  destruct Hsame as (A & B & C & _).
  split; [intros q c; now rewrite A|]. repeat split; assumption.
Qed.

Lemma listing_failure_changes_nothing_witness :
  let w := Sample.ready Sample.manifest3 Sample.disk3 in
  ∃ e w',
    syncBreed Sample.drive5 "bouviers" "F1" Sample.runNow w = (Throw e, w') ∧
    (∀ q c, fs w' !! q = Some (File c) ↔ fs w !! q = Some (File c)) ∧
    manifestObj w' = manifestObj w ∧
    console w' = console w ∧
    ∀ fileId, CallMedia fileId ∈ calls w' → CallMedia fileId ∈ calls w.
Proof.
  intros w.
  apply (listing_failure_changes_nothing Sample.drive5 "bouviers" "F1"
           Sample.runNow w).
  reflexivity.
Defined.

(** X5. Local availability: when a sync ends normally, the file of every
    item of [current] exists in the current directory of the collection. *)
Theorem current_items_are_local (drive : Drive)
    (breedKey folderId runNowIso : string) (w w' : World) :
  syncBreed drive breedKey folderId runNowIso w = (Ok tt, w') →
  ∃ out,
    fs w' !! summaryPath breedKey = Some (File (Json (DSummary out))) ∧
    Forall (fun it =>
              is_Some (fs w' !! Path.join (currentDirOf breedKey) (filename it)))
           (current out).
Proof.
  intros Hrun.
  destruct (syncBreed_full drive breedKey folderId runNowIso w)
    as (r & w0 & Hrun' & _ & _ & _ & Hok).
  rewrite Hrun in Hrun'. injection Hrun' as <- <-.
  destruct (Hok eq_refl)
    as (m & m' & files & w1 & kept & items & _ & _ & _ & _ & _ & Hfa & Hfs).
  eexists. split; [exact Hfs|]. simpl.
  eapply Forall2_Forall_left; [exact Hfa|].
  intros it f (_ & _ & _ & H & _). exact H.
Qed.

Lemma current_items_are_local_witness :
  ∃ out,
    fs (snd (syncBreed Sample.drive3 "bouviers" "F1" Sample.runNow
               (Sample.ready Sample.manifest3 Sample.disk3)))
      !! summaryPath "bouviers" = Some (File (Json (DSummary out))) ∧
    Forall (fun it =>
              is_Some (fs (snd (syncBreed Sample.drive3 "bouviers" "F1"
                                  Sample.runNow
                                  (Sample.ready Sample.manifest3 Sample.disk3)))
                         !! Path.join (currentDirOf "bouviers") (filename it)))
           (current out).
Proof.
  apply (current_items_are_local Sample.drive3 "bouviers" "F1" Sample.runNow
           (Sample.ready Sample.manifest3 Sample.disk3)).
  apply pair_fst_snd. vm_compute. reflexivity.
Defined.

(** X6. The summary agrees with the listing and with the manifest: when a
    sync run at a timestamp [runNowIso] ends normally, the items of
    [current] are, in order, the items of files of the listing (each listed
    file gives at most one item, which carries its Drive name and a file
    name with the fingerprint of its id); the [firstSeen] of an item is the
    value the manifest holds for the id of its file, its [ageDays] is the
    age computed from that value, and that age is not above the
    threshold. *)
Theorem current_items_match_manifest (drive : Drive)
    (breedKey folderId runNowIso : string) (w w' : World) :
  JS.truthy runNowIso = true →
  syncBreed drive breedKey folderId runNowIso w = (Ok tt, w') →
  ∃ out kept m' files w1,
    listFilesInFolder drive folderId w = (Ok files, w1) ∧
    kept `sublist_of` files ∧
    fs w' !! summaryPath breedKey = Some (File (Json (DSummary out))) ∧
    manifestObj w' = DManifest m' ∧
    Forall2 (fun it f =>
               item_of it f ∧
               lookup2 m' breedKey (f_id f) = Some (item_firstSeen it) ∧
               ageDays it = daysBetweenIso (item_firstSeen it) runNowIso ∧
               JS.gt (ageDays it) DAYS_TO_KEEP_CURRENT = false)
            (current out) kept.
Proof.
  intros Hnow Hrun.
  destruct (syncBreed_full drive breedKey folderId runNowIso w)
    as (r & w0 & Hrun' & _ & _ & _ & Hok).
  rewrite Hrun in Hrun'. injection Hrun' as <- <-.
  destruct (Hok eq_refl)
    as (m & m' & files & w1 & kept & items & _ & Hm' & _ & Hl & Hsub & Hfa
        & Hfs).
  eexists; exists kept, m', files, w1. split; [exact Hl|].
  split; [exact Hsub|]. split; [exact Hfs|]. split; [exact Hm'|]. simpl.
  eapply Forall2_impl; [exact Hfa|].
  intros it f (Hitem & Hage & Hgt & _ & Hlook). auto.
Qed.

Lemma current_items_match_manifest_witness :
  ∃ out kept m' files w1,
    listFilesInFolder Sample.drive3 "F1" (Sample.ready Sample.manifest3 ∅)
    = (Ok files, w1) ∧
    kept `sublist_of` files ∧
    fs (snd (syncBreed Sample.drive3 "bouviers" "F1" Sample.runNow
               (Sample.ready Sample.manifest3 ∅)))
      !! summaryPath "bouviers" = Some (File (Json (DSummary out))) ∧
    manifestObj (snd (syncBreed Sample.drive3 "bouviers" "F1" Sample.runNow
                        (Sample.ready Sample.manifest3 ∅)))
    = DManifest m' ∧
    Forall2 (fun it f =>
               item_of it f ∧
               lookup2 m' "bouviers" (f_id f) = Some (item_firstSeen it) ∧
               ageDays it = daysBetweenIso (item_firstSeen it) Sample.runNow ∧
               JS.gt (ageDays it) DAYS_TO_KEEP_CURRENT = false)
            (current out) kept.
Proof.
  apply (current_items_match_manifest Sample.drive3 "bouviers" "F1"
           Sample.runNow (Sample.ready Sample.manifest3 ∅)).
  - reflexivity.
  - apply pair_fst_snd. vm_compute. reflexivity.
Defined.

(** ** The first sync of a collection *)

Lemma getTime_truthy (s : string) (t : Z) :
  Date.getTime s = Some t → JS.truthy s = true.
Proof. destruct s; [discriminate | reflexivity]. Qed.

Lemma same_day_is_current (now : string) (t : Z) :
  Date.getTime now = Some t →
  classify now now DAYS_TO_KEEP_CURRENT = (Some 0, false).
Proof.
  intros H. unfold classify, daysBetweenIso. rewrite H. simpl.
  rewrite Z.sub_diag. reflexivity.
Qed.

Lemma loop_fresh (drive : Drive)
    (breedKey runNowIso currentDir archiveDir : string) (t : Z)
    (files : list DriveFile) :
  Date.getTime runNowIso = Some t →
  ∀ (cur : list Item) (n : Z) (w : World) (m : Manifest),
  manifestObj w = DManifest m →
  is_Some (firstSeen m !! breedKey) →
  (∀ id v, lookup2 m breedKey id = Some v → v = runNowIso) →
  ∀ cur' n' w',
    forOf (loopBody drive breedKey runNowIso currentDir archiveDir)
      (cur, n) files w = (Ok (cur', n'), w') →
    n' = n ∧
    ∃ items, cur' = (cur ++ items)%list ∧ length items = length files ∧
      Forall (fun it => ageDays it = Some 0 ∧ item_firstSeen it = runNowIso)
        items.
Proof.
  intros Ht.
  induction files as [|f files IH]; intros cur n w m Hm Hk Hinv cur' n' w';
    cbn [forOf].
  - unfold ret. intros Heq. injection Heq as <- <- <-.
    split; [reflexivity|]. exists []. rewrite app_nil_r. auto.
  - destruct (loopBody_step drive breedKey runNowIso currentDir archiveDir
                cur n f w m Hm Hk)
      as (base & r1 & w1 & H1 & _ & Hm1 & Hstep).
    assert (Hv : snd (recordFirstSeen m breedKey (f_id f) runNowIso)
                 = runNowIso).
    { pose proof (recordFirstSeen_spec m breedKey (f_id f) runNowIso) as Hs.
      destruct (recordFirstSeen m breedKey (f_id f) runNowIso) as [m1 r].
      destruct Hs as (_ & Hold & Hnew). simpl.
      destruct (lookup2 m breedKey (f_id f)) as [v|] eqn:Hl.
      - destruct (JS.truthy v) eqn:Htv.
        + destruct (Hold v eq_refl Htv) as [_ ->]. now apply Hinv in Hl.
        + now destruct (Hnew Htv).
      - now destruct (Hnew eq_refl). }
    assert (Hinv1 : ∀ id v,
              lookup2 (fst (recordFirstSeen m breedKey (f_id f) runNowIso))
                breedKey id = Some v → v = runNowIso).
    { intros id v Hl.
      destruct (decide (id = f_id f)) as [->|Hne].
      - rewrite recordFirstSeen_lookup, Hv in Hl. congruence.
      - unfold recordFirstSeen in Hl. simpl in Hl.
        destruct (negb (JS.truthy_opt (lookup2 m breedKey (f_id f)))).
        + rewrite lookup2_store2_ne in Hl by congruence. eauto.
        + eauto. }
    rewrite Hv in Hstep. unfold after_step in Hstep.
    rewrite (same_day_is_current runNowIso t Ht) in Hstep.
    cbn [fst snd] in Hstep.
    unfold bind. rewrite H1.
    assert (Hr1 : (∃ e, r1 = Throw e) ∨
                  ∃ it, r1 = Ok ((cur ++ [it])%list, n) ∧
                        ageDays it = Some 0 ∧ item_firstSeen it = runNowIso).
    { match type of Hstep with
      | match ?x with _ => _ end => destruct x
      end.
      - destruct Hstep as (-> & _). right. eexists. split; [reflexivity|].
        split; reflexivity.
      - destruct Hstep as (_ & Hmd).
        destruct (media drive !! f_id f) as [[b|?]|];
          destruct Hmd as [-> _]; [|left; eauto|left; eauto].
        right. eexists. split; [reflexivity|]. split; reflexivity. }
    destruct Hr1 as [[e ->]|(it & -> & Hage & Hfirst)]; [discriminate|].
    intros Hrun.
    destruct (IH _ _ _ _ Hm1
                (recordFirstSeen_is_Some m breedKey (f_id f) runNowIso Hk)
                Hinv1 _ _ _ Hrun) as (-> & items & -> & Hlen & Hall).
    split; [reflexivity|]. exists (it :: items).
    split; [now rewrite <- app_assoc|].
    split; [simpl; now rewrite Hlen|]. constructor; auto.
Qed.

(** X7. The first sync of a collection: when the manifest has no entry for
    the collection and the run's timestamp is a valid date, a sync that ends
    normally archives nothing; every listed file is in [current], with the
    run's timestamp as first-seen value and an age of 0 days. *)
Theorem first_sync_all_current (drive : Drive)
    (breedKey folderId runNowIso : string) (t : Z) (w w' : World)
    (m : Manifest) :
  manifestObj w = DManifest m →
  (∀ id, lookup2 m breedKey id = None) →
  Date.getTime runNowIso = Some t →
  syncBreed drive breedKey folderId runNowIso w = (Ok tt, w') →
  ∃ files w1 out,
    listFilesInFolder drive folderId w = (Ok files, w1) ∧
    fs w' !! summaryPath breedKey = Some (File (Json (DSummary out))) ∧
    archiveCount out = 0 ∧ length (current out) = length files ∧
    Forall (fun it => ageDays it = Some 0 ∧ item_firstSeen it = runNowIso)
      (current out).
Proof.
  intros Hm Hnone Ht Hrun. rewrite syncBreed_cases in Hrun.
  destruct (listFilesInFolder_spec drive folderId w)
    as (r1 & w1 & H1 & (_ & Hm1 & _) & _).
  rewrite H1 in *. destruct r1 as [files|e]; [|discriminate].
  rewrite Hm1, Hm in Hrun.
  destruct (forOf _ _ files _) as [[[cur n]|e] w2] eqn:Hloop; [|discriminate].
  injection Hrun as <-.
  assert (Hinv : ∀ id v, lookup2 (ensureBreed m breedKey) breedKey id = Some v
                         → v = runNowIso).
  { intros id v. rewrite lookup2_ensureBreed, Hnone. discriminate. }
  destruct (loop_fresh drive breedKey runNowIso (currentDirOf breedKey)
              (archiveDirOf breedKey) t files Ht [] 0
              (snd (set_manifestObj (DManifest (ensureBreed m breedKey)) w1))
              (ensureBreed m breedKey) eq_refl (ensureBreed_is_Some m breedKey)
              Hinv _ _ _ Hloop) as (-> & items & -> & Hlen & Hall).
  exists files, w1. eexists. split; [reflexivity|].
  split.
  { unfold after_summary, console_log, fs_writeFileSync, set_fs. simpl.
    apply lookup_insert_eq. }
  simpl. auto.
Qed.

Lemma first_sync_all_current_witness :
  ∃ files w1 out,
    listFilesInFolder Sample.drive3 "F1" (Sample.ready empty_manifest ∅)
    = (Ok files, w1) ∧
    fs (snd (syncBreed Sample.drive3 "bouviers" "F1" Sample.runNow
               (Sample.ready empty_manifest ∅)))
      !! summaryPath "bouviers" = Some (File (Json (DSummary out))) ∧
    archiveCount out = 0 ∧ length (current out) = length files ∧
    Forall (fun it => ageDays it = Some 0 ∧ item_firstSeen it = Sample.runNow)
      (current out).
Proof.
  apply (first_sync_all_current Sample.drive3 "bouviers" "F1" Sample.runNow
           1730543655123 (Sample.ready empty_manifest ∅) _ empty_manifest).
  - reflexivity.
  - intros id. reflexivity.
  - reflexivity.
  - apply pair_fst_snd. vm_compute. reflexivity.
Defined.


(** ** A whole run and the manifest file *)

Lemma syncBreed_manifest_path (drive : Drive) (breedKey folderId now : string)
    (w : World) :
  (breedKey = "bouviers" ∨ breedKey = "lowchen") →
  fs (snd (syncBreed drive breedKey folderId now w)) !! MANIFEST_PATH
  = fs w !! MANIFEST_PATH.
Proof.
  intros Hk.
  destruct (syncBreed_full drive breedKey folderId now w)
    as (r & w' & Hrun & _ & Hconf & _).
  rewrite Hrun. simpl. apply Hconf; [|reflexivity].
  destruct Hk as [-> | ->]; discriminate.
Qed.

(** X8. A run that fails never writes the manifest file: whatever was at
    the manifest path before the run, a file or nothing, is there after
    it. *)
Theorem failed_run_keeps_manifest (env : Env) (remote : Drive) (w : World)
    (e : string) :
  fst (main env remote w) = Throw e →
  fs (snd (main env remote w)) !! MANIFEST_PATH = fs w !! MANIFEST_PATH.
Proof.
  destruct (main env remote w) as [r w'] eqn:Hrun. simpl. intros ->.
  unfold main, getDriveClient in Hrun.
  destruct (negb (JS.truthy_opt (GDRIVE_SERVICE_ACCOUNT_JSON env)));
    [cbv beta iota in Hrun; unfold throw in Hrun;
     injection Hrun as _ <-; reflexivity|].
  unfold bind at 1 in Hrun. unfold ret at 1 in Hrun. cbv beta iota in Hrun.
  destruct (negb (JS.truthy_opt (GDRIVE_BOUVIERS_FOLDER_ID env))
            || negb (JS.truthy_opt (GDRIVE_LOWCHEN_FOLDER_ID env)));
    [cbv beta iota in Hrun; unfold throw in Hrun;
     injection Hrun as _ <-; reflexivity|].
  destruct (nowIso_spec w) as (w1 & Hnow & Hfs1).
  unfold bind at 1 in Hrun. rewrite Hnow in Hrun.
  unfold bind at 1 in Hrun. rewrite readManifest_result in Hrun.
  unfold bind at 1 in Hrun. unfold set_manifestObj at 1 in Hrun.
  cbv beta iota in Hrun. unfold bind at 1 in Hrun.
  match type of Hrun with
  | context [syncBreed remote "bouviers" ?fid ?now ?w0] =>
      pose proof (syncBreed_manifest_path remote "bouviers" fid now w0
                    (or_introl eq_refl)) as Hb;
      destruct (syncBreed remote "bouviers" fid now w0) as [[[]|e2] w2]
  end; simpl in Hb; rewrite Hfs1 in Hb.
  2:{ injection Hrun as _ <-. exact Hb. }
  unfold bind at 1 in Hrun.
  match type of Hrun with
  | context [syncBreed remote "lowchen" ?fid ?now ?w0] =>
      pose proof (syncBreed_manifest_path remote "lowchen" fid now w0
                    (or_intror eq_refl)) as Hl;
      destruct (syncBreed remote "lowchen" fid now w0) as [[[]|e3] w3]
  end; simpl in Hl.
  2:{ injection Hrun as _ <-. congruence. }
  unfold bind, get_manifestObj, writeManifest, ensureDir, bind, ret,
    fs_writeFileSync in Hrun. simpl in Hrun. discriminate.
Qed.

Lemma failed_run_keeps_manifest_witness :
  let w := Sample.world
             {[ MANIFEST_PATH := File (Json (DManifest Sample.manifest3)) ]} in
  fs (snd (main Sample.env Sample.drive4 w)) !! MANIFEST_PATH
  = Some (File (Json (DManifest Sample.manifest3))).
Proof.
  intros w.
  rewrite (failed_run_keeps_manifest Sample.env Sample.drive4 w
             "download failed").
  - reflexivity.
  - vm_compute. reflexivity.
Defined.

(** X9. A run with a missing credential or folder id throws before it does
    anything: no request is sent, the clock is not read, and the disk is
    untouched; the process ends with status 1. *)
Theorem missing_configuration_aborts (env : Env) (remote : Drive) (w : World) :
  JS.truthy_opt (GDRIVE_SERVICE_ACCOUNT_JSON env)
  && JS.truthy_opt (GDRIVE_BOUVIERS_FOLDER_ID env)
  && JS.truthy_opt (GDRIVE_LOWCHEN_FOLDER_ID env) = false →
  ∃ e,
    main env remote w = (Throw e, w) ∧
    run env remote w = (1, snd (console_log e w)).
Proof.
  intros H. unfold run, main, getDriveClient.
  destruct (JS.truthy_opt (GDRIVE_SERVICE_ACCOUNT_JSON env)); simpl.
  - unfold bind at 1. unfold ret at 1. cbv beta iota.
    destruct (JS.truthy_opt (GDRIVE_BOUVIERS_FOLDER_ID env)); simpl in *.
    + rewrite H. simpl. unfold throw. eauto.
    + unfold throw. eauto.
  - unfold throw. eauto.
Qed.

Lemma missing_configuration_aborts_witness :
  ∃ e,
    main {| GDRIVE_SERVICE_ACCOUNT_JSON := Some "{}";
            GDRIVE_BOUVIERS_FOLDER_ID := Some "F1";
            GDRIVE_LOWCHEN_FOLDER_ID := None |} Sample.drive3 (Sample.world ∅)
    = (Throw e, Sample.world ∅) ∧
    run {| GDRIVE_SERVICE_ACCOUNT_JSON := Some "{}";
           GDRIVE_BOUVIERS_FOLDER_ID := Some "F1";
           GDRIVE_LOWCHEN_FOLDER_ID := None |} Sample.drive3 (Sample.world ∅)
    = (1, snd (console_log e (Sample.world ∅))).
Proof.
  apply (missing_configuration_aborts
           {| GDRIVE_SERVICE_ACCOUNT_JSON := Some "{}";
              GDRIVE_BOUVIERS_FOLDER_ID := Some "F1";
              GDRIVE_LOWCHEN_FOLDER_ID := None |} Sample.drive3
           (Sample.world ∅)).
  reflexivity.
Defined.

(** ** The classifier over time *)

(** X10. Classification is monotonic: for one first-seen timestamp, the age
    in days never decreases when the time of the run increases, and an asset
    that is archived at one run is archived at every later run. *)
Theorem classify_monotonic (firstSeenIso now1 now2 : string) (t1 t2 : Z)
    (thresholdDays : Z) :
  Date.getTime now1 = Some t1 →
  Date.getTime now2 = Some t2 →
  t1 ≤ t2 →
  (∀ a1 a2,
     fst (classify firstSeenIso now1 thresholdDays) = Some a1 →
     fst (classify firstSeenIso now2 thresholdDays) = Some a2 → a1 ≤ a2) ∧
  (snd (classify firstSeenIso now1 thresholdDays) = true →
   snd (classify firstSeenIso now2 thresholdDays) = true).
Proof.
  intros H1 H2 Hle. unfold classify, daysBetweenIso. rewrite H1, H2. simpl.
  destruct (Date.getTime firstSeenIso) as [t0|]; simpl.
  - split.
    + intros a1 a2 Ha1 Ha2. injection Ha1 as <-. injection Ha2 as <-.
      apply Z.div_le_mono; lia.
    + rewrite !Z.ltb_lt. intros Hlt.
      eapply Z.lt_le_trans; [exact Hlt|]. apply Z.div_le_mono; lia.
  - split; [discriminate|auto].
Qed.

Lemma classify_monotonic_witness :
  (∀ a1 a2,
     fst (classify "2024-01-01T00:00:00.000Z" "2024-04-01T00:00:00.000Z" 90)
     = Some a1 →
     fst (classify "2024-01-01T00:00:00.000Z" "2024-06-01T00:00:00.000Z" 90)
     = Some a2 → a1 ≤ a2) ∧
  (snd (classify "2024-01-01T00:00:00.000Z" "2024-04-01T00:00:00.000Z" 90)
   = true →
   snd (classify "2024-01-01T00:00:00.000Z" "2024-06-01T00:00:00.000Z" 90)
   = true).
Proof.
  apply (classify_monotonic "2024-01-01T00:00:00.000Z"
           "2024-04-01T00:00:00.000Z" "2024-06-01T00:00:00.000Z"
           1711929600000 1717200000000 90);
    [reflexivity | reflexivity | lia].
Defined.

(** ** File names *)

Lemma safe_not_space (c : ascii) :
  JS.is_safe_char c = true → JS.is_space c = false.
Proof.
  destruct c as [b0 b1 b2 b3 b4 b5 b6 b7].
  destruct b0, b1, b2, b3, b4, b5, b6, b7; vm_compute; congruence.
Qed.

Lemma drop_spaces_safe (l : list ascii) :
  Forall (fun c => JS.is_safe_char c = true) l → JS.drop_spaces l = l.
Proof.
  destruct 1 as [|c l Hc _]; simpl; [reflexivity|].
  now rewrite (safe_not_space c Hc).
Qed.

Lemma replace_spaces_safe (l : list ascii) :
  Forall (fun c => JS.is_safe_char c = true) l →
  JS.replace_spaces false l = l.
Proof.
  induction 1 as [|c l Hc _ IH]; simpl; [reflexivity|].
  now rewrite (safe_not_space c Hc), IH.
Qed.

Lemma strip_unsafe_safe (l : list ascii) :
  Forall (fun c => JS.is_safe_char c = true) (JS.strip_unsafe l).
Proof.
  unfold JS.strip_unsafe. apply Forall_forall. intros c Hc.
  apply list_elem_of_In, List.filter_In in Hc. apply Hc.
Qed.

Lemma strip_unsafe_id (l : list ascii) :
  Forall (fun c => JS.is_safe_char c = true) l → JS.strip_unsafe l = l.
Proof.
  unfold JS.strip_unsafe. induction 1 as [|c l Hc _ IH]; simpl; [reflexivity|].
  now rewrite Hc, IH.
Qed.

Lemma trim_safe (l : list ascii) :
  Forall (fun c => JS.is_safe_char c = true) l →
  JS.trim (JS.of_chars l) = JS.of_chars l.
Proof.
  intros Hl. unfold JS.trim. rewrite chars_of_chars.
  rewrite (drop_spaces_safe l Hl).
  rewrite (drop_spaces_safe (rev l)) by now apply Forall_rev.
  now rewrite rev_involutive.
Qed.

(** What safeFilename keeps of a name: the allow-list characters, a run of
    white space counting as one underscore. *)
Lemma sanitize_eq (name : string) :
  sanitize name
  = JS.of_chars (JS.strip_unsafe (JS.replace_spaces false (JS.chars name))).
Proof. unfold sanitize. apply trim_safe, strip_unsafe_safe. Qed.

Lemma sanitize_safe (name : string) :
  Forall (fun c => JS.is_safe_char c = true) (JS.chars (sanitize name)).
Proof. rewrite sanitize_eq, chars_of_chars. apply strip_unsafe_safe. Qed.

(** X11. Sanitising is idempotent: a name that safeFilename has produced from
    a display name is left as it is by a second pass. *)
Theorem sanitize_idempotent (name : string) :
  sanitize (sanitize name) = sanitize name.
Proof.
  rewrite (sanitize_eq (sanitize name)).
  pose proof (sanitize_safe name) as Hs.
  rewrite (replace_spaces_safe _ Hs), (strip_unsafe_id _ Hs).
  apply of_chars_chars.
Qed.

Lemma take5_rev_ext (l : list ascii) (e4 e5 : string) :
  String.length e4 = 4%nat → String.length e5 = 5%nat →
  take 4 l = rev (JS.chars e4) → take 5 l = rev (JS.chars e5) →
  take 4 (rev (JS.chars e5)) = rev (JS.chars e4).
Proof.
  intros _ _ H4 H5. rewrite <- H4, <- H5.
  rewrite take_take. reflexivity.
Qed.

Lemma endsWith_take (s e : string) :
  JS.endsWith s e = true
  ↔ take (String.length e) (rev (JS.chars s)) = rev (JS.chars e).
Proof.
  unfold JS.endsWith. rewrite prefix_of_chars, length_rev, length_chars.
  reflexivity.
Qed.

Lemma extOf_cases (name : option string) :
  (∀ e, e ∈ [".jpg"; ".jpeg"; ".png"; ".webp"] →
        JS.endsWith (JS.toLowerCase (JS.or_else name "")) e = true →
        extOf name = e) ∧
  (¬ hasImageExtension (JS.or_else name "") → extOf name = ".jpg") ∧
  extOf name ∈ [".jpg"; ".jpeg"; ".png"; ".webp"].
Proof.
  set (n := JS.or_else name "").
  pose proof (lower_suffix_endsWith n ".jpeg") as Hjpeg.
  pose proof (lower_suffix_endsWith n ".webp") as Hwebp.
  pose proof (lower_suffix_endsWith n ".jpg") as Hjpg.
  pose proof (lower_suffix_endsWith n ".png") as Hpng.
  simpl String.length in *.
  assert (Hexcl : ∀ e4 e5,
            String.length e4 = 4%nat → String.length e5 = 5%nat →
            JS.endsWith (JS.toLowerCase n) e4 = true →
            JS.endsWith (JS.toLowerCase n) e5 = true →
            take 4 (rev (JS.chars e5)) = rev (JS.chars e4)).
  { intros e4 e5 L4 L5 H4 H5.
    apply endsWith_take in H4, H5. rewrite L4 in H4. rewrite L5 in H5.
    eapply take5_rev_ext; eassumption. }
  unfold extOf, image_ext_match. fold n.
  destruct (String.eqb (JS.toLowerCase (JS.suffix 5 n)) ".jpeg") eqn:E1.
  { apply String.eqb_eq in E1 as E1'. simpl. rewrite E1'.
    split; [|split; [intros Hno; exfalso; apply Hno; exists ".jpeg";
                     split; [repeat constructor | apply Hjpeg; reflexivity]
                    |repeat constructor]].
    intros e He Hend. pose proof (proj1 Hjpeg eq_refl) as E1w.
    repeat (apply elem_of_cons in He as [->|He]); try reflexivity.
    - specialize (Hexcl ".jpg" ".jpeg" eq_refl eq_refl Hend E1w). discriminate.
    - specialize (Hexcl ".png" ".jpeg" eq_refl eq_refl Hend E1w). discriminate.
    - apply endsWith_take in Hend, E1w. simpl String.length in *.
      rewrite Hend in E1w. vm_compute in E1w. discriminate.
    - apply elem_of_nil in He. destruct He. }
  destruct (String.eqb (JS.toLowerCase (JS.suffix 5 n)) ".webp") eqn:E2.
  { apply String.eqb_eq in E2 as E2'. simpl. rewrite E2'.
    split; [|split; [intros Hno; exfalso; apply Hno; exists ".webp";
                     split; [repeat constructor | apply Hwebp; reflexivity]
                    |repeat constructor]].
    intros e He Hend. pose proof (proj1 Hwebp eq_refl) as E2w.
    repeat (apply elem_of_cons in He as [->|He]); try reflexivity.
    - specialize (Hexcl ".jpg" ".webp" eq_refl eq_refl Hend E2w). discriminate.
    - apply endsWith_take in Hend, E2w. simpl String.length in *.
      rewrite Hend in E2w. vm_compute in E2w. discriminate.
    - specialize (Hexcl ".png" ".webp" eq_refl eq_refl Hend E2w). discriminate.
    - apply elem_of_nil in He. destruct He. }
  simpl.
  assert (N5 : ∀ e, e = ".jpeg" ∨ e = ".webp" →
                    JS.endsWith (JS.toLowerCase n) e = true → False).
  { intros e [-> | ->] Hend; [apply Hjpeg in Hend | apply Hwebp in Hend];
      congruence. }
  destruct (String.eqb (JS.toLowerCase (JS.suffix 4 n)) ".jpg") eqn:E3.
  { apply String.eqb_eq in E3 as E3'. simpl. rewrite E3'.
    split; [|split; [reflexivity | repeat constructor]].
    intros e He Hend. pose proof (proj1 Hjpg eq_refl) as E3w.
    repeat (apply elem_of_cons in He as [->|He]); try reflexivity.
    - destruct (N5 ".jpeg" (or_introl eq_refl) Hend).
    - apply endsWith_take in Hend, E3w. simpl String.length in *.
      rewrite Hend in E3w. vm_compute in E3w. discriminate.
    - destruct (N5 ".webp" (or_intror eq_refl) Hend).
    - apply elem_of_nil in He. destruct He. }
  destruct (String.eqb (JS.toLowerCase (JS.suffix 4 n)) ".png") eqn:E4.
  { apply String.eqb_eq in E4 as E4'. simpl. rewrite E4'.
    split; [|split; [intros Hno; exfalso; apply Hno; exists ".png";
                     split; [repeat constructor | apply Hpng; reflexivity]
                    |repeat constructor]].
    intros e He Hend. pose proof (proj1 Hpng eq_refl) as E4w.
    repeat (apply elem_of_cons in He as [->|He]); try reflexivity.
    - apply endsWith_take in Hend, E4w. simpl String.length in *.
      rewrite Hend in E4w. vm_compute in E4w. discriminate.
    - destruct (N5 ".jpeg" (or_introl eq_refl) Hend).
    - destruct (N5 ".webp" (or_intror eq_refl) Hend).
    - apply elem_of_nil in He. destruct He. }
  simpl. split; [|split; [reflexivity | repeat constructor]].
  intros e He Hend.
  repeat (apply elem_of_cons in He as [->|He]); try reflexivity.
  - destruct (N5 ".jpeg" (or_introl eq_refl) Hend).
  - apply Hpng in Hend. congruence.
  - destruct (N5 ".webp" (or_intror eq_refl) Hend).
  - apply elem_of_nil in He. destruct He.
Qed.

(** X12. The extension of a stored photo is always one of .jpg, .jpeg, .png
    and .webp, in lower case: it is the image extension the Drive name ends
    with, whatever its case, and .jpg for a name that ends with none of the
    four (a .gif or a name without extension included). *)
Theorem extOf_spec (name : option string) :
  (∀ e, e ∈ [".jpg"; ".jpeg"; ".png"; ".webp"] →
        JS.endsWith (JS.toLowerCase (JS.or_else name "")) e = true →
        extOf name = e) ∧
  (¬ hasImageExtension (JS.or_else name "") → extOf name = ".jpg") ∧
  extOf name ∈ [".jpg"; ".jpeg"; ".png"; ".webp"].
Proof. apply extOf_cases. Qed.

Example extOf_examples :
  extOf (Some "Buddy.JPeG") = ".jpeg" ∧ extOf (Some "clip.gif") = ".jpg" ∧
  extOf (Some "noext") = ".jpg" ∧ extOf None = ".jpg" ∧
  extOf (Some "a.png.webp") = ".webp".
Proof. repeat split; reflexivity. Qed.

Lemma pretty_N_go_safe (x : N) (s : string) :
  Forall (fun c => JS.is_safe_char c = true) (JS.chars s) →
  Forall (fun c => JS.is_safe_char c = true) (JS.chars (pretty_N_go x s)).
Proof.
  revert s. induction (N.lt_wf_0 x) as [x _ IH]; intros s Hs.
  assert (x = 0 ∨ 0 < x)%N as [->|Hpos] by lia.
  - now rewrite pretty_N_go_0.
  - rewrite pretty_N_go_step by assumption. apply IH.
    + now apply N.div_lt.
    + unfold JS.chars in *. simpl. constructor; [|exact Hs].
      unfold pretty_N_char. repeat case_match; reflexivity.
Qed.

Lemma pretty_Z_safe (z : Z) :
  Forall (fun c => JS.is_safe_char c = true) (JS.chars (pretty z)).
Proof.
  assert (HN : ∀ p : positive,
            Forall (fun c => JS.is_safe_char c = true)
              (JS.chars (pretty (Npos p)))).
  { intros p. unfold pretty, pretty_N.
    destruct (decide (N.pos p = 0%N)); [discriminate|].
    apply pretty_N_go_safe. constructor. }
  destruct z as [|p|p]; unfold pretty, pretty_Z.
  - repeat constructor.
  - apply HN.
  - rewrite chars_app. apply Forall_app. split; [repeat constructor|apply HN].
Qed.

Lemma hex_safe (k : nat) (x : Z) :
  Forall (fun c => JS.is_safe_char c = true) (JS.chars (Sha1.hex k x)).
Proof.
  revert x. induction k as [|k IH]; intros x; simpl; [constructor|].
  rewrite chars_app. apply Forall_app. split; [apply IH|].
  constructor; [|constructor].
  pose proof (Z.mod_pos_bound x 16 ltac:(lia)) as Hb.
  unfold Sha1.hex_digit.
  assert (x mod 16 = 0 ∨ x mod 16 = 1 ∨ x mod 16 = 2 ∨ x mod 16 = 3 ∨
          x mod 16 = 4 ∨ x mod 16 = 5 ∨ x mod 16 = 6 ∨ x mod 16 = 7 ∨
          x mod 16 = 8 ∨ x mod 16 = 9 ∨ x mod 16 = 10 ∨ x mod 16 = 11 ∨
          x mod 16 = 12 ∨ x mod 16 = 13 ∨ x mod 16 = 14 ∨ x mod 16 = 15)
    as Hcases by lia.
  repeat (destruct Hcases as [-> | Hcases]; [reflexivity|]).
  rewrite Hcases. reflexivity.
Qed.

Lemma chars_substring0 (n : nat) (s : string) :
  JS.chars (String.substring 0 n s) = take n (JS.chars s).
Proof.
  revert s. induction n as [|n IH]; intros s.
  - destruct s; reflexivity.
  - destruct s as [|c s]; [reflexivity|].
    unfold JS.chars in *. simpl. now rewrite IH.
Qed.

Lemma fingerprint_safe (id : string) :
  Forall (fun c => JS.is_safe_char c = true) (JS.chars (fingerprint id)).
Proof.
  unfold fingerprint, JS.slice0. rewrite chars_substring0.
  apply Forall_take. unfold sha1, Sha1.sha1.
  destruct (Sha1.digest (Sha1.utf8 id)) as [[[[h0 h1] h2] h3] h4].
  rewrite !chars_app, !Forall_app. repeat split; apply hex_safe.
Qed.

(** X13. The name syncBreed gives to a stored file is made of the characters
    a-z, A-Z, 0-9, dot, underscore and hyphen only, whatever the Drive name
    and id are: it contains no path separator, so the file is written
    directly in the directory of its bucket. *)
Theorem stableName_is_safe (name : option string) (id : string) (w : World) :
  ∃ n, fst (stableName name id w) = Ok n ∧
       Forall (fun c => JS.is_safe_char c = true) (JS.chars n) ∧
       Forall (fun c => Path.is_slash c = false) (JS.chars n).
Proof.
  destruct (stableName_result name id w)
    as (base & w' & Hrun & _ & _ & _ & Hyes & Hno).
  rewrite Hrun. eexists. split; [reflexivity|].
  assert (Hsafe : Forall (fun c => JS.is_safe_char c = true)
                    (JS.chars (base +:+ "_" +:+ fingerprint id
                               +:+ extOf name))).
  { rewrite !chars_app, !Forall_app.
    split; [|split; [repeat constructor|split; [apply fingerprint_safe|]]].
    - destruct (JS.truthy (sanitize (Path.parse_name
                                       (JS.or_else name "photo")))) eqn:Hb.
      + rewrite (Hyes eq_refl). apply sanitize_safe.
      + rewrite (Hno eq_refl), !chars_app, !Forall_app.
        split; [repeat constructor|].
        split; [apply pretty_Z_safe | repeat constructor].
    - destruct (extOf_cases name) as (_ & _ & He).
      repeat (apply elem_of_cons in He as [->|He]); try (repeat constructor).
      apply elem_of_nil in He. destruct He. }
  split; [exact Hsafe|].
  eapply Forall_impl; [exact Hsafe|].
  intros c Hc. destruct c as [b0 b1 b2 b3 b4 b5 b6 b7].
  destruct b0, b1, b2, b3, b4, b5, b6, b7; vm_compute in Hc |- *; congruence.
Qed.

(** ** A second sync *)

Lemma mediaCalls_app (l k : list Call) :
  mediaCalls (l ++ k) = (mediaCalls l ++ mediaCalls k)%list.
Proof. unfold mediaCalls. apply omap_app. Qed.

Lemma listPages_mediaCalls (folderId : string) (answers : Listing) :
  ∀ (pageToken : option string) (files : list DriveFile) (w : World),
  mediaCalls (calls (snd (listPages folderId pageToken answers files w)))
  = mediaCalls (calls w).
Proof.
  induction answers as [e|fl|fl tok rest IH]; intros pageToken files w;
    simpl; run_monad; try (rewrite mediaCalls_app; simpl; apply app_nil_r).
  destruct (JS.truthy tok); simpl.
  - rewrite IH. simpl. rewrite mediaCalls_app. simpl. apply app_nil_r.
  - rewrite mediaCalls_app. simpl. apply app_nil_r.
Qed.

Lemma listFilesInFolder_mediaCalls (drive : Drive) (folderId : string)
    (w : World) :
  mediaCalls (calls (snd (listFilesInFolder drive folderId w)))
  = mediaCalls (calls w).
Proof.
  unfold listFilesInFolder, bind.
  pose proof (listPages_mediaCalls folderId
                (default (ListFails "File not found")
                   (folders drive !! folderId)) None [] w) as H.
  destruct (listPages _ _ _ _ w) as [[files|e] w']; simpl in *; exact H.
Qed.

(** After a loop that ended normally, every file of the listing is
    settled. *)
Lemma loop_done (drive : Drive)
    (breedKey runNowIso currentDir archiveDir : string)
    (files : list DriveFile) :
  JS.truthy runNowIso = true →
  Forall has_base files →
  ∀ (cur : list Item) (n : Z) (w : World) (m : Manifest),
  manifestObj w = DManifest m →
  is_Some (firstSeen m !! breedKey) →
  ∀ st w',
    forOf (loopBody drive breedKey runNowIso currentDir archiveDir)
      (cur, n) files w = (Ok st, w') →
    ∃ m', manifestObj w' = DManifest m' ∧
          is_Some (firstSeen m' !! breedKey) ∧
          Forall (file_done breedKey runNowIso currentDir archiveDir
                    (fs w') m') files.
Proof.
  intros Hnow Hbases.
  induction Hbases as [|f files Hf _ IH]; intros cur n w m Hm Hk st w';
    cbn [forOf].
  - unfold ret. intros Heq. injection Heq as _ <-. exists m. auto.
  - destruct (loopBody_step drive breedKey runNowIso currentDir archiveDir
                cur n f w m Hm Hk)
      as (base & r1 & w1 & H1 & Hbase & Hm1 & Hstep).
    rewrite (Hbase Hf) in Hstep. clear Hbase.
    unfold bind. rewrite H1.
    destruct r1 as [[cur1 n1]|e]; [|discriminate].
    intros Hloop.
    pose proof (recordFirstSeen_is_Some m breedKey (f_id f) runNowIso Hk)
      as Hk1.
    destruct (IH cur1 n1 w1 _ Hm1 Hk1 st w' Hloop) as (m' & Hm' & Hk' & Hall).
    destruct (loop_settled drive breedKey runNowIso currentDir archiveDir
                files cur1 n1 w1 _ Hm1 Hk1)
      as (r & w0 & m0 & Hrun & Hm0 & Hg & Hkeep & _).
    rewrite Hloop in Hrun. injection Hrun as <- <-.
    assert (m0 = m') as -> by congruence.
    exists m'. split; [exact Hm'|]. split; [exact Hk'|].
    constructor; [|exact Hall].
    exists (snd (recordFirstSeen m breedKey (f_id f) runNowIso)).
    split.
    { destruct Hg as (_ & _ & Hval). apply Hval.
      - apply recordFirstSeen_lookup.
      - now apply recordFirstSeen_truthy. }
    split; [now apply recordFirstSeen_truthy|].
    match type of Hstep with
    | match fs w !! ?p with _ => _ end =>
        assert (Hex : is_Some (fs w1 !! p))
    end.
    { match type of Hstep with
      | match ?x with _ => _ end => destruct x as [nd|] eqn:Hp
      end.
      - destruct Hstep as (_ & -> & _). rewrite Hp. eauto.
      - destruct Hstep as (_ & Hmd).
        destruct (media drive !! f_id f) as [[b|?]|];
          destruct Hmd as [Hr Hfs]; try discriminate.
        rewrite Hfs, lookup_insert_eq. eauto. }
    destruct Hex as [nd Hnd]. exists nd. now apply Hkeep.
Qed.

(** A loop over files that are all settled, in buckets that have not
    changed, fetches nothing and changes neither the disk nor the manifest. *)
Lemma loop_skips (drive : Drive)
    (breedKey now now' currentDir archiveDir : string)
    (files : list DriveFile) (m : Manifest) :
  Forall has_base files →
  (∀ id v, lookup2 m breedKey id = Some v →
           snd (classify v now' DAYS_TO_KEEP_CURRENT)
           = snd (classify v now DAYS_TO_KEEP_CURRENT)) →
  is_Some (firstSeen m !! breedKey) →
  ∀ (cur : list Item) (n : Z) (w : World),
  manifestObj w = DManifest m →
  Forall (file_done breedKey now currentDir archiveDir (fs w) m) files →
  ∃ st w',
    forOf (loopBody drive breedKey now' currentDir archiveDir)
      (cur, n) files w = (Ok st, w') ∧
    fs w' = fs w ∧ calls w' = calls w ∧ manifestObj w' = DManifest m.
Proof.
  intros Hbases Hsame Hk.
  induction Hbases as [|f files Hf _ IH]; intros cur n w Hm Hdone;
    cbn [forOf].
  - unfold ret. exists (cur, n), w. auto.
  - apply Forall_cons in Hdone as [(v & Hv & Htv & Hex) Hdone].
    destruct (loopBody_step drive breedKey now' currentDir archiveDir
                cur n f w m Hm Hk)
      as (base & r1 & w1 & H1 & Hbase & Hm1 & Hstep).
    rewrite (Hbase Hf) in Hstep. clear Hbase.
    pose proof (recordFirstSeen_spec m breedKey (f_id f) now') as Hs.
    destruct (recordFirstSeen m breedKey (f_id f) now') as [m1 r].
    destruct Hs as (_ & Hold & _).
    destruct (Hold v Hv Htv) as [-> ->]. cbn [fst snd] in *.
    rewrite (Hsame _ _ Hv) in Hstep.
    destruct Hex as [nd Hnd]. rewrite Hnd in Hstep.
    destruct Hstep as (-> & Hfs1 & Hc1).
    unfold bind. rewrite H1.
    rewrite <- Hfs1 in Hdone.
    match goal with
    | |- context [forOf _ ?x files w1] => destruct x as [cur1 n1]
    end.
    destruct (IH cur1 n1 w1 Hm1 Hdone) as (st & w' & Hrun & Hfs & Hc & Hm').
    exists st, w'. split; [exact Hrun|].
    split; [congruence|]. split; [congruence | exact Hm'].
Qed.

Lemma listed_images_have_base (answers : Listing) :
  (∀ f, f ∈ listed answers → has_base f) →
  Forall has_base (sortFiles (List.filter isImage (listed answers))).
Proof.
  intros H. apply Forall_forall. intros f Hf.
  rewrite sortFiles_perm in Hf.
  apply list_elem_of_In, List.filter_In in Hf as [Hf _].
  apply H, list_elem_of_In, Hf.
Qed.

Lemma file_done_disk (breedKey runNowIso : string)
    (d1 d2 : gmap string Node) (m : Manifest) (f : DriveFile) :
  (∀ q, String.prefix "images/" q = true → d2 !! q = d1 !! q) →
  file_done breedKey runNowIso (currentDirOf breedKey)
    (archiveDirOf breedKey) d1 m f →
  file_done breedKey runNowIso (currentDirOf breedKey)
    (archiveDirOf breedKey) d2 m f.
Proof.
  intros Hd (v & Hv & Htv & Hex). exists v. split; [exact Hv|].
  split; [exact Htv|]. rewrite Hd; [exact Hex|].
  destruct (snd (classify v runNowIso DAYS_TO_KEEP_CURRENT));
    [apply images_prefix_archive | apply images_prefix_current].
Qed.

Lemma after_summary_lookup (breedKey runNowIso : string)
    (st : list Item * Z) (w : World) (q : string) :
  q ≠ summaryPath breedKey →
  fs (after_summary breedKey runNowIso st w) !! q = fs w !! q.
Proof. intros Hq. unfold after_summary. simpl. now apply lookup_insert_ne. Qed.

Lemma after_summary_images (breedKey runNowIso : string)
    (st : list Item * Z) (w : World) (q : string) :
  String.prefix "images/" q = true →
  fs (after_summary breedKey runNowIso st w) !! q = fs w !! q.
Proof.
  intros Hq. apply after_summary_lookup. intros ->.
  rewrite summaryPath_not_images in Hq. discriminate.
Qed.

(** After a sync that ended normally, every listed image is settled. *)
Lemma syncBreed_done (drive : Drive) (breedKey folderId runNowIso : string)
    (answers : Listing) (w w1 : World) :
  folders drive !! folderId = Some answers →
  (∀ f, f ∈ listed answers → has_base f) →
  JS.truthy runNowIso = true →
  syncBreed drive breedKey folderId runNowIso w = (Ok tt, w1) →
  ∃ m1, manifestObj w1 = DManifest m1 ∧
        is_Some (firstSeen m1 !! breedKey) ∧
        answered answers = true ∧
        Forall (file_done breedKey runNowIso (currentDirOf breedKey)
                  (archiveDirOf breedKey) (fs w1) m1)
          (sortFiles (List.filter isImage (listed answers))).
Proof.
  intros Hfolder Hbases Hnow. rewrite syncBreed_cases.
  destruct (listFilesInFolder_spec drive folderId w)
    as (r & wl & Hl & _ & Hres).
  rewrite Hl. cbn zeta in Hres. rewrite Hfolder in Hres.
  cbn [default from_option id] in Hres.
  destruct (answered answers);
    [subst r | destruct Hres as [e ->]; discriminate].
  destruct (manifestObj wl) as [m|sm|] eqn:Hmwl; try discriminate.
  destruct (forOf _ _ _ _) as [[st|e] w2] eqn:Hloop; [|discriminate].
  intros Heq. injection Heq as <-.
  destruct (loop_done drive breedKey runNowIso (currentDirOf breedKey)
              (archiveDirOf breedKey) _ Hnow
              (listed_images_have_base answers Hbases) [] 0
              (snd (set_manifestObj (DManifest (ensureBreed m breedKey)) wl))
              (ensureBreed m breedKey) eq_refl
              (ensureBreed_is_Some m breedKey) st w2 Hloop)
    as (m1 & Hm1 & Hk1 & Hall).
  exists m1. split; [exact Hm1|]. split; [exact Hk1|].
  split; [reflexivity|].
  eapply Forall_impl; [exact Hall|]. intros f.
  apply file_done_disk. intros q Hq. now apply after_summary_images.
Qed.

(** A sync that finds every listed image settled, in a bucket that has not
    changed, sends no content request. *)
Lemma syncBreed_skips (drive : Drive) (breedKey folderId now now' : string)
    (answers : Listing) (w1 : World) (m1 : Manifest) :
  folders drive !! folderId = Some answers →
  answered answers = true →
  (∀ f, f ∈ listed answers → has_base f) →
  manifestObj w1 = DManifest m1 →
  is_Some (firstSeen m1 !! breedKey) →
  Forall (file_done breedKey now (currentDirOf breedKey)
            (archiveDirOf breedKey) (fs w1) m1)
    (sortFiles (List.filter isImage (listed answers))) →
  (∀ id v, lookup2 m1 breedKey id = Some v →
           snd (classify v now' DAYS_TO_KEEP_CURRENT)
           = snd (classify v now DAYS_TO_KEEP_CURRENT)) →
  ∃ w2, syncBreed drive breedKey folderId now' w1 = (Ok tt, w2) ∧
        mediaCalls (calls w2) = mediaCalls (calls w1) ∧
        manifestObj w2 = DManifest m1 ∧
        (∀ q, q ≠ summaryPath breedKey → fs w2 !! q = fs w1 !! q).
Proof.
  intros Hfolder Hans Hbases Hm1 Hk1 Hdone Hsame. rewrite syncBreed_cases.
  pose proof (listFilesInFolder_mediaCalls drive folderId w1) as Hcalls.
  destruct (listFilesInFolder_spec drive folderId w1)
    as (r & wl & Hl & (Hfsl & Hml & _) & Hres).
  rewrite Hl in *. cbn [snd] in Hcalls.
  cbn zeta in Hres. rewrite Hfolder in Hres.
  cbn [default from_option id] in Hres.
  rewrite Hans in Hres.
  subst r. rewrite Hml, Hm1.
  rewrite (ensureBreed_present m1 breedKey Hk1).
  rewrite <- Hfsl in Hdone.
  destruct (loop_skips drive breedKey now now' (currentDirOf breedKey)
              (archiveDirOf breedKey) _ m1
              (listed_images_have_base answers Hbases) Hsame Hk1 [] 0
              (snd (set_manifestObj (DManifest m1) wl)) eq_refl Hdone)
    as (st & w2 & Hloop & Hfs2 & Hc2 & Hm2).
  rewrite Hloop. eexists. split; [reflexivity|].
  split; [|split].
  - unfold after_summary. simpl. rewrite Hc2. simpl. exact Hcalls.
  - unfold after_summary. simpl. exact Hm2.
  - intros q Hq. rewrite after_summary_lookup by exact Hq.
    rewrite Hfs2. simpl. now rewrite Hfsl.
Qed.

(** X14. A sync that ran to the end has left nothing to fetch: for the two
    collections main syncs, when every listed name keeps a character in
    safeFilename, the run time is a non-empty string and no file changes
    bucket in between, a second syncBreed of the same folder ends normally,
    sends no content request and touches no file but the summary. *)
Theorem second_sync_fetches_nothing (drive : Drive)
    (breedKey folderId now now' : string) (answers : Listing)
    (w w1 : World) (m1 : Manifest) :
  breedKey = "bouviers" ∨ breedKey = "lowchen" →
  folders drive !! folderId = Some answers →
  (∀ f, f ∈ listed answers → has_base f) →
  JS.truthy now = true →
  syncBreed drive breedKey folderId now w = (Ok tt, w1) →
  manifestObj w1 = DManifest m1 →
  (∀ id v, lookup2 m1 breedKey id = Some v →
           snd (classify v now' DAYS_TO_KEEP_CURRENT)
           = snd (classify v now DAYS_TO_KEEP_CURRENT)) →
  ∃ w2, syncBreed drive breedKey folderId now' w1 = (Ok tt, w2) ∧
        mediaCalls (calls w2) = mediaCalls (calls w1) ∧
        manifestObj w2 = manifestObj w1 ∧
        (∀ q, q ≠ summaryPath breedKey → fs w2 !! q = fs w1 !! q).
Proof.
  intros _ Hfolder Hbases Hnow Hrun Hm1 Hsame.
  destruct (syncBreed_done drive breedKey folderId now answers w w1
              Hfolder Hbases Hnow Hrun) as (m & Hm & Hk & Hans & Hdone).
  assert (m = m1) as -> by congruence.
  destruct (syncBreed_skips drive breedKey folderId now now' answers w1 m1
              Hfolder Hans Hbases Hm1 Hk Hdone Hsame)
    as (w2 & H2 & Hc & Hm2 & Hfs).
  exists w2. rewrite Hm1. auto.
Qed.

Lemma second_sync_fetches_nothing_witness :
  ∃ w2,
    syncBreed Sample.drive3 "bouviers" "F1" "2024-11-03T10:34:15.123Z"
      (snd (syncBreed Sample.drive3 "bouviers" "F1" Sample.runNow
              (Sample.ready Sample.manifest3 ∅)))
    = (Ok tt, w2) ∧
    mediaCalls (calls w2)
    = mediaCalls (calls (snd (syncBreed Sample.drive3 "bouviers" "F1"
                                Sample.runNow
                                (Sample.ready Sample.manifest3 ∅)))) ∧
    manifestObj w2
    = manifestObj (snd (syncBreed Sample.drive3 "bouviers" "F1" Sample.runNow
                          (Sample.ready Sample.manifest3 ∅))) ∧
    (∀ q, q ≠ summaryPath "bouviers" →
          fs w2 !! q
          = fs (snd (syncBreed Sample.drive3 "bouviers" "F1" Sample.runNow
                       (Sample.ready Sample.manifest3 ∅))) !! q).
Proof.
  apply (second_sync_fetches_nothing Sample.drive3 "bouviers" "F1"
           Sample.runNow "2024-11-03T10:34:15.123Z"
           (LastPage (Some [Sample.pZ; Sample.pW; Sample.pX; Sample.pY]))
           (Sample.ready Sample.manifest3 ∅) _ Sample.manifest3).
  - left. reflexivity.
  - reflexivity.
  - intros f Hf. apply list_elem_of_In in Hf. simpl in Hf.
    destruct Hf as [<-|[<-|[<-|[<-|[]]]]]; vm_compute; reflexivity.
  - reflexivity.
  - apply pair_fst_snd. vm_compute. reflexivity.
  - vm_compute. reflexivity.
  - intros id v Hv. unfold lookup2 in Hv.
    assert (Hi : firstSeen Sample.manifest3 !! "bouviers"
                 = Some {[ "idW" := "2024-01-01T00:00:00.000Z";
                           "idX" := "2024-10-02T00:00:00.000Z";
                           "idY" := "2024-10-01T00:00:00.000Z";
                           "idZ" := "2024-10-03T00:00:00.000Z";
                           "idGone" := "2024-02-02T00:00:00.000Z" ]})
      by (vm_compute; reflexivity).
    rewrite Hi in Hv. cbn [mbind option_bind] in Hv.
    apply elem_of_map_to_list, list_elem_of_In in Hv.
    match type of Hv with
    | In _ ?l =>
        assert (Hl : l = [("idW", "2024-01-01T00:00:00.000Z");
                          ("idGone", "2024-02-02T00:00:00.000Z");
                          ("idY", "2024-10-01T00:00:00.000Z");
                          ("idZ", "2024-10-03T00:00:00.000Z");
                          ("idX", "2024-10-02T00:00:00.000Z")])
          by (vm_compute; reflexivity);
        rewrite Hl in Hv
    end.
    cbn [In] in Hv.
    repeat (destruct Hv as [Hv|Hv];
            [injection Hv as <- <-; vm_compute; reflexivity|]).
    destruct Hv.
Defined.

(** ** A manifest file of another shape *)

(** With a manifest file that holds JSON but no manifest, every run throws:
    at the configuration, at the listing of the first collection, or at the
    first use of [manifest.firstSeen]. *)
Lemma main_with_other_document (env : Env) (remote : Drive) (w : World)
    (d : JsonDoc) :
  fs w !! MANIFEST_PATH = Some (File (Json d)) →
  (∀ m, d ≠ DManifest m) →
  ∃ e w', main env remote w = (Throw e, w') ∧ fs w' = fs w ∧
          mediaCalls (calls w') = mediaCalls (calls w).
Proof.
  intros Hfile Hd. unfold main, getDriveClient.
  destruct (negb (JS.truthy_opt (GDRIVE_SERVICE_ACCOUNT_JSON env))).
  { unfold bind, throw. eauto. }
  unfold bind at 1. unfold ret at 1. cbv beta iota.
  destruct (negb (JS.truthy_opt (GDRIVE_BOUVIERS_FOLDER_ID env))
            || negb (JS.truthy_opt (GDRIVE_LOWCHEN_FOLDER_ID env))).
  { unfold throw. eauto. }
  unfold nowIso, Date_now. unfold bind at 1 2. unfold ret at 1.
  cbv beta iota.
  unfold bind at 1. rewrite readManifest_result. cbn [fs]. rewrite Hfile.
  unfold bind at 1. unfold set_manifestObj at 1. cbv beta iota.
  unfold bind at 1. rewrite syncBreed_cases.
  match goal with
  | |- context [listFilesInFolder remote ?fid ?w0] =>
      pose proof (listFilesInFolder_mediaCalls remote fid w0) as Hcalls;
      destruct (listFilesInFolder_spec remote fid w0)
        as (r & wl & Hl & (Hfs & Hm & _) & _)
  end.
  rewrite Hl in *. cbn [snd fs calls manifestObj] in Hcalls, Hfs, Hm.
  destruct r as [files|e]; [|eauto].
  rewrite Hm. destruct d as [m|sm|]; [destruct (Hd m eq_refl)|eauto..].
Qed.

(** C6 (failing input).  A manifest file that holds well-formed JSON of
    another shape (null, an empty object, an array: any document without a
    [firstSeen] object) is loaded without error, but it is not taken for an
    empty store: readManifest returns it as parsed, and the run then throws
    at the first use of [manifest.firstSeen] (or earlier), whatever the
    configuration and the remote store are.  No photo is requested, no
    summary is written, the manifest file is left as it was and the process
    ends with status 1; with a manifest file that is no JSON at all, the
    same run goes through. *)
Theorem wrong_shape_manifest_is_fatal (env : Env) (remote : Drive)
    (disk : gmap string Node) :
  let w := Sample.world (<[MANIFEST_PATH := File (Json DOther)]> disk) in
  readManifest w = (Ok DOther, w) ∧
  (∃ e, fst (main env remote w) = Throw e) ∧
  fst (run env remote w) = 1 ∧
  mediaCalls (calls (snd (main env remote w))) = [] ∧
  fs (snd (main env remote w)) !! MANIFEST_PATH
  = Some (File (Json DOther)) ∧
  fs (snd (main env remote w)) !! summaryPath "bouviers"
  = disk !! summaryPath "bouviers" ∧
  fs (snd (main env remote w)) !! summaryPath "lowchen"
  = disk !! summaryPath "lowchen" ∧
  (let r := run Sample.env Sample.drive1
              (Sample.world {[ MANIFEST_PATH := File (Json DOther) ]}) in
   fst r = 1 ∧ console (snd r) = ["TypeError"] ∧
   calls (snd r) = [CallList "F1" None]) ∧
  (let r := run Sample.env Sample.drive1
              (Sample.world {[ MANIFEST_PATH := File (Bytes "{ver") ]}) in
   fst r = 0 ∧
   is_Some (fs (snd r) !! summaryPath "bouviers")).
Proof.
  intros w.
  assert (Hfile : fs w !! MANIFEST_PATH = Some (File (Json DOther)))
    by apply lookup_insert_eq.
  destruct (main_with_other_document env remote w DOther Hfile
              ltac:(discriminate)) as (e & w' & Hrun & Hfs & Hcalls).
  split.
  { rewrite readManifest_result, Hfile. reflexivity. }
  unfold run. rewrite Hrun. cbn [fst snd].
  split; [eauto|]. split; [reflexivity|]. split; [exact Hcalls|].
  rewrite Hfs. split; [exact Hfile|].
  split; [apply lookup_insert_ne; discriminate|].
  split; [apply lookup_insert_ne; discriminate|].
  split.
  - cbv zeta. split; [vm_compute; reflexivity|].
    split; vm_compute; reflexivity.
  - cbv zeta. split; [vm_compute; reflexivity|].
    vm_compute. eexists. reflexivity.
Qed.

(** * The availability export *)

(** ** Finding a column *)

Lemma indexOf_spec (x : string) (l : list string) :
  ∀ i, 0 ≤ i →
  (Avail.indexOf l x i = -1 ∧ x ∉ l) ∨
  (i ≤ Avail.indexOf l x i ∧
   l !! Z.to_nat (Avail.indexOf l x i - i) = Some x ∧
   x ∉ take (Z.to_nat (Avail.indexOf l x i - i)) l).
Proof.
  induction l as [|y l IH]; intros i Hi; simpl.
  - left. split; [reflexivity|]. apply not_elem_of_nil.
  - destruct (String.eqb_spec y x) as [->|Hne].
    + right. rewrite Z.sub_diag. simpl. split; [lia|].
      split; [reflexivity|]. apply not_elem_of_nil.
    + destruct (IH (i + 1) ltac:(lia)) as [[-> Hnot]|(Hle & Hat & Hbefore)].
      * left. split; [reflexivity|]. rewrite elem_of_cons.
        intros [->|H]; [congruence | contradiction].
      * right. split; [lia|].
        replace (Z.to_nat (Avail.indexOf l x (i + 1) - i))
          with (S (Z.to_nat (Avail.indexOf l x (i + 1) - (i + 1)))) by lia.
        simpl. split; [exact Hat|]. rewrite elem_of_cons.
        intros [->|H]; [congruence | contradiction].
Qed.

Lemma firstCandidate_spec (lower : list string) (candidates : list string) :
  (Avail.firstCandidate lower candidates = -1 ∧
   ∀ c, c ∈ candidates → JS.toLowerCase c ∉ lower) ∨
  (0 ≤ Avail.firstCandidate lower candidates ∧
   ∃ pre c post,
     candidates = (pre ++ c :: post)%list ∧
     (∀ c', c' ∈ pre → JS.toLowerCase c' ∉ lower) ∧
     lower !! Z.to_nat (Avail.firstCandidate lower candidates)
     = Some (JS.toLowerCase c) ∧
     JS.toLowerCase c
     ∉ take (Z.to_nat (Avail.firstCandidate lower candidates)) lower).
Proof.
  induction candidates as [|c cs IH]; simpl.
  - left. split; [reflexivity|]. intros c Hc. now apply elem_of_nil in Hc.
  - destruct (indexOf_spec (JS.toLowerCase c) lower 0 ltac:(lia))
      as [[Hidx Hnot]|(Hle & Hat & Hbefore)].
    + rewrite Hidx. simpl.
      destruct IH as [[Hr Hall]|(Hle & pre & c0 & post & -> & Hpre & Hat)].
      * left. split; [exact Hr|]. intros c' Hc'.
        apply elem_of_cons in Hc' as [->|Hc']; auto.
      * right. split; [exact Hle|].
        exists (c :: pre), c0, post. split; [reflexivity|].
        split; [|exact Hat]. intros c' Hc'.
        apply elem_of_cons in Hc' as [->|Hc']; auto.
    + destruct (Z.eqb_spec (Avail.indexOf lower (JS.toLowerCase c) 0) (-1))
        as [Heq|Hne]; [lia|]. simpl.
      rewrite Z.sub_0_r in Hat, Hbefore.
      right. split; [exact Hle|].
      exists [], c, cs. split; [reflexivity|].
      split; [|split; assumption].
      intros c' Hc'. now apply elem_of_nil in Hc'.
Qed.

(** X15. findHeaderIndex returns -1 exactly when no candidate names a header,
    letter case apart.  Otherwise it returns the position of a header named
    by the first candidate that names any header, and the leftmost header
    with that name: the order of the candidates decides before the order of
    the columns. *)
Theorem findHeaderIndex_spec (headers candidates : list string) :
  let idx := Avail.findHeaderIndex headers candidates in
  (idx = -1 ∧
   ∀ c h, c ∈ candidates → h ∈ headers →
          JS.toLowerCase h ≠ JS.toLowerCase c) ∨
  (0 ≤ idx ∧
   ∃ pre c post h,
     candidates = (pre ++ c :: post)%list ∧
     (∀ c' h', c' ∈ pre → h' ∈ headers →
               JS.toLowerCase h' ≠ JS.toLowerCase c') ∧
     headers !! Z.to_nat idx = Some h ∧
     JS.toLowerCase h = JS.toLowerCase c ∧
     ∀ h', h' ∈ take (Z.to_nat idx) headers →
           JS.toLowerCase h' ≠ JS.toLowerCase c).
Proof.
  cbv zeta. unfold Avail.findHeaderIndex.
  destruct (firstCandidate_spec (map JS.toLowerCase headers) candidates)
    as [[Hr Hall]|(Hle & pre & c & post & Hc & Hpre & Hat & Hbefore)].
  - left. split; [exact Hr|]. intros c h Hc Hh Heq.
    apply (Hall c Hc). rewrite <- Heq.
    apply list_elem_of_fmap. eauto.
  - right. split; [exact Hle|].
    rewrite list_lookup_fmap in Hat.
    destruct (headers !! _) as [h|] eqn:Hh; [|discriminate].
    injection Hat as Hat.
    exists pre, c, post, h. split; [exact Hc|].
    split; [|split; [reflexivity|split; [exact Hat|]]].
    + intros c' h' Hc' Hh' Heq. apply (Hpre c' Hc'). rewrite <- Heq.
      apply list_elem_of_fmap. eauto.
    + intros h' Hh' Heq. apply Hbefore. rewrite <- Heq, <- fmap_take.
      apply list_elem_of_fmap. eauto.
Qed.

(** ** The photo of a row *)

Lemma outNameFor_shape (fileId : string) (meta : option string * option string) :
  fst (outNameFor fileId meta) = fileId +:+ "." +:+ snd (outNameFor fileId meta)
  ∧ JS.truthy (snd (outNameFor fileId meta)) = true.
Proof.
  unfold outNameFor. cbv zeta.
  set (a := extFromName (JS.or_else (fst meta) fileId)).
  set (b := extFromMime (JS.or_else (snd meta) "")).
  destruct (JS.truthy a) eqn:Ha.
  - rewrite Ha. cbn [negb fst snd]. auto.
  - destruct (JS.truthy b) eqn:Hb.
    + rewrite Hb. cbn [negb fst snd]. auto.
    + cbn [JS.truthy negb fst snd]. auto.
Qed.

(** What a call of downloadDriveImageToRepo leaves: no file disappears, and
    the file of a returned record is on the disk. *)
Lemma download_result (drive : Drive) (fileId destDir : string) (w : World) :
  ∃ r w', downloadDriveImageToRepo drive fileId destDir w = (r, w') ∧
    (∀ q, is_Some (fs w !! q) → is_Some (fs w' !! q)) ∧
    (∀ dl, r = Ok dl →
       ∃ meta, metadata drive !! fileId = Some meta ∧
               outName dl = fst (outNameFor fileId meta) ∧
               ∀ p, p = Path.join destDir (outName dl) →
                    is_Some (fs w' !! p)).
Proof.
  unfold downloadDriveImageToRepo.
  destruct (metadata drive !! fileId) as [meta|] eqn:Hmeta.
  2:{ exists (Throw "metadata request failed"),
             (snd (log_call (CallMeta fileId) w)).
      split; [reflexivity|]. split; [intros q Hq; exact Hq | discriminate]. }
  remember (outNameFor fileId meta) as names eqn:Hnames.
  destruct names as [oname oext].
  set (p := Path.join destDir oname).
  unfold bind at 1 2. unfold ensureDir, ret at 1. unfold log_call at 1.
  unfold bind at 1. rewrite existsSync_eq. cbn [fs].
  assert (Hins : ∀ b q, is_Some (fs w !! q) →
                        is_Some (<[p := File (Bytes b)]> (fs w) !! q)).
  { intros b q Hq. destruct (decide (q = p)) as [->|Hne].
    - rewrite lookup_insert_eq. eauto.
    - now rewrite lookup_insert_ne by congruence. }
  assert (Hgot : ∀ (d : gmap string Node) (dl : Download),
            is_Some (d !! p) →
            Ok {| outPath := p; outName := oname; ext := oext |} = Ok dl →
            ∃ meta0, Some meta = Some meta0 ∧
                     outName dl = fst (outNameFor fileId meta0) ∧
                     ∀ p0, p0 = Path.join destDir (outName dl) →
                           is_Some (d !! p0)).
  { intros d dl Hp [= <-]. exists meta. split; [reflexivity|].
    rewrite <- Hnames. split; [reflexivity|]. intros p0 ->. exact Hp. }
  destruct (fs w !! p) as [n|] eqn:Hp.
  - unfold bind at 1. unfold fs_statSync_size. cbn [fs]. rewrite Hp.
    destruct (Z.ltb_spec 0 (size_of n)) as [Hpos|Hzero].
    + unfold bind, ret. cbn beta iota. cbn [andb].
      eexists; eexists; split; [reflexivity|]. cbn [fs].
      split; [auto|]. intros dl. apply Hgot. rewrite Hp. eauto.
    + unfold bind, ret, throw, log_call, fs_writeFileSync, set_fs.
      cbn beta iota. cbn [andb].
      destruct (media drive !! fileId) as [[bytes|partial]|];
        (eexists; eexists; split; [reflexivity|]); cbn [fs];
        (split; [auto|]); try discriminate.
      intros dl. apply Hgot. rewrite lookup_insert_eq. eauto.
  - unfold bind, ret, throw, log_call, fs_writeFileSync, set_fs.
    cbn beta iota. cbn [andb].
    destruct (media drive !! fileId) as [[bytes|partial]|];
      (eexists; eexists; split; [reflexivity|]); cbn [fs];
      (split; [auto|]); try discriminate.
    intros dl. apply Hgot. rewrite lookup_insert_eq. eauto.
Qed.

(** The photo of a row is the value of its Photo column, or the path of a
    file that is on the disk. *)
Lemma rowPhoto_result (drive : Drive) (photoId photo : string) (w : World) :
  ∃ p w', rowPhoto drive photoId photo w = (Ok p, w') ∧
    (∀ q, is_Some (fs w !! q) → is_Some (fs w' !! q)) ∧
    (JS.truthy photoId = false → p = photo ∧ w' = w) ∧
    (p = photo ∨
     ∃ e, JS.truthy e = true ∧
          p = "assets/available-photos/" +:+ photoId +:+ "." +:+ e ∧
          is_Some (fs w' !! p)).
Proof.
  unfold rowPhoto. destruct (JS.truthy photoId) eqn:Hid.
  2:{ unfold ret. exists photo, w. auto. }
  unfold try_catch, bind.
  destruct (download_result drive photoId repoImageDir w)
    as (r & w1 & Hrun & Hkeep & Hres).
  rewrite Hrun. destruct r as [dl|e].
  - unfold ret. eexists; eexists. split; [reflexivity|].
    split; [exact Hkeep|]. split; [discriminate|]. right.
    destruct (Hres dl eq_refl) as (meta & _ & Hname & Hdisk).
    destruct (outNameFor_shape photoId meta) as [Hshape Hext].
    exists (snd (outNameFor photoId meta)). split; [exact Hext|].
    rewrite Hname, Hshape. split; [reflexivity|].
    apply Hdisk. rewrite Hname, Hshape. reflexivity.
  - unfold console_log, ret. eexists; eexists.
    split; [reflexivity|]. cbn [fs]. split; [exact Hkeep|].
    split; [discriminate|]. left. reflexivity.
Qed.

(** ** The rows *)

Lemma entry_of_disk (headers : list string) (d1 d2 : gmap string Node)
    (p : Avail.Puppy) (r : Avail.Row) :
  (∀ q, is_Some (d1 !! q) → is_Some (d2 !! q)) →
  Avail.entry_of headers d1 p r → Avail.entry_of headers d2 p r.
Proof.
  intros Hd (A & B & C & D & E & F & G).
  repeat (split; [assumption|]).
  destruct G as [G|(e & He & Hp & Hdisk)]; [left; exact G|].
  right. exists e. auto.
Qed.

(** The loop over the rows: one entry for each available row, in order. *)
Lemma rows_loop (drive : Drive) (headers : list string)
    (rows : list Avail.Row) :
  ∀ (acc : list Avail.Puppy) (w : World),
  ∃ av w',
    forOf (Avail.rowStep drive headers) acc rows w
    = (Ok (acc ++ av)%list, w') ∧
    (∀ q, is_Some (fs w !! q) → is_Some (fs w' !! q)) ∧
    Forall2 (Avail.entry_of headers (fs w')) av
      (List.filter (Avail.isAvail (Avail.idxAvailOf headers)) rows) ∧
    ((∀ r, r ∈ rows → Avail.isAvail (Avail.idxAvailOf headers) r = true →
           Avail.photoIdOf headers r = "") →
     w' = w ∧
     Forall2 (fun p r => Avail.photo p = Avail.photoOf headers r) av
       (List.filter (Avail.isAvail (Avail.idxAvailOf headers)) rows)).
Proof.
  induction rows as [|r rows IH]; intros acc w; cbn [forOf List.filter].
  - exists [], w. rewrite app_nil_r. unfold ret. auto.
  - unfold bind at 1. unfold Avail.rowStep at 1.
    destruct (Avail.isAvail (Avail.idxAvailOf headers) r) eqn:Hav;
      cbn [negb].
    + destruct (rowPhoto_result drive (Avail.photoIdOf headers r)
                  (Avail.photoOf headers r) w)
        as (p & w1 & Hp & Hkeep1 & Hnone & Hphoto).
      unfold bind at 1. rewrite Hp. unfold ret at 1.
      destruct (IH (acc ++ [ {|
                  Avail.litter := Avail.field r (Avail.idxLitterOf headers);
                  Avail.dob := Avail.field r (Avail.idxDobOf headers);
                  Avail.collarColor :=
                    Avail.field r (Avail.idxCollarOf headers);
                  Avail.sex := Avail.field r (Avail.idxSexOf headers);
                  Avail.coatColor := Avail.field r (Avail.idxCoatOf headers);
                  Avail.photoId := Avail.photoIdOf headers r;
                  Avail.photo := p |} ])%list w1)
        as (av & w' & Hrun & Hkeep & Hall & Hsame).
      eexists (_ :: av), w'. split.
      { rewrite Hrun, <- app_assoc. reflexivity. }
      split; [auto|]. split.
      * constructor; [|exact Hall].
        apply (entry_of_disk headers (fs w1)); [exact Hkeep|].
        repeat (split; [reflexivity|]). cbn [Avail.photo Avail.photoId].
        exact Hphoto.
      * intros Hno.
        assert (Hid : Avail.photoIdOf headers r = "")
          by (apply Hno; [left | exact Hav]).
        rewrite Hid in Hnone. destruct (Hnone eq_refl) as [-> ->].
        destruct Hsame as [-> Hphotos].
        { intros r' Hr'. apply Hno. now right. }
        split; [reflexivity|]. constructor; [reflexivity | exact Hphotos].
    + unfold ret at 1.
      destruct (IH acc w) as (av & w' & Hrun & Hkeep & Hall & Hsame).
      exists av, w'. split; [exact Hrun|]. split; [exact Hkeep|].
      split; [exact Hall|]. intros Hno. apply Hsame.
      intros r' Hr'. apply Hno. now right.
Qed.

(** X16. buildAvailability never throws, whatever the sheet holds and whatever
    the remote store answers.  Its output has one entry for each row whose
    availability cell is checked, in the order of the sheet, with the cells
    of that row; availableCount is the number of entries; and the photo of
    an entry is the value of the Photo column or, after a download, the
    repository path of a file that is on the disk, with an extension that
    is not empty. *)
Theorem buildAvailability_lists_available_rows (drive : Drive)
    (headers : list string) (rows : list Avail.Row) (breedKey : string)
    (w : World) :
  ∃ out w',
    Avail.buildAvailability drive headers rows breedKey w = (Ok out, w') ∧
    Avail.breed out = breedKey ∧
    Avail.availableCount out = Z.of_nat (length (Avail.available out)) ∧
    Forall2 (Avail.entry_of headers (fs w')) (Avail.available out)
      (List.filter (Avail.isAvail (Avail.idxAvailOf headers)) rows).
Proof.
  unfold Avail.buildAvailability.
  destruct (rows_loop drive headers rows [] w)
    as (av & w1 & Hrun & _ & Hall & _).
  unfold bind at 1. rewrite Hrun. cbn [app].
  unfold nowIso, Date_now, bind, ret. cbn beta iota.
  eexists; eexists. split; [reflexivity|]. cbn.
  repeat split; exact Hall.
Qed.

(** X17. When no available row carries a photo id (the sheet has no PhotoId
    column, or the cells are blank), buildAvailability sends no request,
    writes no file and logs nothing, and every photo is the value of the
    Photo column. *)
Theorem rows_without_photo_id_need_no_request (drive : Drive)
    (headers : list string) (rows : list Avail.Row) (breedKey : string)
    (w : World) :
  (∀ r, r ∈ rows → Avail.isAvail (Avail.idxAvailOf headers) r = true →
        Avail.photoIdOf headers r = "") →
  ∃ out w',
    Avail.buildAvailability drive headers rows breedKey w = (Ok out, w') ∧
    fs w' = fs w ∧ calls w' = calls w ∧ console w' = console w ∧
    Forall2 (fun p r => Avail.photo p = Avail.photoOf headers r)
      (Avail.available out)
      (List.filter (Avail.isAvail (Avail.idxAvailOf headers)) rows).
Proof.
  intros Hno. unfold Avail.buildAvailability.
  destruct (rows_loop drive headers rows [] w)
    as (av & w1 & Hrun & _ & _ & Hsame).
  destruct (Hsame Hno) as [-> Hphotos].
  unfold bind at 1. rewrite Hrun. cbn [app].
  unfold nowIso, Date_now, bind, ret. cbn beta iota.
  eexists; eexists. split; [reflexivity|]. cbn.
  repeat split; exact Hphotos.
Qed.

Lemma rows_without_photo_id_need_no_request_witness :
  ∃ out w',
    Avail.buildAvailability Sample.drive1 ["Available?"; "Litter"; "Photo"]
      [["TRUE"; "A"; " https://example.org/a.jpg "]; ["no"; "B"]; ["y"]]
      "bouviers" (Sample.world ∅) = (Ok out, w') ∧
    fs w' = fs (Sample.world ∅) ∧ calls w' = calls (Sample.world ∅) ∧
    console w' = console (Sample.world ∅) ∧
    Forall2 (fun p r =>
               Avail.photo p
               = Avail.photoOf ["Available?"; "Litter"; "Photo"] r)
      (Avail.available out)
      (List.filter
         (Avail.isAvail (Avail.idxAvailOf ["Available?"; "Litter"; "Photo"]))
         [["TRUE"; "A"; " https://example.org/a.jpg "]; ["no"; "B"]; ["y"]]).
Proof.
  apply (rows_without_photo_id_need_no_request Sample.drive1
           ["Available?"; "Litter"; "Photo"]).
  intros r _ _. vm_compute. reflexivity.
Defined.

(** ** Photo ids *)

Lemma is_slash_eqb (c : ascii) : Ascii.eqb "/" c = Path.is_slash c.
Proof.
  destruct c as [[] [] [] [] [] [] [] []]; vm_compute; reflexivity.
Qed.

Lemma run_until_stop (stop : ascii → bool) (l : list ascii) :
  Forall (fun c => stop c = false) (Avail.run_until stop l).
Proof.
  induction l as [|c l IH]; simpl; [constructor|].
  destruct (stop c) eqn:Hc; constructor; assumption.
Qed.

Lemma first_group_Some (lit : list ascii → option (list ascii))
    (stop : ascii → bool) (l g : list ascii) :
  Avail.first_group lit stop l = Some g →
  g ≠ [] ∧ Forall (fun c => stop c = false) g.
Proof.
  assert (Hhere : ∀ l, Avail.group_here lit stop l = Some g →
                       g ≠ [] ∧ Forall (fun c => stop c = false) g).
  { intros l0. unfold Avail.group_here.
    destruct (lit l0) as [rest|]; [|discriminate].
    pose proof (run_until_stop stop rest) as Hall.
    destruct (Avail.run_until stop rest) as [|c g0]; [discriminate|].
    intros [= <-]. split; [discriminate | exact Hall]. }
  induction l as [|c l IH]; simpl.
  - destruct (Avail.group_here lit stop []) eqn:H; [|discriminate].
    intros [= <-]. eauto.
  - destruct (Avail.group_here lit stop (c :: l)) eqn:H.
    + intros [= <-]. eauto.
    + exact IH.
Qed.

Lemma first_group_None (lit : list ascii → option (list ascii))
    (stop : ascii → bool) (l : list ascii) :
  (∀ k, lit (drop k l) = None) → Avail.first_group lit stop l = None.
Proof.
  induction l as [|c l IH]; intros Hlit; pose proof (Hlit 0%nat) as H0;
    cbn [drop] in H0; cbn [Avail.first_group]; unfold Avail.group_here;
    rewrite H0; [reflexivity|].
  apply IH. intros k. apply (Hlit (S k)).
Qed.

Lemma no_link_without_slash (l : list ascii) :
  Forall (fun c => Path.is_slash c = false) l →
  ∀ k, Avail.strip_prefix (JS.chars "/file/d/") (drop k l) = None.
Proof.
  intros Hl k.
  assert (Hd : Forall (fun c => Path.is_slash c = false) (drop k l))
    by (apply Forall_drop, Hl).
  destruct (drop k l) as [|c l']; [reflexivity|].
  apply Forall_cons in Hd as [Hc _].
  change (JS.chars "/file/d/") with ("/"%char :: JS.chars "file/d/").
  cbn [Avail.strip_prefix]. now rewrite is_slash_eqb, Hc.
Qed.

Lemma no_param_without_equals (l : list ascii) :
  Forall (fun c => Ascii.eqb c "=" = false) l →
  ∀ k, Avail.id_param (drop k l) = None.
Proof.
  intros Hl k.
  assert (Hd : Forall (fun c => Ascii.eqb c "=" = false) (drop k l))
    by (apply Forall_drop, Hl).
  destruct (drop k l) as [|c l1]; [reflexivity|].
  unfold Avail.id_param. destruct (_ || _); [|reflexivity].
  apply Forall_cons in Hd as [_ Hd].
  change (JS.chars "id=") with ["i"; "d"; "="]%char.
  destruct l1 as [|c1 l1]; [reflexivity|]. cbn [Avail.strip_prefix].
  destruct (Ascii.eqb "i" c1); [|reflexivity].
  apply Forall_cons in Hd as [_ Hd].
  destruct l1 as [|c2 l1]; [reflexivity|]. cbn [Avail.strip_prefix].
  destruct (Ascii.eqb "d" c2); [|reflexivity].
  apply Forall_cons in Hd as [_ Hd].
  destruct l1 as [|c3 l1]; [reflexivity|]. cbn [Avail.strip_prefix].
  apply Forall_cons in Hd as [H3 _].
  rewrite Ascii.eqb_sym, H3. reflexivity.
Qed.

Lemma truthy_of_chars (g : list ascii) :
  g ≠ [] → JS.truthy (JS.of_chars g) = true.
Proof. destruct g; [congruence | reflexivity]. Qed.

Lemma truthy_chars (v : string) : JS.chars v ≠ [] → JS.truthy v = true.
Proof. destruct v; [intros H; now destruct H | reflexivity]. Qed.

Lemma strip_prefix_app (p l : list ascii) :
  Avail.strip_prefix p (p ++ l) = Some l.
Proof.
  induction p as [|a p IH]; simpl; [now destruct l|].
  now rewrite Ascii.eqb_refl.
Qed.

Lemma strip_prefix_None (p l : list ascii) :
  ¬ p `prefix_of` l → Avail.strip_prefix p l = None.
Proof.
  revert l. induction p as [|a p IH]; intros l Hno.
  - destruct Hno. apply prefix_nil.
  - destruct l as [|b l]; [reflexivity|]. simpl.
    destruct (Ascii.eqb_spec a b) as [->|Hne]; [|reflexivity].
    apply IH. intros Hp. apply Hno. now apply prefix_cons.
Qed.

Lemma run_until_app (stop : ascii → bool) (seg rest : list ascii) :
  Forall (fun c => stop c = false) seg →
  (rest = [] ∨ ∃ c r, rest = c :: r ∧ stop c = true) →
  Avail.run_until stop (seg ++ rest) = seg.
Proof.
  intros Hseg Hrest. induction Hseg as [|c seg Hc _ IH]; simpl.
  - destruct Hrest as [->|(c & r & -> & Hc)]; [reflexivity|].
    simpl. now rewrite Hc.
  - now rewrite Hc, IH.
Qed.

(** The group of the leftmost match, when the literal part is first found
    behind [pre] and a segment follows it. *)
Lemma first_group_at (lit : list ascii → option (list ascii))
    (stop : ascii → bool) (tail seg rest : list ascii) :
  lit tail = Some (seg ++ rest)%list →
  seg ≠ [] →
  Forall (fun c => stop c = false) seg →
  (rest = [] ∨ ∃ c r, rest = c :: r ∧ stop c = true) →
  ∀ pre,
    (∀ k, (k < length pre)%nat → lit (drop k (pre ++ tail)) = None) →
    Avail.first_group lit stop (pre ++ tail) = Some seg.
Proof.
  intros Hlit Hne Hseg Hrest.
  assert (Hhere : Avail.group_here lit stop tail = Some seg).
  { unfold Avail.group_here. rewrite Hlit, (run_until_app _ _ _ Hseg Hrest).
    destruct seg; [congruence | reflexivity]. }
  induction pre as [|c pre IH]; intros Hpre.
  - destruct tail; simpl in *; now rewrite Hhere.
  - pose proof (Hpre 0%nat ltac:(simpl; lia)) as H0.
    cbn [drop app] in H0.
    cbn [app Avail.first_group]. unfold Avail.group_here at 1.
    rewrite H0.
    apply IH. intros k Hk. apply (Hpre (S k)). simpl. lia.
Qed.

Lemma id_param_None (l : list ascii) :
  ¬ JS.chars "?id=" `prefix_of` l → ¬ JS.chars "&id=" `prefix_of` l →
  Avail.id_param l = None.
Proof.
  intros Hq Ha. destruct l as [|c l]; [reflexivity|].
  unfold Avail.id_param.
  destruct (Ascii.eqb_spec c "?") as [->|_]; cbn [orb].
  - apply strip_prefix_None. intros Hp. apply Hq.
    change (JS.chars "?id=") with ("?"%char :: JS.chars "id=").
    now apply prefix_cons.
  - destruct (Ascii.eqb_spec c "&") as [->|_]; [|reflexivity].
    apply strip_prefix_None. intros Hp. apply Ha.
    change (JS.chars "&id=") with ("&"%char :: JS.chars "id=").
    now apply prefix_cons.
Qed.

(** X18. sanitizeDriveId gives the empty string exactly for a cell that is
    absent or blank.  For a value in which /file/d/ first occurs behind
    [pre] and is followed by a segment that runs to the next slash or to the
    end, the result is that segment.  For a value without /file/d/ in which
    ?id= or &id= first occurs behind [pre], followed by a segment that runs
    to the next ampersand or to the end, the result is that segment.  A
    value without slash and without equals sign is returned as it is,
    trimmed. *)
Theorem sanitizeDriveId_spec (raw : option string) :
  let v := JS.trim (JS.or_else raw "") in
  JS.truthy (Avail.sanitizeDriveId raw) = JS.truthy v ∧
  (∀ pre seg rest,
     JS.chars v = (pre ++ JS.chars "/file/d/" ++ seg ++ rest)%list →
     (∀ k, (k < length pre)%nat →
           ¬ JS.chars "/file/d/" `prefix_of` drop k (JS.chars v)) →
     seg ≠ [] →
     Forall (fun c => Path.is_slash c = false) seg →
     (rest = [] ∨ ∃ c r, rest = c :: r ∧ Path.is_slash c = true) →
     Avail.sanitizeDriveId raw = JS.of_chars seg) ∧
  (∀ pre sep seg rest,
     (∀ k, ¬ JS.chars "/file/d/" `prefix_of` drop k (JS.chars v)) →
     JS.chars v = (pre ++ sep :: JS.chars "id=" ++ seg ++ rest)%list →
     sep = "?"%char ∨ sep = "&"%char →
     (∀ k, (k < length pre)%nat →
           ¬ JS.chars "?id=" `prefix_of` drop k (JS.chars v) ∧
           ¬ JS.chars "&id=" `prefix_of` drop k (JS.chars v)) →
     seg ≠ [] →
     Forall (fun c => Avail.is_amp c = false) seg →
     (rest = [] ∨ ∃ c r, rest = c :: r ∧ Avail.is_amp c = true) →
     Avail.sanitizeDriveId raw = JS.of_chars seg) ∧
  (Forall (fun c => Path.is_slash c = false) (JS.chars v) →
   Forall (fun c => Ascii.eqb c "=" = false) (JS.chars v) →
   Avail.sanitizeDriveId raw = v).
Proof.
  cbv zeta. unfold Avail.sanitizeDriveId.
  set (v := JS.trim (JS.or_else raw "")).
  split; [|split; [|split]].
  - destruct (JS.truthy v) eqn:Hv; cbn [negb]; [|reflexivity].
    destruct (Avail.first_group _ Path.is_slash _) as [g|] eqn:H1.
    { apply truthy_of_chars. now apply first_group_Some in H1. }
    destruct (Avail.first_group _ Avail.is_amp _) as [g|] eqn:H2.
    { apply truthy_of_chars. now apply first_group_Some in H2. }
    exact Hv.
  - intros pre seg rest Hv Hfirst Hne Hseg Hrest.
    rewrite (truthy_chars v) by (rewrite Hv; now destruct pre).
    cbn [negb]. rewrite Hv in Hfirst |- *.
    rewrite (first_group_at _ _ _ seg rest (strip_prefix_app _ _) Hne Hseg
               Hrest pre); [reflexivity|].
    intros k Hk. now apply strip_prefix_None, Hfirst.
  - intros pre sep seg rest Hnolink Hv Hsep Hfirst Hne Hseg Hrest.
    rewrite (truthy_chars v) by (rewrite Hv; now destruct pre).
    cbn [negb].
    rewrite (first_group_None _ _ _
               (fun k => strip_prefix_None _ _ (Hnolink k))).
    rewrite Hv in Hfirst |- *.
    rewrite (first_group_at Avail.id_param Avail.is_amp
               (sep :: JS.chars "id=" ++ seg ++ rest) seg rest);
      [reflexivity| |exact Hne|exact Hseg|exact Hrest|].
    + unfold Avail.id_param.
      destruct Hsep as [->| ->]; cbn [Ascii.eqb Bool.eqb orb];
        apply strip_prefix_app.
    + intros k Hk. destruct (Hfirst k Hk). now apply id_param_None.
  - intros Hs He.
    destruct (JS.truthy v) eqn:Hv; cbn [negb].
    + rewrite (first_group_None _ _ _ (no_link_without_slash _ Hs)).
      rewrite (first_group_None _ _ _ (no_param_without_equals _ He)).
      reflexivity.
    + destruct v; [reflexivity | discriminate].
Qed.

Example sanitizeDriveId_examples :
  Avail.sanitizeDriveId
    (Some " https://drive.google.com/file/d/1AbC_d-9/view?usp=sharing ")
  = "1AbC_d-9" ∧
  Avail.sanitizeDriveId (Some "https://drive.google.com/open?id=1AbC&x=1")
  = "1AbC" ∧
  Avail.sanitizeDriveId (Some "https://example.org/file/d//x/file/d/ID2/")
  = "ID2" ∧
  Avail.sanitizeDriveId (Some "  1AbC_d-9 ") = "1AbC_d-9" ∧
  Avail.sanitizeDriveId (Some "   ") = "" ∧
  Avail.sanitizeDriveId None = "".
Proof. repeat split; vm_compute; reflexivity. Qed.



(** * The sync by Drive time *)

Lemma stableName_clock (d : option string) (id : string) (w : World) :
  clock (snd (stableName d id w)) = clock w ∧
  (reads w ≤ reads (snd (stableName d id w)))%nat.
Proof.
  unfold stableName, safeFilename, bind, Date_now, ret.
  destruct (JS.truthy (sanitize (Path.parse_name (JS.or_else d "photo"))));
    simpl; split; auto; lia.
Qed.

Lemma ensureMaterialized_clock (drive : Drive) (id p : string) (w : World) :
  clock (snd (ensureMaterialized drive id p w)) = clock w ∧
  reads (snd (ensureMaterialized drive id p w)) = reads w.
Proof.
  unfold ensureMaterialized, bind. rewrite existsSync_eq.
  destruct (fs w !! p); cbn [negb]; [split; reflexivity|].
  unfold downloadFile. run_monad.
  destruct (media drive !! id) as [[b|b]|]; simpl; split; reflexivity.
Qed.

(** One step of the loop.  A file without a valid Drive time makes it throw;
    a file with one is counted as archived when its age at the reading of
    the clock is above the threshold, and listed otherwise. *)
Lemma driveTime_step (drive : Drive) (currentDir archiveDir : string)
    (cur : list ByDriveTime.Item) (n : Z) (f : DriveFile) (w : World) :
  ∃ r w',
    ByDriveTime.loopBody drive currentDir archiveDir (cur, n) f w = (r, w') ∧
    clock w' = clock w ∧ (reads w < reads w')%nat ∧
    match fileTime f with
    | None => ∃ e, r = Throw e
    | Some t =>
        ∀ st, r = Ok st →
          ∃ name u,
            st = if DAYS_TO_KEEP_CURRENT
                    <? (clock w (reads w) - t) / (1000 * 60 * 60 * 24)
                 then (cur, n + 1)
                 else ((cur ++
                        [ {| ByDriveTime.filename := name;
                             ByDriveTime.url := u;
                             ByDriveTime.driveName := f_name f;
                             ByDriveTime.modifiedTime := Date.toISOString t;
                             ByDriveTime.ageDays :=
                               Some ((clock w (reads w) - t)
                                     / (1000 * 60 * 60 * 24)) |} ])%list,
                       n)
    end.
Proof.
  unfold ByDriveTime.loopBody, ByDriveTime.daysAgo, ByDriveTime.isoDate.
  change (ByDriveTime.driveTime f ≫= Date.getTime) with (fileTime f).
  unfold bind at 1 2. unfold Date_now at 1. unfold ret at 1.
  cbn beta iota.
  set (w1 := {| fs := fs w; manifestObj := manifestObj w; calls := calls w;
                console := console w; clock := clock w;
                reads := S (reads w) |}).
  pose proof (stableName_clock (f_name f) (f_id f) w1) as [Hc2 Hr2].
  destruct (stableName_result (f_name f) (f_id f) w1)
    as (base & w2 & H2 & _).
  rewrite H2 in Hc2, Hr2. cbn [snd] in Hc2, Hr2.
  assert (Hclock : clock w2 = clock w) by (rewrite Hc2; reflexivity).
  assert (Hreads : (reads w < reads w2)%nat)
    by (subst w1; cbn [reads] in Hr2; lia).
  unfold bind at 1. rewrite H2.
  unfold bind at 1.
  match goal with
  | |- context [ensureMaterialized drive (f_id f) ?p] =>
      pose proof (ensureMaterialized_clock drive (f_id f) p w2) as [Hc3 Hr3];
      destruct (ensureMaterialized drive (f_id f) p w2) as [[[]|e] w3]
  end; cbn [snd] in Hc3, Hr3; rewrite <- Hc3 in Hclock;
    rewrite <- Hr3 in Hreads.
  2:{ eexists; eexists. split; [reflexivity|].
      split; [exact Hclock|]. split; [exact Hreads|].
      destruct (fileTime f); [discriminate | eauto]. }
  destruct (fileTime f) as [t|]; cbn [mbind option_bind].
  - unfold bind at 1. unfold ret at 1. cbn [JS.gt].
    destruct (DAYS_TO_KEEP_CURRENT
              <? (clock w (reads w) - t) / (1000 * 60 * 60 * 24));
      unfold ret; (eexists; eexists; split; [reflexivity|]);
      (split; [exact Hclock|]); (split; [exact Hreads|]);
      intros st [= <-]; eauto.
  - unfold bind at 1. unfold throw at 1.
    eexists; eexists. split; [reflexivity|].
    split; [exact Hclock|]. split; [exact Hreads|]. eauto.
Qed.

(** ** The listing, sorted on modifiedTime *)

Lemma getTime_truthy_string (s : string) (t : Z) :
  Date.getTime s = Some t → JS.truthy s = true.
Proof. destruct s; [discriminate | reflexivity]. Qed.

Lemma modTime_fileTime (f : DriveFile) :
  is_Some (ByDriveTime.modTime f) → fileTime f = ByDriveTime.modTime f.
Proof.
  unfold ByDriveTime.modTime, fileTime. intros [t Ht].
  destruct (f_modifiedTime f) as [s|]; [|discriminate].
  simpl in Ht. cbn [JS.truthy_opt].
  now rewrite (getTime_truthy_string s t Ht).
Qed.

Lemma driveTime_insert_perm (x : DriveFile) (l : list DriveFile) :
  ByDriveTime.insert_file x l ≡ₚ x :: l.
Proof.
  induction l as [|y l IH]; simpl; [reflexivity|].
  destruct (ByDriveTime.stays_before x y); [reflexivity|].
  rewrite IH. apply Permutation_swap.
Qed.

Lemma driveTime_sort_perm (l : list DriveFile) : ByDriveTime.sortFiles l ≡ₚ l.
Proof.
  induction l as [|x l IH]; simpl; [reflexivity|].
  rewrite driveTime_insert_perm, IH. reflexivity.
Qed.

(** When every file has a valid modifiedTime, the two scripts sort alike. *)
Lemma driveTime_insert_agree (x : DriveFile) (l : list DriveFile) :
  is_Some (ByDriveTime.modTime x) →
  Forall (fun f => is_Some (ByDriveTime.modTime f)) l →
  ByDriveTime.insert_file x l = insert_file x l.
Proof.
  intros Hx Hl. induction Hl as [|y l Hy _ IH]; simpl; [reflexivity|].
  unfold ByDriveTime.stays_before, stays_before,
    ByDriveTime.compareFiles, compareFiles.
  rewrite (modTime_fileTime x Hx), (modTime_fileTime y Hy), IH.
  reflexivity.
Qed.

Lemma driveTime_sort_agree (l : list DriveFile) :
  Forall (fun f => is_Some (ByDriveTime.modTime f)) l →
  ByDriveTime.sortFiles l = sortFiles l.
Proof.
  induction 1 as [|x l Hx Hl IH]; simpl; [reflexivity|].
  rewrite IH. apply driveTime_insert_agree; [exact Hx|].
  now rewrite sortFiles_perm.
Qed.

Lemma driveTime_listing (drive : Drive) (folderId : string) (w : World) :
  ∃ r w', ByDriveTime.listFilesInFolder drive folderId w = (r, w') ∧
    clock w' = clock w ∧ reads w' = reads w ∧
    let answers :=
      default (ListFails "File not found") (folders drive !! folderId) in
    if answered answers
    then r = Ok (ByDriveTime.sortFiles (List.filter isImage (listed answers)))
    else ∃ e, r = Throw e.
Proof.
  unfold ByDriveTime.listFilesInFolder, bind.
  destruct (listPages_spec folderId
              (default (ListFails "File not found") (folders drive !! folderId))
              None [] w) as (r & w' & Hrun & (_ & _ & _ & Hc & Hr) & Hres).
  rewrite Hrun. cbv zeta.
  destruct (answered _).
  - rewrite Hres. eexists; eexists. split; [reflexivity|]. auto.
  - destruct Hres as [e ->]. eexists; eexists. split; [reflexivity|]. eauto.
Qed.

(** ** The loop *)

(** Behind a file that is archived, every file that is not newer is
    archived, when the clock does not go back. *)
Lemma driveTime_loop_archived (drive : Drive) (currentDir archiveDir : string)
    (t0 c0 : Z) (files : list DriveFile) :
  Forall (fun f => ∃ t, fileTime f = Some t ∧ t ≤ t0) files →
  DAYS_TO_KEEP_CURRENT < (c0 - t0) / (1000 * 60 * 60 * 24) →
  ∀ (cur : list ByDriveTime.Item) (n : Z) (w : World),
  (∀ i j, (i ≤ j)%nat → clock w i ≤ clock w j) →
  c0 ≤ clock w (reads w) →
  ∀ st w',
    forOf (ByDriveTime.loopBody drive currentDir archiveDir) (cur, n) files w
    = (Ok st, w') →
    st = (cur, n + Z.of_nat (length files)).
Proof.
  intros Hfiles Hold.
  induction Hfiles as [|f files (t & Ht & Hle) _ IH];
    intros cur n w Hmono Hc0 st w'; cbn [forOf].
  - unfold ret. intros [= <- <-]. simpl. now rewrite Z.add_0_r.
  - destruct (driveTime_step drive currentDir archiveDir cur n f w)
      as (r & w1 & Hstep & Hclock & Hreads & Hres).
    unfold bind. rewrite Hstep. rewrite Ht in Hres.
    destruct r as [st1|e]; [|discriminate].
    destruct (Hres st1 eq_refl) as (name & u & ->).
    assert (Hage : DAYS_TO_KEEP_CURRENT
                   < (clock w (reads w) - t) / (1000 * 60 * 60 * 24)).
    { eapply Z.lt_le_trans; [exact Hold|].
      apply Z.div_le_mono; lia. }
    apply Z.ltb_lt in Hage. rewrite Hage.
    intros Hloop.
    rewrite (IH cur (n + 1) w1) with (st := st) (w' := w').
    + f_equal. cbn [length]. lia.
    + intros i j Hij. rewrite Hclock. now apply Hmono.
    + rewrite Hclock. etrans; [exact Hc0|]. apply Hmono. lia.
    + exact Hloop.
Qed.

(** Over a listing sorted newest first, the files that are listed in
    [current] are the first ones. *)
Lemma driveTime_loop_prefix (drive : Drive) (currentDir archiveDir : string)
    (files : list DriveFile) :
  StronglySorted newer_or_same files →
  Forall (fun f => is_Some (fileTime f)) files →
  ∀ (cur : list ByDriveTime.Item) (n : Z) (w : World),
  (∀ i j, (i ≤ j)%nat → clock w i ≤ clock w j) →
  ∀ st w',
    forOf (ByDriveTime.loopBody drive currentDir archiveDir) (cur, n) files w
    = (Ok st, w') →
    ∃ k items,
      fst st = (cur ++ items)%list ∧
      Forall2 ByDriveTime.item_of items (take k files) ∧
      snd st = n + Z.of_nat (length (drop k files)).
Proof.
  induction 1 as [|f files Hsorted IH Hnewer];
    intros Hvalid cur n w Hmono st w'; cbn [forOf].
  - unfold ret. intros [= <- <-]. exists 0%nat, [].
    rewrite app_nil_r. simpl. split; [reflexivity|].
    split; [constructor | lia].
  - apply Forall_cons in Hvalid as [[t Ht] Hvalid].
    destruct (driveTime_step drive currentDir archiveDir cur n f w)
      as (r & w1 & Hstep & Hclock & Hreads & Hres).
    unfold bind. rewrite Hstep. rewrite Ht in Hres.
    destruct r as [st1|e]; [|discriminate].
    destruct (Hres st1 eq_refl) as (name & u & ->).
    assert (Hmono1 : ∀ i j, (i ≤ j)%nat → clock w1 i ≤ clock w1 j)
      by (intros i j Hij; rewrite Hclock; now apply Hmono).
    destruct (Z.ltb_spec DAYS_TO_KEEP_CURRENT
                ((clock w (reads w) - t) / (1000 * 60 * 60 * 24)))
      as [Hold|Hyoung].
    + intros Hloop. exists 0%nat, []. rewrite app_nil_r.
      assert (Hrest : Forall (fun g => ∃ t', fileTime g = Some t' ∧ t' ≤ t)
                        files).
      { eapply Forall_impl; [exact Hnewer|].
        intros g (ta & tb & Ha & Hb & Hle). exists tb.
        split; [exact Hb | congruence]. }
      assert (Hc : clock w (reads w) ≤ clock w1 (reads w1))
        by (rewrite Hclock; apply Hmono; lia).
      rewrite (driveTime_loop_archived drive currentDir archiveDir t
                 (clock w (reads w)) files Hrest Hold cur (n + 1) w1
                 Hmono1 Hc st w' Hloop).
      simpl. split; [reflexivity|]. split; [constructor | lia].
    + intros Hloop.
      destruct (IH Hvalid _ n w1 Hmono1 st w' Hloop)
        as (k & items & Hcur & Hitems & Hcount).
      exists (S k).
      exists ({| ByDriveTime.filename := name; ByDriveTime.url := u;
                 ByDriveTime.driveName := f_name f;
                 ByDriveTime.modifiedTime := Date.toISOString t;
                 ByDriveTime.ageDays :=
                   Some ((clock w (reads w) - t) / (1000 * 60 * 60 * 24)) |}
              :: items).
      rewrite Hcur, <- app_assoc.
      split; [reflexivity|]. split; [|exact Hcount].
      cbn [take]. constructor; [|exact Hitems].
      split; [reflexivity|]. split; [eauto|]. eauto.
Qed.


(** X19. In the script that goes by Drive time, when every listed image has
    a valid modifiedTime and the clock does not go back during the run, the
    listing is sorted newest first and [current] holds its first files, in
    that order, each with its Drive name, its Drive time and an age of at
    most 90 days; all the files behind them are counted as archived. *)
Theorem current_is_newest_prefix (drive : Drive) (breedKey folderId : string)
    (answers : Listing) (w w' : World) (out : ByDriveTime.Summary) :
  folders drive !! folderId = Some answers →
  Forall (fun f => is_Some (ByDriveTime.modTime f))
    (List.filter isImage (listed answers)) →
  (∀ i j, (i ≤ j)%nat → clock w i ≤ clock w j) →
  ByDriveTime.buildSummary drive breedKey folderId w = (Ok out, w') →
  let files := ByDriveTime.sortFiles (List.filter isImage (listed answers)) in
  StronglySorted newer_or_same files ∧
  ∃ k, Forall2 ByDriveTime.item_of (ByDriveTime.current out) (take k files) ∧
       ByDriveTime.archiveCount out = Z.of_nat (length (drop k files)).
Proof.
  intros Hfolder Hvalid Hmono Hrun files.
  assert (Hvalid' : Forall (fun f => is_Some (fileTime f))
                      (List.filter isImage (listed answers))).
  { eapply Forall_impl; [exact Hvalid|]. intros f Hf.
    now rewrite modTime_fileTime. }
  assert (Hsorted : StronglySorted newer_or_same files).
  { unfold files. rewrite driveTime_sort_agree by exact Hvalid.
    now apply sortFiles_sorted. }
  split; [exact Hsorted|].
  unfold ByDriveTime.buildSummary, ensureDir in Hrun.
  unfold bind at 1 2 3 in Hrun. unfold ret at 1 2 3 in Hrun.
  unfold bind at 1 in Hrun.
  destruct (driveTime_listing drive folderId w)
    as (r & w1 & Hl & Hclock & Hreads & Hres).
  rewrite Hl in Hrun. cbv zeta in Hres. rewrite Hfolder in Hres.
  cbn [default from_option id] in Hres.
  destruct (answered answers);
    [subst r | destruct Hres as [e ->]; discriminate].
  fold files in Hrun. unfold bind at 1 in Hrun.
  destruct (forOf _ _ files w1) as [[st|e] w2] eqn:Hloop; [|discriminate].
  unfold nowIso, Date_now, bind, ret in Hrun. cbn beta iota in Hrun.
  injection Hrun as <- _.
  assert (Hfiles : Forall (fun f => is_Some (fileTime f)) files).
  { unfold files. eapply Forall_forall. intros f Hf.
    rewrite driveTime_sort_perm in Hf.
    eapply Forall_forall in Hvalid'; eassumption. }
  assert (Hmono1 : ∀ i j, (i ≤ j)%nat → clock w1 i ≤ clock w1 j)
    by (intros i j Hij; rewrite Hclock; now apply Hmono).
  destruct (driveTime_loop_prefix drive _ _ files Hsorted Hfiles [] 0 w1
              Hmono1 st w2 Hloop) as (k & items & Hcur & Hitems & Hcount).
  exists k. cbn [ByDriveTime.current ByDriveTime.archiveCount].
  rewrite Hcur, Hcount. simpl. split; [exact Hitems | lia].
Qed.

Lemma current_is_newest_prefix_witness :
  ∃ out,
    fst (ByDriveTime.buildSummary Sample.drive6 "bouviers" "F1"
           (Sample.world ∅)) = Ok out ∧
    map ByDriveTime.driveName (ByDriveTime.current out)
    = [Some "r2.jpg"; Some "r1.jpg"] ∧
    let files := ByDriveTime.sortFiles
                   (List.filter isImage
                      (listed (LastPage (Some [Sample.pR1; Sample.pZ;
                                               Sample.pR2])))) in
    StronglySorted newer_or_same files ∧
    ∃ k, Forall2 ByDriveTime.item_of (ByDriveTime.current out)
           (take k files) ∧
         ByDriveTime.archiveCount out = Z.of_nat (length (drop k files)).
Proof.
  eexists. split; [vm_compute; reflexivity|].
  split; [vm_compute; reflexivity|].
  apply (current_is_newest_prefix Sample.drive6 "bouviers" "F1"
           (LastPage (Some [Sample.pR1; Sample.pZ; Sample.pR2]))
           (Sample.world ∅)
           (snd (ByDriveTime.buildSummary Sample.drive6 "bouviers" "F1"
                   (Sample.world ∅)))).
  - reflexivity.
  - repeat constructor; eexists; vm_compute; reflexivity.
  - intros i j Hij. cbn [clock Sample.world]. lia.
  - apply pair_fst_snd. vm_compute. reflexivity.
Defined.



Example undated_file_run :
  let r := ByDriveTime.syncBreed Sample.drive7 "bouviers" "F1"
             (Sample.world ∅) in
  fst r = Throw "RangeError: Invalid time value" ∧
  calls (snd r) = [CallList "F1" None; CallMedia "idR1"; CallMedia "idU"] ∧
  fs (snd r) !! summaryPath "bouviers" = None.
Proof. cbv zeta. repeat split; vm_compute; reflexivity. Qed.

Lemma sanitizeDriveId_spec_witness :
  JS.truthy
    (Avail.sanitizeDriveId
       (Some " https://drive.google.com/file/d/1AbC_d-9/view?usp=sharing "))
  = true ∧
  Avail.sanitizeDriveId
    (Some " https://drive.google.com/file/d/1AbC_d-9/view?usp=sharing ")
  = "1AbC_d-9" ∧
  Avail.sanitizeDriveId (Some "x?id=AB&y") = "AB" ∧
  Avail.sanitizeDriveId (Some "  1AbC_d-9 ") = "1AbC_d-9".
Proof.
  split; [|split; [|split]].
  - apply (proj1 (sanitizeDriveId_spec
                    (Some " https://drive.google.com/file/d/1AbC_d-9/view?usp=sharing "))).
  - apply (proj1 (proj2 (sanitizeDriveId_spec
                    (Some " https://drive.google.com/file/d/1AbC_d-9/view?usp=sharing ")))
             (JS.chars "https://drive.google.com") (JS.chars "1AbC_d-9")
             (JS.chars "/view?usp=sharing")).
    + vm_compute. reflexivity.
    + intros k Hk.
      do 24 (destruct k as [|k];
             [match goal with
              | |- ¬ ?P => apply (proj1 (bool_decide_eq_false P))
              end; vm_compute; reflexivity|]).
      vm_compute in Hk. lia.
    + discriminate.
    + vm_compute. repeat constructor.
    + right. eexists; eexists. split; reflexivity.
  - apply (proj1 (proj2 (proj2 (sanitizeDriveId_spec (Some "x?id=AB&y"))))
             (JS.chars "x") "?"%char (JS.chars "AB") (JS.chars "&y")).
    + intros k.
      do 10 (destruct k as [|k];
             [match goal with
              | |- ¬ ?P => apply (proj1 (bool_decide_eq_false P))
              end; vm_compute; reflexivity|]).
      match goal with
      | |- ¬ ?P => apply (proj1 (bool_decide_eq_false P))
      end. vm_compute. reflexivity.
    + vm_compute. reflexivity.
    + left. reflexivity.
    + intros k Hk. destruct k as [|k]; [|vm_compute in Hk; lia].
      split; match goal with
              | |- ¬ ?P => apply (proj1 (bool_decide_eq_false P))
              end; vm_compute; reflexivity.
    + discriminate.
    + vm_compute. repeat constructor.
    + right. eexists; eexists. split; reflexivity.
  - apply (proj2 (proj2 (proj2 (sanitizeDriveId_spec (Some "  1AbC_d-9 ")))));
      vm_compute; repeat constructor.
Defined.
